(** * EbookAiGenerator: the generation orchestrator and the Markdown renderer

    A shallow embedding of [src/app.component.ts], [src/services/gemini.service.ts]
    and the [Ebook]/[Chapter] model, with the properties of the specification
    stated and proved over it.

    Conventions.
    - A JavaScript string is a sequence of code units.  The embedding works on
      strings whose code units are below 256, so that a code unit is an
      [ascii] and a string is a [string] (a [list ascii] inside the regular
      expression engine).
    - Counters ([current], [total], loop indices) are [nat].
    - Signals are record fields; [set] is a field update.  The one [effect] of
      the component is a pending flag plus its body, run at suspension points
      chosen by the environment. *)

From Stdlib Require Import Bool Arith Lia Ascii String List.
From Stdlib Require DecimalString Sorted.
Import ListNotations.

Set Implicit Arguments.
Local Open Scope string_scope.
Local Open Scope list_scope.
Local Open Scope nat_scope.

(* ================================================================== *)
(** ** Code units and string primitives *)

Module Js.

Definition LF : ascii := "010"%char.
Definition CR : ascii := "013"%char.
Definition DQ : ascii := "034"%char.

(** [nl] is the one-character string holding a line feed, [q s] is [s]
    between double quotes (for HTML attribute values). *)
Definition nl : string := String LF EmptyString.
Definition q (s : string) : string :=
  String DQ (s ++ String DQ EmptyString)%string.

(** ECMAScript LineTerminator, in the code unit range of the embedding:
    line feed and carriage return.  The other two, U+2028 and U+2029, are
    not code units below 256 and occur in no text of the embedding; a
    statement about texts "without line terminator" is about texts without
    these two as well. *)
Definition isLineTerminator (c : ascii) : bool :=
  Ascii.eqb c LF || Ascii.eqb c CR.

(** ECMAScript WhiteSpace and LineTerminator (what [trim] strips and [\s]
    matches): TAB, LF, VT, FF, CR, SP, NBSP. *)
Definition isWhiteSpace (c : ascii) : bool :=
  let n := nat_of_ascii c in
  ((9 <=? n) && (n <=? 13)) || (n =? 32) || (n =? 160).

Fixpoint trimStart (s : list ascii) : list ascii :=
  match s with
  | c :: t => if isWhiteSpace c then trimStart t else s
  | [] => []
  end.

Definition trimEnd (s : list ascii) : list ascii :=
  rev (trimStart (rev s)).

(** [String.prototype.trim]. *)
Definition trim (s : string) : string :=
  string_of_list_ascii (trimEnd (trimStart (list_ascii_of_string s))).

(** Truthiness of a string: only the empty string is falsy. *)
Definition truthy (s : string) : bool :=
  match s with EmptyString => false | String _ _ => true end.

(** Truthiness of [string | null]. *)
Definition truthy_opt (o : option string) : bool :=
  match o with Some s => truthy s | None => false end.

(** Number to string, for template literals. *)
Definition numberToString (n : nat) : string :=
  DecimalString.NilZero.string_of_uint (Nat.to_uint n).

End Js.

(* ================================================================== *)
(** ** Regular expressions: a backtracking matcher

    The fragment of ECMAScript regular expressions that the renderer uses:
    literals and classes, [^] and [$] under the [m] flag, sequence,
    alternation, greedy and lazy [*], capturing groups, and global
    [replace] with a [$n] template.  The [i] flag is carried by no
    constructor: the patterns that set it ([^### ], [^## ], [^# ], [^> ])
    contain no letter, and no code unit other than [#], [>] or space
    canonicalises to one of them.  Captures are not reset between the
    iterations of a [*]: no pattern of the renderer has a group under a
    [*]. *)

Module RegExp.

Inductive regex : Type :=
| Eps                                   (* empty pattern *)
| Cls (p : ascii -> bool)               (* one code unit satisfying [p] *)
| Bol                                   (* ^ with the m flag *)
| Eol                                   (* $ with the m flag *)
| Seq (r1 r2 : regex)
| Alt (r1 r2 : regex)                   (* r1|r2, r1 tried first *)
| Star (greedy : bool) (r : regex)      (* r* and r*? *)
| Group (i : nat) (r : regex).          (* i-th capturing group *)

Definition Chr (c : ascii) : regex := Cls (Ascii.eqb c).
Definition Plus (r : regex) : regex := Seq r (Star true r).
Definition Opt (r : regex) : regex := Alt r Eps.

(** [.] without the [s] flag, [.] with it, and [\s]. *)
Definition Dot : regex := Cls (fun c => negb (Js.isLineTerminator c)).
Definition DotAll : regex := Cls (fun _ => true).
Definition Space : regex := Cls Js.isWhiteSpace.

(** A literal string. *)
Fixpoint Lit (s : string) : regex :=
  match s with
  | EmptyString => Eps
  | String c EmptyString => Chr c
  | String c t => Seq (Chr c) (Lit t)
  end.

(** Matcher state: the code unit before the current position ([None] at
    the start of the input), the rest of the input, the captures. *)
Record mstate : Type := MState {
  prev : option ascii;
  rest : list ascii;
  caps : list (nat * list ascii)
}.

Definition cont : Type := mstate -> option mstate.

Definition atBol (s : mstate) : bool :=
  match prev s with
  | None => true
  | Some c => Js.isLineTerminator c
  end.

Definition atEol (s : mstate) : bool :=
  match rest s with
  | [] => true
  | c :: _ => Js.isLineTerminator c
  end.

(** The text between two states of one match. *)
Definition consumed (s s' : mstate) : list ascii :=
  firstn (length (rest s) - length (rest s')) (rest s).

Definition closeGroup (i : nat) (s s' : mstate) : mstate :=
  MState (prev s') (rest s') ((i, consumed s s') :: caps s').

(** [r*]: an iteration that consumes nothing is rejected, as in
    ECMAScript, so [fuel] above the length of the input is never used
    up. *)
Fixpoint star (body : cont -> cont) (greedy : bool) (fuel : nat)
              (k : cont) (s : mstate) : option mstate :=
  match fuel with
  | 0 => k s
  | S fuel' =>
      let more :=
        body (fun s' =>
                if length (rest s') <? length (rest s)
                then star body greedy fuel' k s'
                else None) s in
      if greedy
      then match more with Some x => Some x | None => k s end
      else match k s with Some x => Some x | None => more end
  end.

Fixpoint run (r : regex) (k : cont) (s : mstate) {struct r} : option mstate :=
  match r with
  | Eps => k s
  | Cls p =>
      match rest s with
      | c :: t => if p c then k (MState (Some c) t (caps s)) else None
      | [] => None
      end
  | Bol => if atBol s then k s else None
  | Eol => if atEol s then k s else None
  | Seq r1 r2 => run r1 (run r2 k) s
  | Alt r1 r2 =>
      match run r1 k s with
      | Some x => Some x
      | None => run r2 k s
      end
  | Star greedy r1 => star (run r1) greedy (S (length (rest s))) k s
  | Group i r1 => run r1 (fun s' => k (closeGroup i s s')) s
  end.

(** One match attempt at the current position. *)
Definition matchAt (r : regex) (p : option ascii) (input : list ascii)
  : option mstate :=
  run r (fun s => Some s) (MState p input []).

(** Replacement templates: literal text and [$n]. *)
Inductive titem : Type :=
| TLit (s : string)
| TGrp (i : nat).

Fixpoint capture (i : nat) (cs : list (nat * list ascii)) : list ascii :=
  match cs with
  | [] => []                                   (* undefined expands to empty *)
  | (j, v) :: t => if i =? j then v else capture i t
  end.

Fixpoint expand (tpl : list titem) (cs : list (nat * list ascii)) : list ascii :=
  match tpl with
  | [] => []
  | TLit s :: t => list_ascii_of_string s ++ expand t cs
  | TGrp i :: t => capture i cs ++ expand t cs
  end.

(** Global replace, scanning left to right.  [skip] counts the code units
    of the last match that are still to be dropped; after an empty match
    the scan copies one code unit and moves on, as [lastIndex] does. *)
Fixpoint replaceFrom (r : regex) (tpl : list titem) (p : option ascii)
                     (input : list ascii) (skip : nat) : list ascii :=
  match input with
  | [] =>
      match skip with
      | 0 => match matchAt r p [] with
             | Some m => expand tpl (caps m)
             | None => []
             end
      | S _ => []
      end
  | c :: t =>
      match skip with
      | S n => replaceFrom r tpl (Some c) t n
      | 0 =>
          match matchAt r p input with
          | Some m =>
              expand tpl (caps m) ++
              match length input - length (rest m) with
              | 0 => c :: replaceFrom r tpl (Some c) t 0
              | S n => replaceFrom r tpl (Some c) t n
              end
          | None => c :: replaceFrom r tpl (Some c) t 0
          end
      end
  end.

(** [s.replace(/r/g, tpl)]. *)
Definition replace (r : regex) (tpl : list titem) (s : string) : string :=
  string_of_list_ascii (replaceFrom r tpl None (list_ascii_of_string s) 0).

End RegExp.

(* ================================================================== *)
(** ** The Markdown renderer ([AppComponent.parseMarkdown]) *)

Module Markdown.
Import RegExp.

Notation "x |> f" := (f x) (at level 45, left associativity, only parsing).

(** Sequence of several patterns. *)
Definition Cat (rs : list regex) : regex := fold_right Seq Eps rs.

(** An element with a [class] attribute around [$n], and its tags. *)
Definition openTag (tag cls : string) : string :=
  ("<" ++ tag ++ " class=" ++ Js.q cls ++ ">")%string.
Definition closeTag (tag : string) : string := ("</" ++ tag ++ ">")%string.
Definition wrapGroup (tag cls : string) (i : nat) : list titem :=
  [TLit (openTag tag cls); TGrp i; TLit (closeTag tag)].

(** [/^### (.*$)/gim], [/^## (.*$)/gim], [/^# (.*$)/gim] *)
Definition lineAfter (marker : string) : regex :=
  Cat [Bol; Lit marker; Group 1 (Cat [Star true Dot; Eol])].
Definition re_h3 : regex := lineAfter "### ".
Definition re_h2 : regex := lineAfter "## ".
Definition re_h1 : regex := lineAfter "# ".
Definition h3Class : string := "text-xl font-semibold mt-6 mb-2 text-indigo-300".
Definition h2Class : string :=
  "text-2xl font-bold mt-8 mb-4 text-indigo-400 border-b border-gray-600 pb-2".
Definition h1Class : string := "text-3xl font-extrabold mt-8 mb-4 text-indigo-300".
Definition tpl_h3 := wrapGroup "h3" h3Class 1.
Definition tpl_h2 := wrapGroup "h2" h2Class 1.
Definition tpl_h1 := wrapGroup "h1" h1Class 1.

(** [/^\> (.*$)/gim] *)
Definition re_quote : regex := lineAfter "> ".
Definition tpl_quote :=
  wrapGroup "blockquote" "border-l-4 border-indigo-500 pl-4 italic text-gray-400 my-4" 1.

(** [/\*\*(.*?)\*\*/g] *)
Definition re_bold : regex := Cat [Lit "**"; Group 1 (Star false Dot); Lit "**"].
Definition tpl_bold := wrapGroup "strong" "text-indigo-300" 1.

(** [/\*(.*?)\*/g] *)
Definition re_em : regex := Cat [Lit "*"; Group 1 (Star false Dot); Lit "*"].
Definition tpl_em := [TLit "<em>"; TGrp 1; TLit "</em>"].

(** [/`([^`]+)`/g] *)
Definition notBacktick (c : ascii) : bool := negb (Ascii.eqb c "`").
Definition re_code : regex := Cat [Lit "`"; Group 1 (Plus (Cls notBacktick)); Lit "`"].
Definition tpl_code := wrapGroup "code" "bg-gray-700 text-red-300 rounded px-2 py-1 text-sm" 1.

(** [/\n\n/g] and [/\n/g] *)
Definition re_para : regex := Cat [Chr Js.LF; Chr Js.LF].
Definition paragraphClass : string := "my-4 leading-relaxed".
Definition tpl_para := [TLit (closeTag "p"); TLit (openTag "p" paragraphClass)].
Definition re_br : regex := Chr Js.LF.
Definition tpl_br := [TLit "<br>"].

(** The list item pattern of line 119: an optional group 1 holding CR LF
    or LF, then [\s*], then a dash or a star, a space, and group 2 holding
    the rest of the line (greedy dot-star); flag [g]. *)
Definition dashOrStar (c : ascii) : bool := Ascii.eqb c "-" || Ascii.eqb c "*".
Definition re_li : regex :=
  Cat [Opt (Group 1 (Alt (Cat [Chr Js.CR; Chr Js.LF]) (Chr Js.LF)));
       Star true Space; Cls dashOrStar; Lit " "; Group 2 (Star true Dot)].
Definition tpl_li := [TLit "<li>"; TGrp 2; TLit "</li>"].

(** [/(<li>.*<\/li>)/gs]: the dot matches every code unit. *)
Definition re_ul : regex := Group 1 (Cat [Lit "<li>"; Star true DotAll; Lit "</li>"]).
Definition tpl_ul := [TLit "<ul>"; TGrp 1; TLit "</ul>"].

(** [/<\/ul>\s*<ul>/g], replaced by nothing *)
Definition re_merge : regex := Cat [Lit "</ul>"; Star true Space; Lit "<ul>"].
Definition tpl_merge : list titem := [].

(** The three heading substitutions, in the order of the source. *)
Definition headings (text : string) : string :=
  text |> replace re_h3 tpl_h3 |> replace re_h2 tpl_h2 |> replace re_h1 tpl_h1.

(** The substitutions that follow the headings up to the line breaks. *)
Definition inlines (text : string) : string :=
  text
  |> replace re_quote tpl_quote
  |> replace re_bold tpl_bold
  |> replace re_em tpl_em
  |> replace re_code tpl_code
  |> replace re_para tpl_para
  |> replace re_br tpl_br.

(** "Handle lists" *)
Definition lists (html : string) : string :=
  html |> replace re_li tpl_li |> replace re_ul tpl_ul |> replace re_merge tpl_merge.

Definition parseMarkdown (text : string) : string :=
  if negb (Js.truthy text) then EmptyString
  else
    let html := text |> headings |> inlines in
    let html := lists html in
    (openTag "p" paragraphClass ++ html ++ closeTag "p")%string.

End Markdown.

(* ================================================================== *)
(** ** The data model ([models/ebook.model.ts], [TocStructure]) *)

Module Chapter.
Record t : Type := mk { title : string; sections : list string; content : string }.
End Chapter.

Module Ebook.
Record t : Type := mk { title : string; chapters : list Chapter.t }.
End Ebook.

(** An entry of [TocStructure.chapters]. *)
Module ChapterSpec.
Record t : Type := mk { title : string; sections : list string }.
End ChapterSpec.

(** The parsed outline.  [chapters] is [None] when the parsed JSON object
    has no [chapters] member, which the orchestrator tests for. *)
Module TocStructure.
Record t : Type := mk { title : string; chapters : option (list ChapterSpec.t) }.
End TocStructure.

Inductive EbookState : Type := idle | generating | completed | error | exporting.

Record GenerationProgress : Type := mkProgress {
  current : nat;
  total : nat;
  message : string
}.

(** The Content Provider's own state: whether the client object [genAI] was
    built, and the [error] signal. *)
Module GeminiService.
Record t : Type := mk { genAI : bool; error : option string }.

(** The constructor, from [process.env.API_KEY]. *)
Definition new (apiKey : option string) : t :=
  if negb (Js.truthy_opt apiKey)
  then mk false (Some "API key for Google Gemini is not configured.")
  else mk true None.
End GeminiService.

(** The component: its injected service, its signals, and whether the
    effect registered in the constructor is scheduled to run. *)
Record AppComponent : Type := mkApp {
  geminiService : GeminiService.t;
  ebookState : EbookState;
  generationProgress : GenerationProgress;
  ebook : option Ebook.t;
  ebookTopic : string;
  componentError : option string;
  effectPending : bool
}.

(** What a run does, in order: signal writes, calls into the Content
    Provider and their results, and the file handed to the PDF library. *)
Inductive Event : Type :=
| SetEbookState (s : EbookState)
| EffectSetEbookState (s : EbookState)
| SetGenerationProgress (p : GenerationProgress)
| SetEbook (e : Ebook.t)
| SetComponentError (m : option string)
| SetServiceError (m : option string)
| CallTableOfContents (topic : string)
| ReturnTableOfContents (toc : option TocStructure.t)
| CallChapterContent (topic chapterTitle : string) (sections : list string)
| ReturnChapterContent (content : string)
| SavePdf (fileName : string).

(** What the remote model call does: it throws (the SDK rejects, or for the
    outline the text is not JSON) or the [try] block reaches its [return]. *)
Inductive Reply (A : Type) : Type :=
| Threw
| Returned (a : A).
Arguments Threw {A}.
Arguments Returned {A} a.

(** The environment of one generation run: the outcome of the outline
    request, of the request for chapter [i], and whether scheduled effects
    run at the [k]-th suspension point of the run.  Points [0] and [1] are
    the outline request in flight and settled; [2i+2] and [2i+3] are the
    same for chapter [i]. *)
Record Run : Type := mkRun {
  tocReply : Reply (option TocStructure.t);
  chapterReply : nat -> Reply string;
  flushAt : nat -> bool
}.

(** The environment of one export: what the PDF pipeline does, and whether
    scheduled effects run during the timeout and during the rendering. *)
Inductive ExportOutcome : Type := ExportSaved | ExportThrew.
Record Export : Type := mkExport {
  outcome : ExportOutcome;
  flushInTimeout : bool;
  flushInRender : bool
}.

(* ================================================================== *)
(** ** A state-and-log monad for the component's methods *)

Definition M (A : Type) : Type := AppComponent -> A * AppComponent * list Event.

Definition ret {A} (a : A) : M A := fun s => (a, s, []).

Definition bind {A B} (m : M A) (f : A -> M B) : M B :=
  fun s =>
    let '(a, s1, l1) := m s in
    let '(b, s2, l2) := f a s1 in
    (b, s2, l1 ++ l2).

Notation "x <- m ;; f" := (bind m (fun x => f))
  (at level 61, m at next level, right associativity).
Notation "m ;; f" := (bind m (fun _ => f))
  (at level 61, right associativity).

Definition gets {A} (f : AppComponent -> A) : M A := fun s => (f s, s, []).
Definition log (e : Event) : M unit := fun s => (tt, s, [e]).
Definition modify (f : AppComponent -> AppComponent) : M unit := fun s => (tt, f s, []).

Definition result {A} (r : A * AppComponent * list Event) : A := fst (fst r).
Definition final {A} (r : A * AppComponent * list Event) : AppComponent := snd (fst r).
Definition events {A} (r : A * AppComponent * list Event) : list Event := snd r.

(** Field updates. *)
Definition with_service (v : GeminiService.t) (a : AppComponent) : AppComponent :=
  mkApp v (ebookState a) (generationProgress a) (ebook a) (ebookTopic a)
        (componentError a) (effectPending a).
Definition with_ebookState (v : EbookState) (a : AppComponent) : AppComponent :=
  mkApp (geminiService a) v (generationProgress a) (ebook a) (ebookTopic a)
        (componentError a) (effectPending a).
Definition with_generationProgress (v : GenerationProgress) (a : AppComponent) : AppComponent :=
  mkApp (geminiService a) (ebookState a) v (ebook a) (ebookTopic a)
        (componentError a) (effectPending a).
Definition with_ebook (v : option Ebook.t) (a : AppComponent) : AppComponent :=
  mkApp (geminiService a) (ebookState a) (generationProgress a) v (ebookTopic a)
        (componentError a) (effectPending a).
Definition with_ebookTopic (v : string) (a : AppComponent) : AppComponent :=
  mkApp (geminiService a) (ebookState a) (generationProgress a) (ebook a) v
        (componentError a) (effectPending a).
Definition with_componentError (v : option string) (a : AppComponent) : AppComponent :=
  mkApp (geminiService a) (ebookState a) (generationProgress a) (ebook a) (ebookTopic a)
        v (effectPending a).
Definition with_effectPending (v : bool) (a : AppComponent) : AppComponent :=
  mkApp (geminiService a) (ebookState a) (generationProgress a) (ebook a) (ebookTopic a)
        (componentError a) v.

(** [serviceError = this.geminiService.error] *)
Definition serviceError (a : AppComponent) : option string :=
  GeminiService.error (geminiService a).

(** Signal equality on [string | null]: a [set] to an equal value notifies
    nobody. *)
Definition sameValue (x y : option string) : bool :=
  match x, y with
  | None, None => true
  | Some s, Some t => String.eqb s t
  | _, _ => false
  end.

(** Signal writes of the component's methods. *)
Definition ebookState_set (v : EbookState) : M unit :=
  modify (with_ebookState v) ;; log (SetEbookState v).
Definition generationProgress_set (v : GenerationProgress) : M unit :=
  modify (with_generationProgress v) ;; log (SetGenerationProgress v).
Definition generationProgress_update (f : GenerationProgress -> GenerationProgress) : M unit :=
  p <- gets generationProgress ;; generationProgress_set (f p).
Definition ebook_set (v : Ebook.t) : M unit :=
  modify (with_ebook (Some v)) ;; log (SetEbook v).
Definition componentError_set (v : option string) : M unit :=
  modify (with_componentError v) ;; log (SetComponentError v).

(** [this.error.set(v)] in the service: the effect reads this signal, so a
    change of value schedules it. *)
Definition error_set (v : option string) : M unit :=
  old <- gets serviceError ;;
  svc <- gets geminiService ;;
  modify (with_service (GeminiService.mk (GeminiService.genAI svc) v)) ;;
  modify (fun a => with_effectPending (effectPending a || negb (sameValue old v)) a) ;;
  log (SetServiceError v).

(** The body of the effect of the constructor (lines 50 to 54). *)
Definition serviceErrorEffect : M unit :=
  e <- gets serviceError ;;
  if Js.truthy_opt e
  then modify (with_ebookState error) ;; log (EffectSetEbookState error)
  else ret tt.

(** Running the scheduled effects: the effect runs if it is scheduled, and
    is then no longer scheduled. *)
Definition flushEffects : M unit :=
  p <- gets effectPending ;;
  if p then modify (with_effectPending false) ;; serviceErrorEffect else ret tt.

(** A suspension point ([await], [setTimeout]): the environment decides
    whether the scheduled effects run there. *)
Definition suspend (flush : bool) : M unit :=
  if flush then flushEffects else ret tt.

(** The component as the constructors leave it: the effect is scheduled for
    its first run. *)
Definition newAppComponent (apiKey : option string) : AppComponent :=
  mkApp (GeminiService.new apiKey) idle (mkProgress 0 0 EmptyString) None
        EmptyString None true.

(* ================================================================== *)
(** ** The Content Provider ([GeminiService]) *)

(** [generateTableOfContents(topic)], with the outcome of its remote call
    and the choice at its suspension point. *)
Definition generateTableOfContents (topic : string)
    (reply : Reply (option TocStructure.t)) (flush : bool)
  : M (option TocStructure.t) :=
  log (CallTableOfContents topic) ;;
  svc <- gets geminiService ;;
  r <- (if negb (GeminiService.genAI svc) then ret None
        else
          error_set None ;;
          suspend flush ;;
          match reply with
          | Returned toc => ret toc
          | Threw =>
              error_set (Some "Failed to generate the table of contents. Please check the console for details.") ;;
              ret None
          end) ;;
  log (ReturnTableOfContents r) ;;
  ret r.

Definition chapterPlaceholder : string := "Error generating content for this chapter.".

(** [generateChapterContent(topic, chapterTitle, sections)], likewise. *)
Definition generateChapterContent (topic chapterTitle : string) (sections : list string)
    (reply : Reply string) (flush : bool)
  : M string :=
  log (CallChapterContent topic chapterTitle sections) ;;
  svc <- gets geminiService ;;
  r <- (if negb (GeminiService.genAI svc) then ret EmptyString
        else
          error_set None ;;
          suspend flush ;;
          match reply with
          | Returned text => ret text
          | Threw =>
              error_set (Some ("Failed to generate content for chapter: " ++ chapterTitle ++ ".")%string) ;;
              ret chapterPlaceholder
          end) ;;
  log (ReturnChapterContent r) ;;
  ret r.

(** [generateChapterContent] as it runs, with the text of the reply as the
    client library types it, [string | undefined]: line 83 hands it back as
    it is, so that the method can hand back [undefined] ([None]) where its
    signature says [string].  The log records a result that is a string.
    [generateChapterContent] above is this method on the replies whose text
    is defined ([definedText]). *)
Definition generateChapterContentAtRuntime (topic chapterTitle : string)
    (sections : list string) (reply : Reply (option string)) (flush : bool)
  : M (option string) :=
  log (CallChapterContent topic chapterTitle sections) ;;
  svc <- gets geminiService ;;
  r <- (if negb (GeminiService.genAI svc) then ret (Some EmptyString)
        else
          error_set None ;;
          suspend flush ;;
          match reply with
          | Returned text => ret text
          | Threw =>
              error_set (Some ("Failed to generate content for chapter: " ++ chapterTitle ++ ".")%string) ;;
              ret (Some chapterPlaceholder)
          end) ;;
  match r with
  | Some content => log (ReturnChapterContent content)
  | None => ret tt
  end ;;
  ret r.

Definition definedText (reply : Reply string) : Reply (option string) :=
  match reply with
  | Returned text => Returned (Some text)
  | Threw => Threw
  end.

(* ================================================================== *)
(** ** The orchestrator ([AppComponent.generateEbook], [exportToPdf]) *)

(** [{ ...chapterSpec, content }] *)
Definition withContent (chapterSpec : ChapterSpec.t) (content : string) : Chapter.t :=
  Chapter.mk (ChapterSpec.title chapterSpec) (ChapterSpec.sections chapterSpec) content.

Definition chapterMessage (i totalChapters : nat) (chapterSpec : ChapterSpec.t) : string :=
  ("Generating chapter " ++ Js.numberToString (i + 1) ++ "/" ++
   Js.numberToString totalChapters ++ ": " ++ ChapterSpec.title chapterSpec)%string.

(** One turn of the [for] loop of lines 89 to 95, for index [i]. *)
Definition generateChapter (w : Run) (topic : string) (totalChapters : nat)
    (i : nat) (chapterSpec : ChapterSpec.t) : M Chapter.t :=
  generationProgress_update
    (fun p => mkProgress (i + 1) (total p) (chapterMessage i totalChapters chapterSpec)) ;;
  content <- generateChapterContent topic (ChapterSpec.title chapterSpec)
               (ChapterSpec.sections chapterSpec)
               (chapterReply w i) (flushAt w (2 * i + 2)) ;;
  suspend (flushAt w (2 * i + 3)) ;;
  ret (withContent chapterSpec content).

(** The loop from index [i] on: [chapters] is [toc.chapters] from [i],
    [generatedChapters] what was pushed so far. *)
Fixpoint generateChapters (w : Run) (topic : string) (totalChapters : nat)
    (i : nat) (chapters : list ChapterSpec.t) (generatedChapters : list Chapter.t)
  : M (list Chapter.t) :=
  match chapters with
  | [] => ret generatedChapters
  | chapterSpec :: later =>
      chapter <- generateChapter w topic totalChapters i chapterSpec ;;
      generateChapters w topic totalChapters (S i) later (generatedChapters ++ [chapter])
  end.

(** The chapter list of a usable outline: [None] exactly when
    [!toc || !toc.chapters || toc.chapters.length === 0]. *)
Definition usableChapters (toc : option TocStructure.t) : option (list ChapterSpec.t) :=
  match toc with
  | None => None
  | Some t =>
      match TocStructure.chapters t with
      | None => None
      | Some [] => None
      | Some (c :: cs) => Some (c :: cs)
      end
  end.

Definition tocTitle (toc : option TocStructure.t) : string :=
  match toc with
  | Some t => TocStructure.title t
  | None => EmptyString
  end.

Definition generateEbook (w : Run) : M unit :=
  rawTopic <- gets ebookTopic ;;
  let topic := Js.trim rawTopic in
  if negb (Js.truthy topic) then
    componentError_set (Some "Please provide a topic for your ebook.") ;;
    ebookState_set error
  else
    componentError_set None ;;
    ebookState_set generating ;;
    generationProgress_set (mkProgress 0 1 "Generating table of contents...") ;;
    toc <- generateTableOfContents topic (tocReply w) (flushAt w 0) ;;
    suspend (flushAt w 1) ;;
    match usableChapters toc with
    | None =>
        ebookState_set error ;;
        generationProgress_set
          (mkProgress 0 0 "Could not generate a valid table of contents.")
    | Some chapters =>
        let totalChapters := length chapters in
        generationProgress_set
          (mkProgress 0 totalChapters "Table of contents generated. Generating chapters...") ;;
        generatedChapters <- generateChapters w topic totalChapters 0 chapters [] ;;
        ebook_set (Ebook.mk (tocTitle toc) generatedChapters) ;;
        ebookState_set completed
    end.

(** [title.replace(/[^a-z0-9]/gi, '_').toLowerCase() || 'ebook'] *)
Definition isAlnum (c : ascii) : bool :=
  let n := nat_of_ascii c in
  ((48 <=? n) && (n <=? 57)) || ((65 <=? n) && (n <=? 90)) || ((97 <=? n) && (n <=? 122)).

Definition toLowerCaseUnit (c : ascii) : ascii :=
  let n := nat_of_ascii c in
  if ((65 <=? n) && (n <=? 90)) || ((192 <=? n) && (n <=? 222) && negb (n =? 215))
  then ascii_of_nat (n + 32) else c.

Fixpoint toLowerCase (s : string) : string :=
  match s with
  | EmptyString => EmptyString
  | String c t => String (toLowerCaseUnit c) (toLowerCase t)
  end.

Definition safeTitle (e : option Ebook.t) : string :=
  match e with
  | None => "ebook"
  | Some b =>
      let t := toLowerCase
                 (RegExp.replace (RegExp.Cls (fun c => negb (isAlnum c)))
                                 [RegExp.TLit "_"] (Ebook.title b)) in
      if Js.truthy t then t else "ebook"
  end.

(** [exportToPdf()], with the timer callback run after the timeout. *)
Definition exportToPdf (x : Export) : M unit :=
  componentError_set None ;;
  ebookState_set exporting ;;
  suspend (flushInTimeout x) ;;
  suspend (flushInRender x) ;;
  match outcome x with
  | ExportSaved =>
      e <- gets ebook ;;
      log (SavePdf (safeTitle e ++ ".pdf")%string) ;;
      ebookState_set completed
  | ExportThrew =>
      componentError_set (Some "An unexpected error occurred during PDF export.") ;;
      ebookState_set error
  end.

(* ================================================================== *)
(** ** Observations on a run *)

(** The calls into the Content Provider and their results, in order. *)
Definition isProviderEvent (e : Event) : bool :=
  match e with
  | CallTableOfContents _ | ReturnTableOfContents _
  | CallChapterContent _ _ _ | ReturnChapterContent _ => true
  | _ => false
  end.
Definition providerCalls (l : list Event) : list Event := filter isProviderEvent l.

(** The values written to [ebookState], by the methods and by the effect. *)
Definition stateWrites (l : list Event) : list EbookState :=
  flat_map (fun e => match e with
                     | SetEbookState s | EffectSetEbookState s => [s]
                     | _ => []
                     end) l.

(** The values written to [ebookState] by the methods themselves. *)
Definition methodStateWrites (l : list Event) : list EbookState :=
  flat_map (fun e => match e with SetEbookState s => [s] | _ => [] end) l.

Definition progressWrites (l : list Event) : list GenerationProgress :=
  flat_map (fun e => match e with SetGenerationProgress p => [p] | _ => [] end) l.

Definition ebookWrites (l : list Event) : list Ebook.t :=
  flat_map (fun e => match e with SetEbook b => [b] | _ => [] end) l.

Definition serviceErrorWrites (l : list Event) : list (option string) :=
  flat_map (fun e => match e with SetServiceError m => [m] | _ => [] end) l.

(** The contents that chapter requests returned. *)
Definition chapterReturns (l : list Event) : list string :=
  flat_map (fun e => match e with ReturnChapterContent c => [c] | _ => [] end) l.

(** The log cut at the first write of [ebook]. *)
Fixpoint splitAtEbook (l : list Event) : option (list Event * Ebook.t * list Event) :=
  match l with
  | [] => None
  | SetEbook b :: t => Some ([], b, t)
  | e :: t =>
      match splitAtEbook t with
      | Some (pre, b, post) => Some (e :: pre, b, post)
      | None => None
      end
  end.

(** What a chapter request hands back for a given outcome of the remote
    call, when the client exists. *)
Definition contentOf (reply : Reply string) : string :=
  match reply with
  | Returned text => text
  | Threw => chapterPlaceholder
  end.

(** The chapters and the provider traffic that the outline entries
    [chapters], numbered from [i], stand for. *)
Fixpoint assembled (w : Run) (i : nat) (chapters : list ChapterSpec.t) : list Chapter.t :=
  match chapters with
  | [] => []
  | c :: t => withContent c (contentOf (chapterReply w i)) :: assembled w (S i) t
  end.

Fixpoint fetches (w : Run) (topic : string) (i : nat) (chapters : list ChapterSpec.t)
  : list Event :=
  match chapters with
  | [] => []
  | c :: t =>
      CallChapterContent topic (ChapterSpec.title c) (ChapterSpec.sections c)
      :: ReturnChapterContent (contentOf (chapterReply w i))
      :: fetches w topic (S i) t
  end.

(** A topic that is empty or holds white space only. *)
Definition isBlank (s : string) : bool :=
  forallb Js.isWhiteSpace (list_ascii_of_string s).

(** The two phases of a run whose topic passed validation, named for the
    proofs: up to the continuation after the outline request, and from the
    progress reset to the end. *)
Definition outlinePhase (w : Run) (topic : string) : M (option TocStructure.t) :=
  componentError_set None ;;
  ebookState_set generating ;;
  generationProgress_set (mkProgress 0 1 "Generating table of contents...") ;;
  toc <- generateTableOfContents topic (tocReply w) (flushAt w 0) ;;
  suspend (flushAt w 1) ;;
  ret toc.

Definition outlineReadyProgress (n : nat) : GenerationProgress :=
  mkProgress 0 n "Table of contents generated. Generating chapters...".

Definition chapterPhase (w : Run) (topic : string) (toc : option TocStructure.t)
    (chapters : list ChapterSpec.t) : M unit :=
  generationProgress_set (outlineReadyProgress (length chapters)) ;;
  generatedChapters <- generateChapters w topic (length chapters) 0 chapters [] ;;
  ebook_set (Ebook.mk (tocTitle toc) generatedChapters) ;;
  ebookState_set completed.

Definition outlineFailure : M unit :=
  ebookState_set error ;;
  generationProgress_set (mkProgress 0 0 "Could not generate a valid table of contents.").

(** Whether every non-null write to the provider's error signal made while
    [ebookState] is [generating] is followed, later in the log, by a write
    of [error] to [ebookState].  [st] is the state the log starts in. *)
Definition isError (s : EbookState) : bool :=
  match s with error => true | _ => false end.
Definition isGeneratingState (s : EbookState) : bool :=
  match s with generating => true | _ => false end.

Fixpoint failuresForceError (st : EbookState) (l : list Event) : bool :=
  match l with
  | [] => true
  | SetServiceError (Some _) :: t =>
      (negb (isGeneratingState st) || existsb isError (stateWrites t))
      && failuresForceError st t
  | SetEbookState s :: t => failuresForceError s t
  | EffectSetEbookState s :: t => failuresForceError s t
  | _ :: t => failuresForceError st t
  end.

(** Lines, runs of [#], and occurrences of a tag, for the statements about
    the renderer. *)
Definition isSingleLine (s : string) : bool :=
  forallb (fun c => negb (Js.isLineTerminator c)) (list_ascii_of_string s).

Fixpoint hashes (k : nat) : string :=
  match k with
  | 0 => EmptyString
  | S k' => String "#" (hashes k')
  end.

(** Whether [s] goes on with a space or with one more [#]. *)
Definition startsWithSpaceOrHash (s : string) : bool :=
  match s with
  | String c _ => Ascii.eqb c " " || Ascii.eqb c "#"
  | EmptyString => false
  end.

Fixpoint countOccurrences (pat s : string) : nat :=
  match s with
  | EmptyString => 0
  | String _ t => (if String.prefix pat s then 1 else 0) + countOccurrences pat t
  end.

(** Example environments. *)
Definition exampleChapters : list ChapterSpec.t :=
  [ChapterSpec.mk "Intro" ["history"];
   ChapterSpec.mk "Dough" ["hydration"; "kneading"]].

Definition exampleOutline : TocStructure.t :=
  TocStructure.mk "Bread 101" (Some exampleChapters).

Definition exampleComponent : AppComponent :=
  with_ebookTopic "bread baking" (newAppComponent (Some "key")).

(** The first chapter request throws, the second returns. *)
Definition firstChapterFails (i : nat) : Reply string :=
  match i with
  | 0 => Threw
  | _ => Returned "## Section"
  end.

(** The second, and last, chapter request throws. *)
Definition lastChapterFails (i : nat) : Reply string :=
  match i with
  | 1 => Threw
  | _ => Returned "## Section"
  end.

(** Scheduled effects run at no suspension point, or at every one. *)
Definition lazyRun : Run :=
  mkRun (Returned (Some exampleOutline)) firstChapterFails (fun _ => false).
Definition eagerRun : Run :=
  mkRun (Returned (Some exampleOutline)) firstChapterFails (fun _ => true).
Definition lateRun : Run :=
  mkRun (Returned (Some exampleOutline)) lastChapterFails (fun _ => false).

(** Notions for the statements about the matcher: a code unit that ends no
    line, the code unit before the position reached after reading [l] from a
    position that follows [p], a position that is not at the start of a
    line, and a pattern that matches nowhere that a [#] stands. *)
Definition notLT (c : ascii) : bool := negb (Js.isLineTerminator c).

Definition lastOr (p : option ascii) (l : list ascii) : option ascii :=
  fold_left (fun _ c => Some c) l p.

Definition offLineStart (p : option ascii) : Prop :=
  exists c, p = Some c /\ Js.isLineTerminator c = false.

Definition skipsHash (r : RegExp.regex) : Prop :=
  forall p t, RegExp.matchAt r p ("#"%char :: t) = None.

(** A line-by-line reading of the substitutions anchored at the start of a
    line, to compare the matcher with: [lineRule m tpl] is what happens to
    one line (a line that starts with the marker [m] becomes the template
    with the rest of the line for group 1, another line stays), [byLines]
    applies a rule to every line of a text and keeps the line terminators,
    and [headingLine] is the three heading rules in the order of the
    source. *)
Fixpoint stripPrefix (m l : list ascii) : option (list ascii) :=
  match m with
  | [] => Some l
  | c :: m' =>
      match l with
      | x :: l' => if Ascii.eqb c x then stripPrefix m' l' else None
      | [] => None
      end
  end.

Definition lineRule (m : string) (tpl : list RegExp.titem) (line : list ascii) : list ascii :=
  match stripPrefix (list_ascii_of_string m) line with
  | Some body => RegExp.expand tpl [(1, body)]
  | None => line
  end.

Fixpoint byLines (rule : list ascii -> list ascii) (acc input : list ascii) : list ascii :=
  match input with
  | [] => rule (rev acc)
  | c :: t =>
      if Js.isLineTerminator c
      then rule (rev acc) ++ c :: byLines rule [] t
      else byLines rule (c :: acc) t
  end.

Definition headingLine (line : list ascii) : list ascii :=
  lineRule "# " Markdown.tpl_h1
    (lineRule "## " Markdown.tpl_h2 (lineRule "### " Markdown.tpl_h3 line)).

(** A text that is empty or starts with a line terminator, one that is
    empty or ends with one, and a position at the start of a line. *)
Definition startsLine (tail : list ascii) : bool :=
  match tail with
  | [] => true
  | c :: _ => Js.isLineTerminator c
  end.

Definition endsLine (pre : list ascii) : bool := startsLine (rev pre).

Definition atLineStart (p : option ascii) : bool :=
  match p with
  | None => true
  | Some c => Js.isLineTerminator c
  end.

(** What the scan does from the end of a line that it reached off the start
    of a line: it copies the line terminator and goes on after it. *)
Definition afterLine (r : RegExp.regex) (tpl : list RegExp.titem) (tail : list ascii)
  : list ascii :=
  match tail with
  | [] => []
  | c :: more => c :: RegExp.replaceFrom r tpl (Some c) more 0
  end.

(** Counting the [#] of a text, and the syntactic conditions under which a
    substitution gives back every [#] that it takes. *)
Definition isHash (c : ascii) : bool := Ascii.eqb c "#".

Definition countHashes (l : list ascii) : nat := length (filter isHash l).

(** No class of the pattern accepts a [#]. *)
Fixpoint hashFree (r : RegExp.regex) : bool :=
  match r with
  | RegExp.Eps | RegExp.Bol | RegExp.Eol => true
  | RegExp.Cls p => negb (p "#"%char)
  | RegExp.Seq r1 r2 | RegExp.Alt r1 r2 => hashFree r1 && hashFree r2
  | RegExp.Star _ r1 | RegExp.Group _ r1 => hashFree r1
  end.

(** Group [i] occurs in the pattern. *)
Fixpoint groupIn (i : nat) (r : RegExp.regex) : bool :=
  match r with
  | RegExp.Eps | RegExp.Bol | RegExp.Eol | RegExp.Cls _ => false
  | RegExp.Seq r1 r2 | RegExp.Alt r1 r2 => groupIn i r1 || groupIn i r2
  | RegExp.Star _ r1 => groupIn i r1
  | RegExp.Group j r1 => (i =? j) || groupIn i r1
  end.

(** The pattern is group [i] between patterns that accept no [#]. *)
Fixpoint aroundGroup (i : nat) (r : RegExp.regex) : bool :=
  match r with
  | RegExp.Group j _ => i =? j
  | RegExp.Seq r1 r2 =>
      (hashFree r1 && aroundGroup i r2)
      || (aroundGroup i r1 && hashFree r2 && negb (groupIn i r2))
  | _ => false
  end.

Definition plainItem (t : RegExp.titem) : bool :=
  match t with
  | RegExp.TLit s => countHashes (list_ascii_of_string s) =? 0
  | RegExp.TGrp _ => false
  end.

(** The template is [$i] between texts without [#]. *)
Fixpoint aroundRef (i : nat) (tpl : list RegExp.titem) : bool :=
  match tpl with
  | [] => false
  | RegExp.TGrp j :: t => (i =? j) && forallb plainItem t
  | RegExp.TLit s :: t => plainItem (RegExp.TLit s) && aroundRef i t
  end.

(** What a successful run of a pattern does between two states. *)
Definition reads (r : RegExp.regex) (s s' : RegExp.mstate) : Prop :=
  exists c,
    RegExp.rest s = c ++ RegExp.rest s' /\
    (hashFree r = true -> countHashes c = 0) /\
    (forall i, groupIn i r = false ->
               RegExp.capture i (RegExp.caps s') = RegExp.capture i (RegExp.caps s)) /\
    (forall i, aroundGroup i r = true ->
               countHashes (RegExp.capture i (RegExp.caps s')) = countHashes c).

(** Every match gives back, through the template, as many [#] as it takes. *)
Definition keepsCount (r : RegExp.regex) (tpl : list RegExp.titem) : Prop :=
  forall p input m,
  RegExp.matchAt r p input = Some m ->
  exists c,
    input = c ++ RegExp.rest m /\
    countHashes (RegExp.expand tpl (RegExp.caps m)) = countHashes c.

(* ================================================================== *)
(** ** Further observations on a run *)

(** Whether the effect is scheduled while the provider's error signal holds
    a non-empty message: the next run of the effects then writes [error]. *)
Definition errorPending (a : AppComponent) : bool :=
  effectPending a && Js.truthy_opt (serviceError a).

(** Whether the request for chapter [k] throws and the scheduled effects do
    not run at the suspension point that follows it, and the same for the
    last of [n] chapters. *)
Definition failureUnseen (w : Run) (k : nat) : bool :=
  match chapterReply w k with
  | Threw => negb (flushAt w (2 * k + 3))
  | Returned _ => false
  end.

Definition lastFailureUnseen (w : Run) (n : nat) : bool := failureUnseen w (n - 1).

(** What [generateTableOfContents] hands back to [generateEbook]: [null]
    without a client or when the remote call throws, the parsed reply
    otherwise. *)
Definition outlineResult (w : Run) (a : AppComponent) : option TocStructure.t :=
  if GeminiService.genAI (geminiService a)
  then match tocReply w with Returned toc => toc | Threw => None end
  else None.

(** The writes of [generationProgress] among the calls into the Content
    Provider and their results, in order. *)
Definition isProgressOrProviderEvent (e : Event) : bool :=
  match e with
  | SetGenerationProgress _ => true
  | _ => isProviderEvent e
  end.
Definition progressAndCalls (l : list Event) : list Event :=
  filter isProgressOrProviderEvent l.

(** What the turns of the loop for the outline entries [chapters], numbered
    from [i], leave among these: the progress for the chapter, then the
    request, then its result. *)
Fixpoint chapterSteps (w : Run) (topic : string) (totalChapters i : nat)
    (chapters : list ChapterSpec.t) : list Event :=
  match chapters with
  | [] => []
  | c :: t =>
      SetGenerationProgress (mkProgress (i + 1) totalChapters (chapterMessage i totalChapters c))
      :: CallChapterContent topic (ChapterSpec.title c) (ChapterSpec.sections c)
      :: ReturnChapterContent (contentOf (chapterReply w i))
      :: chapterSteps w topic totalChapters (S i) t
  end.

(** The topics that the Content Provider was called with, and a text that
    neither starts nor ends with white space. *)
Definition callTopics (l : list Event) : list string :=
  flat_map (fun e => match e with
                     | CallTableOfContents topic | CallChapterContent topic _ _ => [topic]
                     | _ => []
                     end) l.

Definition startsWithSpace (l : list ascii) : bool :=
  match l with
  | c :: _ => Js.isWhiteSpace c
  | [] => false
  end.

Definition isTrimmed (s : string) : bool :=
  negb (startsWithSpace (list_ascii_of_string s))
  && negb (startsWithSpace (rev (list_ascii_of_string s))).

(** Two components with the same service, topic and scheduled effect, and
    two that agree on every signal but [ebook]. *)
Definition sameInputs (a b : AppComponent) : Prop :=
  geminiService a = geminiService b /\
  ebookTopic a = ebookTopic b /\
  effectPending a = effectPending b.

Definition sameSignals (a b : AppComponent) : Prop :=
  sameInputs a b /\
  generationProgress a = generationProgress b /\
  ebookState a = ebookState b /\
  componentError a = componentError b.

(** What [safeTitle] does to one code unit of a title, and the code units
    of its results: digits, small letters and the underscore. *)
Definition sanitizeUnit (c : ascii) : ascii :=
  if isAlnum c then toLowerCaseUnit c else "_"%char.

Definition isFileNameUnit (c : ascii) : bool :=
  let n := nat_of_ascii c in
  ((48 <=? n) && (n <=? 57)) || ((97 <=? n) && (n <=? 122)) || (n =? 95).

(* ================================================================== *)
(** ** Further notions for the matcher and the renderer *)

Section FurtherNotions.
Import RegExp Markdown.

(** The matches of a pattern, without the order in which the matcher tries
    them: [matches r s s'] when [r] can read from state [s] to state [s']. *)
Inductive matches : regex -> mstate -> mstate -> Prop :=
| matches_eps s : matches Eps s s
| matches_cls p c t s :
    rest s = c :: t -> p c = true -> matches (Cls p) s (MState (Some c) t (caps s))
| matches_bol s : atBol s = true -> matches Bol s s
| matches_eol s : atEol s = true -> matches Eol s s
| matches_seq r1 r2 s s1 s2 :
    matches r1 s s1 -> matches r2 s1 s2 -> matches (Seq r1 r2) s s2
| matches_alt_l r1 r2 s s' : matches r1 s s' -> matches (Alt r1 r2) s s'
| matches_alt_r r1 r2 s s' : matches r2 s s' -> matches (Alt r1 r2) s s'
| matches_star_stop g r s : matches (Star g r) s s
| matches_star_more g r s s1 s2 :
    matches r s s1 -> matches (Star g r) s1 s2 -> matches (Star g r) s s2
| matches_group i r s s1 : matches r s s1 -> matches (Group i r) s (closeGroup i s s1).

(** Whether a pattern can match without reading, and the code units that a
    match which reads can start with. *)
Fixpoint nullable (r : regex) : bool :=
  match r with
  | Eps | Bol | Eol => true
  | Cls _ => false
  | Seq r1 r2 => nullable r1 && nullable r2
  | Alt r1 r2 => nullable r1 || nullable r2
  | Star _ _ => true
  | Group _ r1 => nullable r1
  end.

Fixpoint firstOf (r : regex) (c : ascii) : bool :=
  match r with
  | Eps | Bol | Eol => false
  | Cls p => p c
  | Seq r1 r2 => firstOf r1 c || (nullable r1 && firstOf r2 c)
  | Alt r1 r2 => firstOf r1 c || firstOf r2 c
  | Star _ r1 => firstOf r1 c
  | Group _ r1 => firstOf r1 c
  end.

(** Captures and template items all of whose code units satisfy [P]. *)
Definition capsWithin (P : ascii -> bool) (cs : list (nat * list ascii)) : bool :=
  forallb (fun iv => forallb P (snd iv)) cs.

Definition itemWithin (P : ascii -> bool) (t : titem) : bool :=
  match t with
  | TLit s => forallb P (list_ascii_of_string s)
  | TGrp _ => true
  end.

(** A pattern that starts with the literal [m]. *)
Definition startsWithLiteral (r : regex) (m : string) : Prop :=
  forall p l, stripPrefix (list_ascii_of_string m) l = None -> matchAt r p l = None.

Definition notLF (c : ascii) : bool := negb (Ascii.eqb c Js.LF).
Definition notCR (c : ascii) : bool := negb (Ascii.eqb c Js.CR).

(** A one-pass reading of the two line break substitutions, to compare
    them with: scanning from the left, two line feeds become the paragraph
    boundary and a line feed that is left becomes [<br>]. *)
Definition paragraphBreak : list ascii :=
  list_ascii_of_string (closeTag "p" ++ openTag "p" paragraphClass).
Definition lineBreak : list ascii := list_ascii_of_string "<br>".

Fixpoint breaks (l : list ascii) : list ascii :=
  match l with
  | [] => []
  | c :: t =>
      if Ascii.eqb c Js.LF
      then match t with
           | c2 :: t2 =>
               if Ascii.eqb c2 Js.LF
               then paragraphBreak ++ breaks t2
               else lineBreak ++ breaks t
           | [] => lineBreak
           end
      else c :: breaks t
  end.

(** What [/\n/g] does to one code unit. *)
Definition brUnit (c : ascii) : list ascii :=
  if Ascii.eqb Js.LF c then list_ascii_of_string "<br>" else [c].

(** A dash or a star followed by a space somewhere in a text, and a text
    somewhere in another. *)
Definition nextIsSpace (l : list ascii) : bool :=
  match l with
  | c :: _ => Ascii.eqb c " "
  | [] => false
  end.

Fixpoint hasListMarker (l : list ascii) : bool :=
  match l with
  | [] => false
  | d :: t => (dashOrStar d && nextIsSpace t) || hasListMarker t
  end.

Fixpoint occurs (m l : list ascii) : bool :=
  match stripPrefix m l with
  | Some _ => true
  | None =>
      match l with
      | [] => false
      | _ :: t => occurs m t
      end
  end.

(** Prose: a text without [#], [>], [*], backtick and [<], in which no
    dash is followed by a space.  A phrase is prose on one line. *)
Definition isProseUnit (c : ascii) : bool :=
  negb (Ascii.eqb c "#" || Ascii.eqb c ">" || Ascii.eqb c "*"
        || Ascii.eqb c "`" || Ascii.eqb c "<").

Definition isProse (s : string) : bool :=
  forallb isProseUnit (list_ascii_of_string s)
  && negb (hasListMarker (list_ascii_of_string s)).

Definition isPhrase (s : string) : bool := isProse s && isSingleLine s.

(** A reading of the list item substitution on a text without line
    terminators, to compare it with.  [itemAt l] is the item that starts at
    the head of [l]: white space, then a dash or a star, then a space; the
    text of the item is all that follows.  [firstItem] copies the text up to
    the first position where an item starts and wraps the item's text. *)
Definition itemAt (l : list ascii) : option (list ascii) :=
  match Js.trimStart l with
  | d :: sp :: body => if dashOrStar d && Ascii.eqb sp " " then Some body else None
  | _ => None
  end.

Fixpoint firstItem (l : list ascii) : list ascii :=
  match l with
  | [] => []
  | c :: t =>
      match itemAt l with
      | Some body => list_ascii_of_string "<li>" ++ body ++ list_ascii_of_string "</li>"
      | None => c :: firstItem t
      end
  end.

(** A code unit that the substitutions from the bold one to the line
    breaks never start a match with, and a text in which those and the list
    substitutions find no match. *)
Definition inertUnit (c : ascii) : bool :=
  negb (Ascii.eqb c "*" || Ascii.eqb c "`" || Ascii.eqb c Js.LF).

Definition isInert (l : list ascii) : bool :=
  forallb inertUnit l
  && negb (hasListMarker l)
  && negb (occurs (list_ascii_of_string "<li>") l)
  && negb (occurs (list_ascii_of_string "</ul>") l).

(** An opening and a closing tag in which no later substitution finds a
    match, also across their ends. *)
Definition tagPair (A B : string) : Prop :=
  (forall Y, hasListMarker (list_ascii_of_string A ++ Y) = hasListMarker Y) /\
  (forall Y, occurs (list_ascii_of_string "<li>") (list_ascii_of_string A ++ Y)
             = occurs (list_ascii_of_string "<li>") Y) /\
  (forall Y, occurs (list_ascii_of_string "</ul>") (list_ascii_of_string A ++ Y)
             = occurs (list_ascii_of_string "</ul>") Y) /\
  forallb inertUnit (list_ascii_of_string A) = true /\
  isInert (list_ascii_of_string B) = true /\
  nextIsSpace (list_ascii_of_string B) = false.

Definition countStars (l : list ascii) : nat := length (filter (Ascii.eqb "*") l).

End FurtherNotions.

(* ================================================================== *)
(** * Properties *)

(** ** Running the monad *)

Lemma bind_eq {A B} (m : M A) (f : A -> M B) (s : AppComponent) :
  bind m f s =
  (result (f (result (m s)) (final (m s))),
   final (f (result (m s)) (final (m s))),
   events (m s) ++ events (f (result (m s)) (final (m s)))).
Proof.
  unfold bind, result, final, events.
  destruct (m s) as [[a s1] l1]; cbn.
  destruct (f a s1) as [[b s2] l2]; reflexivity.
Qed.

(** Splits a chain of [bind]s into the triples of its steps. *)
Ltac run_binds :=
  cbv beta delta [bind ret];
  repeat (match goal with
          | |- context [match ?x with (_, _) => _ end] =>
              lazymatch x with
              | context [match _ with (_, _) => _ end] => fail
              | _ => destruct x
              end
          | |- context [match usableChapters ?o with Some _ => _ | None => _ end] =>
              destruct (usableChapters o)
          end; cbv beta iota);
  cbn [app]; repeat rewrite <- app_assoc; repeat rewrite app_nil_r.

(** Unfolds the primitive operations, then decides every test they make. *)
Ltac unfold_ops :=
  unfold exportToPdf, outlinePhase, outlineFailure,
    generateChapter, generateTableOfContents, generateChapterContent,
    suspend, flushEffects, serviceErrorEffect,
    error_set, componentError_set, ebookState_set, generationProgress_set,
    generationProgress_update, ebook_set,
    bind, gets, modify, log, ret, result, final, events, serviceError.

Ltac step_cases :=
  repeat (cbn;
          match goal with
          | |- context [if ?b then _ else _] => destruct b
          | |- context [match ?m with Threw => _ | Returned _ => _ end] => destruct m
          | |- context [match ?o with ExportSaved => _ | ExportThrew => _ end] => destruct o
          | |- context [Js.truthy ?s] => destruct s
          | |- context [sameValue ?o _] => destruct o
          end).

(** ** White space and [trim] *)

Lemma trimStart_blank (l : list ascii) :
  forallb Js.isWhiteSpace l = true -> Js.trimStart l = [].
Proof.
  induction l as [|c t IH]; cbn; [reflexivity|].
  intros H. apply andb_true_iff in H as [Hc Ht].
  rewrite Hc. exact (IH Ht).
Qed.

Lemma trimStart_empty (l : list ascii) :
  Js.trimStart l = [] -> forallb Js.isWhiteSpace l = true.
Proof.
  induction l as [|c t IH]; cbn; [reflexivity|].
  destruct (Js.isWhiteSpace c); [exact IH | discriminate].
Qed.

Lemma trim_blank (s : string) :
  isBlank s = true -> Js.trim s = EmptyString.
Proof.
  unfold isBlank, Js.trim, Js.trimEnd. intros H.
  rewrite (trimStart_blank _ H). reflexivity.
Qed.

(** A topic is falsy once trimmed exactly when it is blank. *)
Lemma blank_iff_trim_empty (s : string) :
  isBlank s = true <-> Js.truthy (Js.trim s) = false.
Proof.
  split; [intros H; rewrite (trim_blank _ H); reflexivity|].
  unfold isBlank, Js.trim, Js.trimEnd. intros H.
  set (l := list_ascii_of_string s) in *.
  destruct (rev (Js.trimStart (rev (Js.trimStart l)))) as [|c t] eqn:E; [|discriminate].
  apply (f_equal (@rev ascii)) in E. rewrite rev_involutive in E. cbn in E.
  apply trimStart_empty in E.
  assert (Ht : forallb Js.isWhiteSpace (Js.trimStart l) = true).
  { apply forallb_forall. intros x Hx. rewrite forallb_forall in E.
    apply E, in_rev. rewrite rev_involutive. exact Hx. }
  clear H E. induction l as [|x l IH]; [reflexivity|].
  cbn in *. destruct (Js.isWhiteSpace x) eqn:Hx; [exact (IH Ht)|].
  cbn in Ht. rewrite Hx in Ht. discriminate.
Qed.

(** ** One chapter request, one turn of the loop, the whole loop *)

Lemma generateChapter_run (w : Run) (topic : string) (tot i : nat)
      (c : ChapterSpec.t) (a : AppComponent) :
  GeminiService.genAI (geminiService a) = true ->
  let r := generateChapter w topic tot i c a in
  result r = withContent c (contentOf (chapterReply w i)) /\
  GeminiService.genAI (geminiService (final r)) = true /\
  ebook (final r) = ebook a /\
  ebookTopic (final r) = ebookTopic a /\
  componentError (final r) = componentError a /\
  generationProgress (final r) =
    mkProgress (i + 1) (total (generationProgress a)) (chapterMessage i tot c) /\
  providerCalls (events r) = fetches w topic i [c] /\
  progressWrites (events r) =
    [mkProgress (i + 1) (total (generationProgress a)) (chapterMessage i tot c)] /\
  methodStateWrites (events r) = [] /\
  ebookWrites (events r) = [] /\
  Forall (eq error) (stateWrites (events r)) /\
  (chapterReply w i <> Threw ->
   stateWrites (events r) = [] /\ ebookState (final r) = ebookState a).
Proof.
  destruct a as [[g e] st pr eb tp ce pend]; cbn; intros ->.
  unfold_ops; cbn.
  destruct (chapterReply w i) eqn:Er; cbn;
    destruct (flushAt w (i + (i + 0) + 2)); cbn;
    destruct pend; cbn; destruct e as [m|]; cbn;
    destruct (flushAt w (i + (i + 0) + 3)); cbn;
    repeat split; auto; try congruence.
Qed.

Lemma generateChapters_run (w : Run) (topic : string) (tot : nat) (chs : list ChapterSpec.t) :
  forall (i : nat) (acc : list Chapter.t) (a : AppComponent),
  GeminiService.genAI (geminiService a) = true ->
  let r := generateChapters w topic tot i chs acc a in
  result r = acc ++ assembled w i chs /\
  GeminiService.genAI (geminiService (final r)) = true /\
  ebook (final r) = ebook a /\
  ebookTopic (final r) = ebookTopic a /\
  componentError (final r) = componentError a /\
  total (generationProgress (final r)) = total (generationProgress a) /\
  current (generationProgress (final r)) =
    match chs with [] => current (generationProgress a) | _ :: _ => i + length chs end /\
  providerCalls (events r) = fetches w topic i chs /\
  map current (progressWrites (events r)) = seq (S i) (length chs) /\
  Forall (fun p => total p = total (generationProgress a)) (progressWrites (events r)) /\
  methodStateWrites (events r) = [] /\
  ebookWrites (events r) = [] /\
  Forall (eq error) (stateWrites (events r)) /\
  ((forall j, j < length chs -> chapterReply w (i + j) <> Threw) ->
   stateWrites (events r) = [] /\ ebookState (final r) = ebookState a).
Proof.
  induction chs as [|c t IH]; intros i acc a Hg.
  - cbn. rewrite app_nil_r. repeat split; auto.
  - cbn zeta. cbn [generateChapters]. rewrite bind_eq.
    destruct (generateChapter_run w topic tot i c a Hg)
      as (R1 & G1 & B1 & T1 & C1 & P1 & V1 & W1 & M1 & E1 & F1 & N1).
    set (r1 := generateChapter w topic tot i c a) in *.
    destruct (IH (S i) (acc ++ [result r1]) (final r1) G1)
      as (R2 & G2 & B2 & T2 & C2 & PT2 & PC2 & V2 & W2 & WT2 & M2 & E2 & F2 & N2).
    set (r2 := generateChapters w topic tot (S i) t (acc ++ [result r1]) (final r1)) in *.
    cbn [result final events fst snd].
    assert (Htot : total (generationProgress (final r1)) = total (generationProgress a))
      by (rewrite P1; reflexivity).
    split; [rewrite R2, R1, <- app_assoc; reflexivity|].
    split; [exact G2|].
    split; [congruence|]. split; [congruence|]. split; [congruence|].
    split; [congruence|].
    split; [rewrite PC2; destruct t; [rewrite P1; cbn; lia | cbn; lia]|].
    unfold providerCalls, progressWrites, methodStateWrites, ebookWrites, stateWrites in *.
    rewrite filter_app, !flat_map_app, map_app, V1, V2, W1, W2, M1, M2, E1, E2.
    split; [reflexivity|].
    split; [cbn; f_equal; lia|].
    split; [apply Forall_app; split; [repeat constructor | rewrite <- Htot; exact WT2]|].
    split; [reflexivity|]. split; [reflexivity|].
    split; [apply Forall_app; split; assumption|].
    intros H.
    destruct N1 as [N1 S1]; [rewrite <- (Nat.add_0_r i); apply H; cbn; lia|].
    destruct N2 as [N2 S2];
      [intros j Hj; replace (S i + j) with (i + S j) by lia; apply H; cbn; lia|].
    rewrite N1, N2. split; [reflexivity | congruence].
Qed.

Lemma assembled_forget (w : Run) (chs : list ChapterSpec.t) :
  forall i,
  map (fun ch => ChapterSpec.mk (Chapter.title ch) (Chapter.sections ch)) (assembled w i chs)
  = chs.
Proof.
  induction chs as [|[t s] l IH]; intros i; cbn; [reflexivity|].
  rewrite IH. reflexivity.
Qed.

Lemma assembled_length (w : Run) (chs : list ChapterSpec.t) :
  forall i, length (assembled w i chs) = length chs.
Proof.
  induction chs as [|c l IH]; intros i; cbn; [reflexivity|].
  rewrite IH. reflexivity.
Qed.

Lemma assembled_nth (w : Run) (chs : list ChapterSpec.t) :
  forall i j, j < length chs ->
  exists c, nth_error chs j = Some c /\
            nth_error (assembled w i chs) j =
              Some (withContent c (contentOf (chapterReply w (i + j)))).
Proof.
  induction chs as [|c l IH]; intros i j Hj; cbn in Hj; [lia|].
  destruct j as [|j]; cbn.
  - exists c. rewrite Nat.add_0_r. split; reflexivity.
  - destruct (IH (S i) j) as (c' & H1 & H2); [lia|].
    exists c'. replace (i + S j) with (S i + j) by lia. split; assumption.
Qed.

Lemma fetches_assembled (w : Run) (topic : string) (chs : list ChapterSpec.t) :
  forall i,
  fetches w topic i chs =
  flat_map (fun ch => [CallChapterContent topic (Chapter.title ch) (Chapter.sections ch);
                       ReturnChapterContent (Chapter.content ch)])
           (assembled w i chs).
Proof.
  induction chs as [|c l IH]; intros i; cbn; [reflexivity|].
  rewrite IH. reflexivity.
Qed.

Lemma chapterReturns_fetches (w : Run) (topic : string) (chs : list ChapterSpec.t) :
  forall i,
  chapterReturns (fetches w topic i chs) = map Chapter.content (assembled w i chs).
Proof.
  induction chs as [|c l IH]; intros i; cbn; [reflexivity|].
  unfold chapterReturns in IH. rewrite IH. reflexivity.
Qed.

Lemma chapterReturns_providerCalls (l : list Event) :
  chapterReturns (providerCalls l) = chapterReturns l.
Proof.
  induction l as [|e t IH]; [reflexivity|].
  unfold chapterReturns, providerCalls in *. destruct e; cbn; rewrite ?IH; reflexivity.
Qed.

(** ** The phases of [generateEbook] *)

Lemma generateEbook_phases (w : Run) (a : AppComponent) :
  Js.truthy (Js.trim (ebookTopic a)) = true ->
  generateEbook w a =
  bind (outlinePhase w (Js.trim (ebookTopic a)))
       (fun toc => match usableChapters toc with
                   | None => outlineFailure
                   | Some chs => chapterPhase w (Js.trim (ebookTopic a)) toc chs
                   end) a.
Proof.
  intros Ht.
  unfold generateEbook, outlinePhase, chapterPhase, outlineFailure, outlineReadyProgress.
  unfold bind at 1. cbn [gets]. rewrite Ht. cbn [negb].
  run_binds; reflexivity.
Qed.

Lemma generateEbook_blank (w : Run) (a : AppComponent) :
  Js.truthy (Js.trim (ebookTopic a)) = false ->
  generateEbook w a =
  (tt,
   with_ebookState error
     (with_componentError (Some "Please provide a topic for your ebook.") a),
   [SetComponentError (Some "Please provide a topic for your ebook.");
    SetEbookState error]).
Proof.
  intros Ht. unfold generateEbook. unfold bind at 1. cbn [gets]. rewrite Ht.
  reflexivity.
Qed.

Lemma outlinePhase_frame (w : Run) (topic : string) (a : AppComponent) :
  let r := outlinePhase w topic a in
  ebook (final r) = ebook a /\
  ebookTopic (final r) = ebookTopic a /\
  GeminiService.genAI (geminiService (final r)) = GeminiService.genAI (geminiService a) /\
  ebookWrites (events r) = [] /\
  chapterReturns (events r) = [] /\
  methodStateWrites (events r) = [generating] /\
  progressWrites (events r) = [mkProgress 0 1 "Generating table of contents..."] /\
  providerCalls (events r) =
    [CallTableOfContents topic; ReturnTableOfContents (result r)] /\
  result r = (if GeminiService.genAI (geminiService a)
              then match tocReply w with Returned toc => toc | Threw => None end
              else None).
Proof.
  destruct a as [[[|] e] st pr eb tp ce pend];
    unfold_ops; step_cases; repeat split; reflexivity.
Qed.

Lemma outlinePhase_success (w : Run) (topic : string) (a : AppComponent)
      (toc : option TocStructure.t) :
  GeminiService.genAI (geminiService a) = true ->
  tocReply w = Returned toc ->
  let r := outlinePhase w topic a in
  result r = toc /\
  ebookState (final r) = generating /\
  componentError (final r) = None /\
  generationProgress (final r) = mkProgress 0 1 "Generating table of contents..." /\
  stateWrites (events r) = [generating].
Proof.
  destruct a as [[g e] st pr eb tp ce pend]; cbn; intros -> Hr.
  unfold_ops. rewrite Hr. step_cases; repeat split; reflexivity.
Qed.

Lemma chapterPhase_run (w : Run) (topic : string) (toc : option TocStructure.t)
      (chs : list ChapterSpec.t) (a : AppComponent) :
  GeminiService.genAI (geminiService a) = true ->
  chs <> [] ->
  let r := chapterPhase w topic toc chs a in
  let book := Ebook.mk (tocTitle toc) (assembled w 0 chs) in
  ebookState (final r) = completed /\
  ebook (final r) = Some book /\
  ebookTopic (final r) = ebookTopic a /\
  componentError (final r) = componentError a /\
  current (generationProgress (final r)) = length chs /\
  total (generationProgress (final r)) = length chs /\
  (exists pre, events r = pre ++ [SetEbook book; SetEbookState completed] /\
     providerCalls pre = fetches w topic 0 chs /\
     map current (progressWrites pre) = 0 :: seq 1 (length chs) /\
     Forall (fun p => total p = length chs) (progressWrites pre) /\
     methodStateWrites pre = [] /\
     ebookWrites pre = [] /\
     Forall (eq error) (stateWrites pre) /\
     ((forall j, j < length chs -> chapterReply w j <> Threw) -> stateWrites pre = [])).
Proof.
  intros Hg Hne. cbn zeta.
  unfold chapterPhase. rewrite bind_eq.
  set (r0 := generationProgress_set (outlineReadyProgress (length chs)) a).
  assert (G0 : GeminiService.genAI (geminiService (final r0)) = true)
    by (destruct a as [[g e] st pr eb tp ce pend]; exact Hg).
  rewrite bind_eq.
  destruct (generateChapters_run w topic (length chs) chs 0 [] (final r0) G0)
    as (R & G & B & T & C & PT & PC & V & W & WT & MS & EW & F & N).
  set (r1 := generateChapters w topic (length chs) 0 chs [] (final r0)) in *.
  cbn [result final events fst snd].
  assert (P0 : generationProgress (final r0) = outlineReadyProgress (length chs))
    by (destruct a as [[g e] st pr eb tp ce pend]; reflexivity).
  rewrite P0 in *. cbn in R. rewrite R.
  unfold ebook_set, ebookState_set, bind, modify, log; cbn.
  split; [reflexivity|]. split; [reflexivity|].
  split; [rewrite T; destruct a as [[g e] st pr eb tp ce pend]; reflexivity|].
  split; [rewrite C; destruct a as [[g e] st pr eb tp ce pend]; reflexivity|].
  split; [rewrite PC; destruct chs; [congruence | reflexivity]|].
  split; [rewrite PT; reflexivity|].
  exists (events r0 ++ events r1). split; [rewrite <- app_assoc; reflexivity|].
  unfold providerCalls, progressWrites, methodStateWrites, ebookWrites, stateWrites in *.
  rewrite filter_app, !flat_map_app, map_app, V, W, MS, EW.
  split; [reflexivity|]. split; [reflexivity|].
  split; [apply Forall_app; split; [repeat constructor | exact WT]|].
  split; [reflexivity|]. split; [reflexivity|]. split; [exact F|].
  intros H. apply N. exact H.
Qed.

(** ** After the return: the effect that is still scheduled *)

Lemma flushEffects_state (b : AppComponent) :
  ebookState (final (flushEffects b)) = if errorPending b then error else ebookState b.
Proof.
  destruct b as [[g e] st pr eb tp ce pend]. unfold errorPending.
  unfold_ops. step_cases; reflexivity.
Qed.

Lemma generateChapter_pending (w : Run) (topic : string) (tot i : nat)
      (c : ChapterSpec.t) (a : AppComponent) :
  GeminiService.genAI (geminiService a) = true ->
  errorPending (final (generateChapter w topic tot i c a)) = failureUnseen w i.
Proof.
  destruct a as [[g e] st pr eb tp ce pend]; cbn; intros ->.
  unfold errorPending, failureUnseen. unfold_ops; cbn.
  destruct (chapterReply w i) eqn:Er; cbn;
    destruct (flushAt w (i + (i + 0) + 2)); cbn;
    destruct pend; cbn; destruct e as [m|]; cbn;
    destruct (flushAt w (i + (i + 0) + 3)); cbn; reflexivity.
Qed.

Lemma generateChapters_pending (w : Run) (topic : string) (tot : nat) (chs : list ChapterSpec.t) :
  forall (i : nat) (acc : list Chapter.t) (a : AppComponent),
  GeminiService.genAI (geminiService a) = true ->
  chs <> [] ->
  errorPending (final (generateChapters w topic tot i chs acc a))
  = failureUnseen w (i + length chs - 1).
Proof.
  induction chs as [|c t IH]; intros i acc a Hg Hne; [congruence|].
  cbn [generateChapters]. rewrite bind_eq. cbn [final fst snd].
  destruct (generateChapter_run w topic tot i c a Hg) as (_ & G1 & _).
  destruct t as [|c' t'].
  - cbn [generateChapters ret final fst snd length].
    rewrite (generateChapter_pending w topic tot i c a Hg). f_equal. lia.
  - rewrite IH; [|exact G1 | discriminate]. f_equal. cbn [length]. lia.
Qed.

Lemma chapterPhase_pending (w : Run) (topic : string) (toc : option TocStructure.t)
      (chs : list ChapterSpec.t) (a : AppComponent) :
  GeminiService.genAI (geminiService a) = true ->
  chs <> [] ->
  errorPending (final (chapterPhase w topic toc chs a)) = lastFailureUnseen w (length chs).
Proof.
  intros Hg Hne. unfold chapterPhase. rewrite !bind_eq.
  set (r0 := generationProgress_set (outlineReadyProgress (length chs)) a).
  assert (G0 : GeminiService.genAI (geminiService (final r0)) = true)
    by (destruct a as [[g e] st pr eb tp ce pend]; exact Hg).
  pose proof (@generateChapters_pending w topic (length chs) chs 0 [] (final r0) G0 Hne) as P.
  set (r1 := generateChapters w topic (length chs) 0 chs [] (final r0)) in *.
  cbn [result final events fst snd].
  unfold lastFailureUnseen. cbn [Nat.add] in P. rewrite <- P.
  unfold ebook_set, ebookState_set, bind, modify, log, errorPending, serviceError.
  destruct (final r1) as [[g e] st pr eb tp ce pend]. reflexivity.
Qed.

(** ** Runs whose outline request succeeds with at least one chapter *)

Section SuccessfulOutline.

Variables (w : Run) (a : AppComponent).
Variables (toc : TocStructure.t) (chs : list ChapterSpec.t).

(** The topic is not empty once trimmed. *)
Hypothesis Htopic : Js.truthy (Js.trim (ebookTopic a)) = true.
(** The client exists and the outline request hands back [toc], whose
    chapter list [chs] has at least one entry. *)
Hypothesis Hclient : GeminiService.genAI (geminiService a) = true.
Hypothesis Hreply : tocReply w = Returned (Some toc).
Hypothesis Hchapters : TocStructure.chapters toc = Some chs.
Hypothesis Hsome : 1 <= length chs.

Lemma usable_outline : usableChapters (Some toc) = Some chs.
Proof.
  cbn. rewrite Hchapters. destruct chs; [cbn in Hsome; lia | reflexivity].
Qed.

Lemma generateEbook_success :
  let r := generateEbook w a in
  let topic := Js.trim (ebookTopic a) in
  let book := Ebook.mk (TocStructure.title toc) (assembled w 0 chs) in
  ebookState (final r) = completed /\
  ebook (final r) = Some book /\
  current (generationProgress (final r)) = length chs /\
  total (generationProgress (final r)) = length chs /\
  exists pre errs,
    events r = pre ++ [SetEbook book; SetEbookState completed] /\
    providerCalls pre =
      CallTableOfContents topic :: ReturnTableOfContents (Some toc)
      :: fetches w topic 0 chs /\
    map current (progressWrites pre) = 0 :: seq 0 (S (length chs)) /\
    methodStateWrites pre = [generating] /\
    ebookWrites pre = [] /\
    stateWrites pre = generating :: errs /\
    Forall (eq error) errs /\
    ((forall j, j < length chs -> chapterReply w j <> Threw) -> errs = []).
Proof.
  cbn zeta. rewrite (generateEbook_phases w a Htopic), bind_eq.
  set (topic := Js.trim (ebookTopic a)).
  destruct (outlinePhase_frame w topic a) as (B0 & T0 & G0 & E0 & C0 & M0 & P0 & V0 & R0).
  destruct (outlinePhase_success w topic a Hclient Hreply) as (R0' & S0 & CE0 & PR0 & SW0).
  set (r0 := outlinePhase w topic a) in *.
  rewrite R0', usable_outline.
  assert (Hne : chs <> []) by (intros ->; cbn in Hsome; lia).
  assert (Hg : GeminiService.genAI (geminiService (final r0)) = true) by congruence.
  destruct (@chapterPhase_run w topic (Some toc) chs (final r0) Hg Hne)
    as (S1 & B1 & T1 & C1 & PC1 & PT1 & pre & Ev & V1 & W1 & WT1 & M1 & E1 & F1 & N1).
  set (r1 := chapterPhase w topic (Some toc) chs (final r0)) in *.
  cbn [result final events fst snd].
  split; [exact S1|]. split; [exact B1|]. split; [exact PC1|]. split; [exact PT1|].
  exists (events r0 ++ pre), (stateWrites pre).
  split; [rewrite Ev, app_assoc; reflexivity|].
  unfold providerCalls, progressWrites, methodStateWrites, ebookWrites, stateWrites in *.
  rewrite filter_app, !flat_map_app, map_app, V0, V1, P0, W1, M0, M1, E0, E1, SW0, R0'.
  split; [reflexivity|]. split; [reflexivity|]. split; [reflexivity|].
  split; [reflexivity|]. split; [reflexivity|]. split; [exact F1|exact N1].
Qed.

(** The state once the effects that the run left scheduled have run. *)
Lemma generateEbook_after_return :
  ebookState (final (flushEffects (final (generateEbook w a))))
  = if lastFailureUnseen w (length chs) then error else completed.
Proof.
  rewrite flushEffects_state.
  destruct generateEbook_success as (Hst & _).
  cbn zeta in Hst. rewrite Hst.
  rewrite (generateEbook_phases w a Htopic), bind_eq.
  set (topic := Js.trim (ebookTopic a)).
  destruct (outlinePhase_frame w topic a) as (_ & _ & G0 & _).
  destruct (outlinePhase_success w topic a Hclient Hreply) as (R0 & _).
  set (r0 := outlinePhase w topic a) in *.
  rewrite R0, usable_outline.
  cbn [final fst snd].
  rewrite chapterPhase_pending; [reflexivity | congruence |].
  intros ->. cbn in Hsome. lia.
Qed.

(** C1, as the code has it.  When the request for some chapter fails after
    the outline request succeeded, that chapter's content is the placeholder
    string, the chapters after it are requested all the same (every entry of
    the outline has its chapter, whose content is what its own request handed
    back), and [ebookState] is [completed] when [generateEbook] returns,
    whatever the requests for the chapters do and wherever scheduled effects
    run.  It does not always stay so: when the request for the last chapter
    throws and the effects do not run before the run goes on, the effect is
    still scheduled at the return and the message is still in the error
    signal, and [ebookState] is [error] once the effects have run; in every
    other case it is [completed] then too. *)
Theorem chapter_failure_is_absorbed :
  let r := generateEbook w a in
  ebookState (final r) = completed /\
  (exists generatedChapters,
    ebook (final r) = Some (Ebook.mk (TocStructure.title toc) generatedChapters) /\
    length generatedChapters = length chs /\
    chapterReturns (events r) = map Chapter.content generatedChapters /\
    forall i, i < length chs ->
      exists chapter,
        nth_error generatedChapters i = Some chapter /\
        Chapter.content chapter =
          match chapterReply w i with
          | Threw => "Error generating content for this chapter."
          | Returned text => text
          end) /\
  ebookState (final (flushEffects (final r)))
  = if lastFailureUnseen w (length chs) then error else completed.
Proof.
  destruct generateEbook_success as (Hst & B & _ & _ & pre & errs & Ev & V & _).
  cbn zeta. split; [exact Hst|].
  split; [|exact generateEbook_after_return].
  exists (assembled w 0 chs).
  split; [exact B|]. split; [apply assembled_length|].
  split.
  - rewrite Ev, <- chapterReturns_providerCalls.
    unfold providerCalls. rewrite filter_app. fold (providerCalls pre). rewrite V.
    cbn. rewrite app_nil_r. apply chapterReturns_fetches.
  - intros i Hi. destruct (assembled_nth w chs 0 Hi) as (c & _ & Hn).
    eexists. split; [exact Hn|]. cbn. destruct (chapterReply w i); reflexivity.
Qed.

(** C4.  The ebook written at the end has the outline's title and one
    chapter for each entry of the outline, in the order of the outline, with
    the entry's title and sections; and the provider was called for the
    outline and then once per chapter in that order, each call having
    returned (with the content of that chapter) before the next was made. *)
Theorem ebook_follows_outline :
  let r := generateEbook w a in
  exists generatedChapters,
    ebook (final r) = Some (Ebook.mk (TocStructure.title toc) generatedChapters) /\
    map (fun ch => ChapterSpec.mk (Chapter.title ch) (Chapter.sections ch))
        generatedChapters = chs /\
    providerCalls (events r) =
      CallTableOfContents (Js.trim (ebookTopic a))
      :: ReturnTableOfContents (Some toc)
      :: flat_map (fun ch =>
                     [CallChapterContent (Js.trim (ebookTopic a))
                        (Chapter.title ch) (Chapter.sections ch);
                      ReturnChapterContent (Chapter.content ch)])
                  generatedChapters.
Proof.
  destruct generateEbook_success as (_ & B & _ & _ & pre & errs & Ev & V & _).
  cbn zeta. exists (assembled w 0 chs).
  split; [exact B|]. split; [apply assembled_forget|].
  rewrite Ev. unfold providerCalls. rewrite filter_app. fold (providerCalls pre).
  rewrite V. cbn. rewrite app_nil_r, <- fetches_assembled. reflexivity.
Qed.



End SuccessfulOutline.

Lemma chapter_failure_is_absorbed_witness :
  ebookState (final (generateEbook lazyRun exampleComponent)) = completed /\
  ebookState (final (generateEbook eagerRun exampleComponent)) = completed /\
  ebookState (final (flushEffects (final (generateEbook lazyRun exampleComponent))))
  = completed.
Proof.
  split; [|split].
  - refine (proj1 (@chapter_failure_is_absorbed lazyRun exampleComponent
                     exampleOutline exampleChapters _ _ _ _ _));
      [reflexivity | reflexivity | reflexivity | reflexivity | cbn; lia].
  - refine (proj1 (@chapter_failure_is_absorbed eagerRun exampleComponent
                     exampleOutline exampleChapters _ _ _ _ _));
      [reflexivity | reflexivity | reflexivity | reflexivity | cbn; lia].
  - refine (eq_trans
              (proj2 (proj2 (@chapter_failure_is_absorbed lazyRun exampleComponent
                               exampleOutline exampleChapters _ _ _ _ _))) _);
      [reflexivity | reflexivity | reflexivity | reflexivity | cbn; lia | reflexivity].
Defined.

(** C1, as stated, fails.  In [lateRun] the outline request succeeds, the
    request for the first chapter returns and the request for the second,
    and last, chapter throws: the chapter gets the placeholder and
    [ebookState] is [completed] when [generateEbook] returns, but the effect
    is still scheduled and the message still in the error signal, so that
    [ebookState] is [error] once the effects have run.  One chapter failure
    has made the final state [error]. *)
Lemma chapter_failure_ends_in_error_counterexample :
  tocReply lateRun = Returned (Some exampleOutline) /\
  chapterReply lateRun 0 = Returned "## Section" /\
  chapterReply lateRun 1 = Threw /\
  chapterReturns (events (generateEbook lateRun exampleComponent))
  = ["## Section"; "Error generating content for this chapter."] /\
  ebookState (final (generateEbook lateRun exampleComponent)) = completed /\
  effectPending (final (generateEbook lateRun exampleComponent)) = true /\
  serviceError (final (generateEbook lateRun exampleComponent))
  = Some "Failed to generate content for chapter: Dough." /\
  ebookState (final (flushEffects (final (generateEbook lateRun exampleComponent))))
  = error.
Proof.
  repeat split; vm_compute; reflexivity.
Qed.

Lemma ebook_follows_outline_witness :
  exists generatedChapters,
    ebook (final (generateEbook lazyRun exampleComponent)) =
      Some (Ebook.mk "Bread 101" generatedChapters) /\
    map (fun ch => ChapterSpec.mk (Chapter.title ch) (Chapter.sections ch))
        generatedChapters = exampleChapters.
Proof.
  destruct (@ebook_follows_outline lazyRun exampleComponent
              exampleOutline exampleChapters) as (gen & B & F & _);
    [reflexivity | reflexivity | reflexivity | reflexivity | cbn; lia |].
  exists gen. split; [exact B | exact F].
Defined.



(** ** Validation of the topic *)

(** C3.  For a topic that is empty or holds white space only,
    [generateEbook] writes the validation message to [componentError] and
    [error] to [ebookState], and does nothing else: the log of the run has
    these two writes only, so the Content Provider is not called and the
    progress is not written. *)
Theorem blank_topic_is_rejected (w : Run) (a : AppComponent) :
  isBlank (ebookTopic a) = true ->
  let r := generateEbook w a in
  ebookState (final r) = error /\
  componentError (final r) = Some "Please provide a topic for your ebook." /\
  events r = [SetComponentError (Some "Please provide a topic for your ebook.");
              SetEbookState error] /\
  providerCalls (events r) = [] /\
  progressWrites (events r) = [] /\
  generationProgress (final r) = generationProgress a.
Proof.
  intros Hb. cbn zeta.
  rewrite generateEbook_blank by (rewrite (trim_blank _ Hb); reflexivity).
  repeat split; reflexivity.
Qed.

Lemma blank_topic_is_rejected_witness :
  ebookState
    (final (generateEbook lazyRun
              (with_ebookTopic (String " " (String Js.LF " ")) exampleComponent)))
  = error.
Proof.
  refine (proj1 (@blank_topic_is_rejected lazyRun
                   (with_ebookTopic (String " " (String Js.LF " ")) exampleComponent) _)).
  reflexivity.
Defined.

(** ** Export *)

(** C7.  An export that fails leaves [error] in [ebookState] and the
    export message in [componentError], and does not write [ebook]; an
    export started after it that succeeds reads the same ebook (the file is
    named from its title) and leaves [completed] in [ebookState]. *)
Theorem export_failure_keeps_ebook (a : AppComponent) (x1 x2 : Export) :
  ebookState a = completed ->
  outcome x1 = ExportThrew ->
  outcome x2 = ExportSaved ->
  let r1 := exportToPdf x1 a in
  let r2 := exportToPdf x2 (final r1) in
  ebookState (final r1) = error /\
  componentError (final r1) = Some "An unexpected error occurred during PDF export." /\
  ebook (final r1) = ebook a /\
  ebookWrites (events r1) = [] /\
  ebookState (final r2) = completed /\
  componentError (final r2) = None /\
  ebook (final r2) = ebook a /\
  ebookWrites (events r2) = [] /\
  In (SavePdf (safeTitle (ebook a) ++ ".pdf")%string) (events r2).
Proof.
  destruct a as [[g e] st pr eb tp ce pend], x1 as [o1 t1 f1], x2 as [o2 t2 f2].
  cbn. intros _ -> ->. unfold_ops.
  step_cases; repeat split; auto; cbn; tauto.
Qed.

Lemma export_failure_keeps_ebook_witness :
  let a := final (generateEbook lazyRun exampleComponent) in
  ebookState (final (exportToPdf (mkExport ExportThrew false true) a)) = error /\
  ebook (final (exportToPdf (mkExport ExportThrew false true) a)) = ebook a.
Proof.
  cbn zeta.
  destruct (@export_failure_keeps_ebook
              (final (generateEbook lazyRun exampleComponent))
              (mkExport ExportThrew false true) (mkExport ExportSaved true false))
    as (S1 & _ & B1 & _); [reflexivity | reflexivity | reflexivity |].
  split; [exact S1 | exact B1].
Defined.

(** ** What a chapter request hands back *)

(** C8, as the code has it.  [generateChapterContent] never raises.  It
    hands back the text of the reply as it is when the remote call returns,
    which is a string, or [undefined] when the reply carries no text; the
    fixed placeholder when the remote call throws; and the empty string when
    the client was never built (missing credentials).  So what it hands back
    is [undefined] exactly when there is a client and the remote call returns
    a reply without text.  On the replies whose text is defined it is
    [generateChapterContent] of the embedding: same result, same state, same
    log. *)
Theorem chapter_content_by_outcome (a : AppComponent) (topic chapterTitle : string)
        (sections : list string) (reply : Reply (option string)) (flush : bool) :
  let r := generateChapterContentAtRuntime topic chapterTitle sections reply flush a in
  result r =
    (if GeminiService.genAI (geminiService a)
     then match reply with
          | Returned text => text
          | Threw => Some "Error generating content for this chapter."
          end
     else Some EmptyString) /\
  (result r = None <->
   GeminiService.genAI (geminiService a) = true /\ reply = Returned None) /\
  forall reply' : Reply string,
    reply = definedText reply' ->
    let r' := generateChapterContent topic chapterTitle sections reply' flush a in
    result r = Some (result r') /\ final r = final r' /\ events r = events r'.
Proof.
  destruct a as [[[|] e] st pr eb tp ce pend]; cbn zeta.
  - split; [|split].
    + unfold generateChapterContentAtRuntime. unfold_ops.
      destruct reply as [|[text|]]; step_cases; reflexivity.
    + unfold generateChapterContentAtRuntime. unfold_ops.
      destruct reply as [|[text|]]; step_cases;
        (split; [intros H; try discriminate; split; reflexivity
                | intros [_ H]; try discriminate; reflexivity]).
    + intros reply' ->. unfold generateChapterContentAtRuntime. unfold_ops.
      destruct reply' as [|text]; step_cases; repeat split; reflexivity.
  - split; [|split].
    + reflexivity.
    + cbn. split; [discriminate | intros [H _]; discriminate].
    + intros reply' ->. unfold generateChapterContentAtRuntime. unfold_ops.
      destruct reply' as [|text]; step_cases; repeat split; reflexivity.
Qed.

(** C8, as stated, fails, in two ways.  With missing credentials the
    string handed back is empty, not the placeholder.  With a client, and a
    remote call that returns a reply without text, what is handed back is
    [undefined], not a string. *)
Lemma chapter_content_missing_credentials_counterexample :
  GeminiService.genAI (geminiService (newAppComponent None)) = false /\
  result (generateChapterContent "bread baking" "Intro" ["history"] Threw false
            (newAppComponent None)) = EmptyString /\
  result (generateChapterContent "bread baking" "Intro" ["history"] Threw false
            (newAppComponent None)) <> "Error generating content for this chapter." /\
  GeminiService.genAI (geminiService exampleComponent) = true /\
  result (generateChapterContentAtRuntime "bread baking" "Intro" ["history"]
            (Returned None) false exampleComponent) = None.
Proof.
  split; [reflexivity|]. split; [reflexivity|]. split; [discriminate|].
  split; reflexivity.
Qed.

(** ** When [ebook] is written *)

Lemma splitAtEbook_none (l : list Event) :
  ebookWrites l = [] -> splitAtEbook l = None.
Proof.
  induction l as [|e t IH]; [reflexivity|].
  unfold ebookWrites in *. destruct e; cbn; intros H;
    try (rewrite (IH H); reflexivity); discriminate.
Qed.

Lemma splitAtEbook_first (l post : list Event) (b : Ebook.t) :
  ebookWrites l = [] -> splitAtEbook (l ++ SetEbook b :: post) = Some (l, b, post).
Proof.
  induction l as [|e t IH]; [reflexivity|].
  unfold ebookWrites in *. destruct e; cbn; intros H;
    try (rewrite (IH H); reflexivity); discriminate.
Qed.

Lemma fetches_no_outline (w : Run) (topic : string) (chs : list ChapterSpec.t)
      (toc : option TocStructure.t) :
  forall i, ~ In (ReturnTableOfContents toc) (fetches w topic i chs).
Proof.
  induction chs as [|c l IH]; intros i; cbn; [tauto|].
  intros [H | [H | H]]; [discriminate | discriminate | exact (IH _ H)].
Qed.

Lemma usableChapters_nonempty (toc : option TocStructure.t) (chs : list ChapterSpec.t) :
  usableChapters toc = Some chs -> chs <> [].
Proof.
  destruct toc as [[t [[|c l]|]]|]; cbn; intros H; try discriminate.
  injection H as <-. discriminate.
Qed.

(** C9.  A run writes [ebook] at most once.  When it does, every chapter
    of the ebook written has its content among the results of the chapter
    requests made before the write, in order, no provider call follows the
    write, and the value written is the one [ebook] holds at the end.  When
    it does not, [ebook] holds at the end what it held at the start; this is
    the case of a blank topic and of an outline request that hands back no
    usable outline (no client, a remote call that throws, [null], a missing
    or empty chapter list). *)
Theorem ebook_written_once_after_chapters (w : Run) (a : AppComponent) :
  let r := generateEbook w a in
  length (ebookWrites (events r)) <= 1 /\
  match splitAtEbook (events r) with
  | None => ebook (final r) = ebook a
  | Some (pre, book, post) =>
      ebook (final r) = Some book /\
      ebookWrites post = [] /\
      providerCalls post = [] /\
      chapterReturns pre = map Chapter.content (Ebook.chapters book)
  end /\
  ((isBlank (ebookTopic a) = true \/
    exists toc, In (ReturnTableOfContents toc) (events r) /\ usableChapters toc = None) ->
   ebookWrites (events r) = [] /\ ebook (final r) = ebook a).
Proof.
  cbn zeta. destruct (Js.truthy (Js.trim (ebookTopic a))) eqn:Ht.
  - rewrite (generateEbook_phases w a Ht), bind_eq.
    destruct (outlinePhase_frame w (Js.trim (ebookTopic a)) a)
      as (B0 & T0 & G0 & E0 & C0 & M0 & P0 & V0 & R0).
    set (topic := Js.trim (ebookTopic a)) in *.
    set (r0 := outlinePhase w topic a) in *.
    destruct (usableChapters (result r0)) as [chs|] eqn:Hu.
    + assert (Hg : GeminiService.genAI (geminiService (final r0)) = true).
      { rewrite G0. destruct (GeminiService.genAI (geminiService a)); [reflexivity|].
        rewrite R0 in Hu. discriminate. }
      destruct (@chapterPhase_run w topic (result r0) chs (final r0) Hg
                  (usableChapters_nonempty _ Hu))
        as (S1 & B1 & T1 & C1 & PC1 & PT1 & pre & Ev & V1 & W1 & WT1 & M1 & E1 & F1 & N1).
      set (r1 := chapterPhase w topic (result r0) chs (final r0)) in *.
      cbn [result final events fst snd].
      assert (Epre : ebookWrites (events r0 ++ pre) = [])
        by (unfold ebookWrites in *; rewrite flat_map_app, E0, E1; reflexivity).
      rewrite Ev, app_assoc.
      rewrite (splitAtEbook_first _ _ _ Epre).
      split.
      { unfold ebookWrites in *. rewrite flat_map_app, Epre. cbn. lia. }
      split.
      { split; [exact B1|]. split; [reflexivity|]. split; [reflexivity|].
        unfold chapterReturns in *. rewrite flat_map_app, C0. cbn.
        fold (chapterReturns pre). rewrite <- chapterReturns_providerCalls, V1.
        apply chapterReturns_fetches. }
      intros [Hb | (toc & Hin & Hun)].
      * unfold topic in Ht. rewrite (trim_blank _ Hb) in Ht. discriminate.
      * exfalso.
        assert (Hin' : In (ReturnTableOfContents toc)
                          (providerCalls ((events r0 ++ pre)
                                          ++ [SetEbook (Ebook.mk (tocTitle (result r0))
                                                          (assembled w 0 chs));
                                              SetEbookState completed])))
          by (apply filter_In; split; [exact Hin | reflexivity]).
        unfold providerCalls in Hin'. rewrite !filter_app in Hin'.
        fold (providerCalls (events r0)) in Hin'. fold (providerCalls pre) in Hin'.
        rewrite V0, V1 in Hin'. cbn [filter isProviderEvent app In] in Hin'.
        rewrite app_nil_r in Hin'.
        destruct Hin' as [H | [H | H]]; [discriminate | | exact (fetches_no_outline _ _ _ _ _ H)].
        injection H as H. rewrite <- H in Hun. congruence.
    + unfold outlineFailure, ebookState_set, generationProgress_set, bind, modify, log;
        cbn [result final events fst snd app with_ebookState with_generationProgress ebook].
      assert (Eall : ebookWrites
                       (events r0 ++
                        [SetEbookState error;
                         SetGenerationProgress
                           (mkProgress 0 0 "Could not generate a valid table of contents.")])
                     = [])
        by (unfold ebookWrites in *; rewrite flat_map_app, E0; reflexivity).
      rewrite (splitAtEbook_none _ Eall), Eall.
      split; [cbn; lia|]. split; [exact B0|]. intros _. split; [reflexivity | exact B0].
  - rewrite (generateEbook_blank w a Ht). cbn.
    split; [lia|]. split; [reflexivity|]. intros _. split; reflexivity.
Qed.

Lemma ebook_written_once_after_chapters_witness :
  let a := with_ebookTopic " " (final (generateEbook lazyRun exampleComponent)) in
  ebook (final (generateEbook eagerRun a)) = ebook a.
Proof.
  cbn zeta.
  refine (proj2 (proj2 (proj2 (@ebook_written_once_after_chapters eagerRun
            (with_ebookTopic " " (final (generateEbook lazyRun exampleComponent))))) _)).
  left. reflexivity.
Defined.

(** ** The effect on the provider's error signal *)

(** C2, as the code has it.  A provider request whose remote call throws
    while [ebookState] is [generating] leaves a non-empty message in the
    error signal, [ebookState] still [generating] and the effect scheduled.
    Whatever [ebookState] is, scheduled effects that run while the signal
    holds a non-empty message set it to [error], and scheduled effects that
    run while the signal holds [null] leave it as it is.  The request that
    follows a failed one resets the signal before it is suspended: if the
    effects have not run by then, they leave [ebookState] as it is. *)
Theorem provider_failure_schedules_error (a : AppComponent) (topic chapterTitle : string)
        (sections : list string) (flush : bool) :
  ebookState a = generating ->
  GeminiService.genAI (geminiService a) = true ->
  let failedChapter :=
    final (generateChapterContent topic chapterTitle sections Threw flush a) in
  let failedOutline := final (generateTableOfContents topic Threw flush a) in
  (Js.truthy_opt (serviceError failedChapter) = true /\
   ebookState failedChapter = generating /\
   effectPending failedChapter = true /\
   ebookState (final (flushEffects failedChapter)) = error) /\
  (Js.truthy_opt (serviceError failedOutline) = true /\
   ebookState failedOutline = generating /\
   effectPending failedOutline = true /\
   ebookState (final (flushEffects failedOutline)) = error) /\
  (forall b : AppComponent,
     effectPending b = true ->
     ebookState (final (flushEffects b))
     = if Js.truthy_opt (serviceError b) then error else ebookState b) /\
  (forall (text : string) (flush' : bool),
     let next :=
       final (generateChapterContent topic chapterTitle sections (Returned text) flush'
                failedChapter) in
     serviceError next = None /\
     ebookState next = generating /\
     ebookState (final (flushEffects next)) = generating).
Proof.
  destruct a as [[g e] st pr eb tp ce pend]; cbn. intros -> ->.
  unfold_ops. cbn.
  split; [|split; [|split]]; [| | intros b Hb | intros text flush'].
  - destruct flush, pend, e; cbn; repeat split; reflexivity.
  - destruct flush, pend, e; cbn; repeat split; reflexivity.
  - destruct b as [[g' e'] st' pr' eb' tp' ce' pend']. cbn in Hb. subst pend'.
    cbn. destruct e' as [[|c m]|]; reflexivity.
  - destruct flush, pend, e, flush'; cbn; repeat split; reflexivity.
Qed.

Lemma provider_failure_schedules_error_witness :
  let a := with_ebookState generating exampleComponent in
  ebookState
    (final (flushEffects
              (final (generateChapterContent "bread baking" "Intro" ["history"]
                        Threw false a)))) = error.
Proof.
  cbn zeta.
  destruct (@provider_failure_schedules_error (with_ebookState generating exampleComponent)
              "bread baking" "Intro" ["history"] false) as ((_ & _ & _ & H) & _);
    [reflexivity | reflexivity | exact H].
Defined.

(** C2, as stated, fails.  In [lazyRun] the request for the first chapter
    throws while [ebookState] is [generating] and the message is written to
    the error signal, yet [ebookState] is never [error]: not during the run,
    and not when the scheduled effects run after it.  In [eagerRun], where
    the effects run at every suspension point, [error] is written, but the
    run goes on: the second chapter is requested and [completed] replaces
    [error]. *)
Lemma provider_failure_not_terminal_counterexample :
  ebookState exampleComponent = idle /\
  In (SetServiceError (Some "Failed to generate content for chapter: Intro."))
     (events (generateEbook lazyRun exampleComponent)) /\
  failuresForceError idle (events (generateEbook lazyRun exampleComponent)) = false /\
  stateWrites (events (generateEbook lazyRun exampleComponent)) = [generating; completed] /\
  ebookState (final (flushEffects (final (generateEbook lazyRun exampleComponent))))
  = completed /\
  stateWrites (events (generateEbook eagerRun exampleComponent))
  = [generating; error; completed] /\
  chapterReturns (events (generateEbook eagerRun exampleComponent))
  = ["Error generating content for this chapter."; "## Section"] /\
  ebookState (final (generateEbook eagerRun exampleComponent)) = completed.
Proof.
  split; [reflexivity|].
  split; [vm_compute; tauto|].
  repeat split; vm_compute; reflexivity.
Qed.

(** A scheduled effect can outlive the run.  In [lateRun] the request for
    the last chapter throws and no effect runs during the run:
    [ebookState] is [completed] when [generateEbook] returns, the message is
    still in the error signal and the effect is still scheduled, so that
    [ebookState] becomes [error] when the effects run afterwards. *)
Lemma effect_after_failed_last_chapter :
  ebookState (final (generateEbook lateRun exampleComponent)) = completed /\
  effectPending (final (generateEbook lateRun exampleComponent)) = true /\
  ebookState (final (flushEffects (final (generateEbook lateRun exampleComponent))))
  = error.
Proof.
  repeat split; vm_compute; reflexivity.
Qed.

(* ================================================================== *)
(** ** The renderer *)

Section Renderer.
Import RegExp Markdown.

(** *** Strings and lists of code units *)

Lemma list_of_append (s t : string) :
  list_ascii_of_string (s ++ t)%string = list_ascii_of_string s ++ list_ascii_of_string t.
Proof. induction s as [|c s IH]; cbn; [reflexivity | rewrite IH; reflexivity]. Qed.

Lemma string_of_app (l m : list ascii) :
  string_of_list_ascii (l ++ m) = (string_of_list_ascii l ++ string_of_list_ascii m)%string.
Proof. induction l as [|c l IH]; cbn; [reflexivity | rewrite IH; reflexivity]. Qed.

Lemma append_assoc (s t u : string) : ((s ++ t) ++ u = s ++ t ++ u)%string.
Proof. induction s as [|c s IH]; cbn; [reflexivity | rewrite IH; reflexivity]. Qed.

Lemma list_of_hashes (k : nat) : list_ascii_of_string (hashes k) = repeat "#"%char k.
Proof. induction k as [|k IH]; cbn; [reflexivity | rewrite IH; reflexivity]. Qed.

Lemma skipsHash_quote : skipsHash re_quote.
Proof. intros p t. unfold matchAt. cbn. destruct (atBol _); reflexivity. Qed.
Lemma skipsHash_bold : skipsHash re_bold.
Proof. intros p t. reflexivity. Qed.
Lemma skipsHash_em : skipsHash re_em.
Proof. intros p t. reflexivity. Qed.
Lemma skipsHash_code : skipsHash re_code.
Proof. intros p t. reflexivity. Qed.
Lemma skipsHash_para : skipsHash re_para.
Proof. intros p t. reflexivity. Qed.
Lemma skipsHash_br : skipsHash re_br.
Proof. intros p t. reflexivity. Qed.
Lemma skipsHash_li : skipsHash re_li.
Proof. intros p t. reflexivity. Qed.
Lemma skipsHash_ul : skipsHash re_ul.
Proof. intros p t. reflexivity. Qed.
Lemma skipsHash_merge : skipsHash re_merge.
Proof. intros p t. reflexivity. Qed.

Lemma replaceFrom_hash (r : regex) (tpl : list titem) :
  skipsHash r ->
  forall k p t,
  exists p', replaceFrom r tpl p (repeat "#"%char k ++ t) 0
           = repeat "#"%char k ++ replaceFrom r tpl p' t 0.
Proof.
  intros Hr. induction k as [|k IH]; intros p t.
  - exists p. reflexivity.
  - cbn [repeat app replaceFrom]. rewrite Hr.
    destruct (IH (Some "#"%char) t) as (p' & E). exists p'. rewrite E. reflexivity.
Qed.

(** Away from a line start, the anchored patterns do not match. *)
Lemma lineAfter_mid (m : string) (c : ascii) (input : list ascii) :
  Js.isLineTerminator c = false ->
  matchAt (lineAfter m) (Some c) input = None.
Proof.
  intros Hc. unfold matchAt, lineAfter, Cat. cbn [fold_right run].
  unfold atBol. cbn [prev]. rewrite Hc. reflexivity.
Qed.

Lemma replaceFrom_mid (m : string) (tpl : list titem) :
  forall (input : list ascii) (c : ascii),
  Js.isLineTerminator c = false ->
  forallb notLT input = true ->
  replaceFrom (lineAfter m) tpl (Some c) input 0 = input.
Proof.
  induction input as [|x t IH]; intros c Hc Hl; cbn [replaceFrom].
  - rewrite (@lineAfter_mid m c [] Hc). reflexivity.
  - rewrite (@lineAfter_mid m c (x :: t) Hc).
    cbn in Hl. apply andb_true_iff in Hl as [Hx Ht].
    rewrite IH; [reflexivity | | exact Ht].
    unfold notLT in Hx. apply negb_true_iff in Hx. exact Hx.
Qed.

(** A single line on which the pattern does not match at the start is left
    as it is. *)
Lemma replace_unmatched_line (m : string) (tpl : list titem) (s : string) :
  isSingleLine s = true ->
  matchAt (lineAfter m) None (list_ascii_of_string s) = None ->
  replace (lineAfter m) tpl s = s.
Proof.
  unfold replace, isSingleLine. intros Hl Hm.
  destruct (list_ascii_of_string s) as [|x t] eqn:E.
  - cbn [replaceFrom]. rewrite Hm. rewrite <- E. apply string_of_list_ascii_of_string.
  - cbn [replaceFrom]. rewrite Hm.
    cbn in Hl. apply andb_true_iff in Hl as [Hx Ht].
    rewrite replaceFrom_mid; [rewrite <- E; apply string_of_list_ascii_of_string | | exact Ht].
    apply negb_true_iff in Hx. exact Hx.
Qed.

Lemma hashes_not_heading (k : nat) (rest : string) :
  1 <= k ->
  startsWithSpaceOrHash rest = false ->
  matchAt re_h3 None (list_ascii_of_string (hashes k ++ rest)) = None /\
  matchAt re_h2 None (list_ascii_of_string (hashes k ++ rest)) = None /\
  matchAt re_h1 None (list_ascii_of_string (hashes k ++ rest)) = None /\
  matchAt re_quote None (list_ascii_of_string (hashes k ++ rest)) = None.
Proof.
  intros Hk Hr.
  assert (Hc : forall c t, rest = String c t ->
               Ascii.eqb "#" c = false /\ Ascii.eqb " " c = false).
  { intros c t ->. cbn in Hr. apply orb_false_iff in Hr as [H1 H2].
    rewrite Ascii.eqb_sym, H2, Ascii.eqb_sym, H1. split; reflexivity. }
  destruct k as [|[|[|[|k]]]]; [lia | | | |];
    (destruct rest as [|c t];
     [ repeat split; reflexivity
     | destruct (Hc c t eq_refl) as [H1 H2];
       unfold matchAt, re_h3, re_h2, re_h1, re_quote, lineAfter, Cat;
       cbn -[Ascii.eqb]; rewrite ?H1, ?H2; cbn -[Ascii.eqb]; rewrite ?H1, ?H2;
       repeat split; reflexivity ]).
Qed.

Lemma lastOr_off (l : list ascii) :
  forall p, forallb notLT l = true -> offLineStart p -> offLineStart (lastOr p l).
Proof.
  induction l as [|c t IH]; intros p Hl Hp; [exact Hp|].
  cbn in Hl. apply andb_true_iff in Hl as [Hc Ht].
  cbn. apply IH; [exact Ht|]. exists c. split; [reflexivity|].
  apply negb_true_iff in Hc. exact Hc.
Qed.

Lemma star_dot_line (body : list ascii) :
  forall fuel k p cs x,
  forallb notLT body = true ->
  length body < fuel ->
  k (MState (lastOr p body) [] cs) = Some x ->
  star (run Dot) true fuel k (MState p body cs) = Some x.
Proof.
  induction body as [|c t IH]; intros fuel k p cs x Hl Hf Hk.
  - destruct fuel as [|f]; [cbn in Hf; lia|]. cbn. exact Hk.
  - destruct fuel as [|f]; [cbn in Hf; lia|].
    cbn in Hl. apply andb_true_iff in Hl as [Hc Ht]. unfold notLT in Hc.
    cbn [star run Dot rest caps]. rewrite Hc.
    cbn [rest]. replace (length t <? length (c :: t)) with true
      by (symmetry; apply Nat.ltb_lt; cbn; lia).
    assert (E : star (run Dot) true f k (MState (Some c) t cs) = Some x)
      by (apply IH; [exact Ht | cbn in Hf; lia | exact Hk]).
    match goal with
    | |- match ?s with Some _ => _ | None => _ end = _ =>
        replace s with (Some x) by (symmetry; exact E)
    end.
    reflexivity.
Qed.

Lemma skip_all (r : regex) (tpl : list titem) (l : list ascii) :
  forall p, replaceFrom r tpl p l (length l) = replaceFrom r tpl (lastOr p l) [] 0.
Proof.
  induction l as [|c t IH]; intros p; [reflexivity|].
  cbn [length replaceFrom]. rewrite IH. reflexivity.
Qed.

Lemma lineAfter_end (m : string) (tpl : list titem) (p : option ascii) :
  offLineStart p -> replaceFrom (lineAfter m) tpl p [] 0 = [].
Proof.
  intros (c & -> & Hc). cbn [replaceFrom]. rewrite (@lineAfter_mid m c [] Hc). reflexivity.
Qed.

(** The group of [lineAfter] takes the whole of a single line. *)
Lemma rest_of_line (body : list ascii) (p : option ascii) (cs : list (nat * list ascii)) :
  forallb notLT body = true ->
  run (Group 1 (Cat [Star true Dot; Eol])) (fun s => Some s) (MState p body cs)
  = Some (MState (lastOr p body) [] ((1, body) :: cs)).
Proof.
  intros Hl. cbn [run Cat fold_right rest].
  apply star_dot_line; [exact Hl | lia |].
  cbn. unfold closeGroup, consumed. cbn. rewrite Nat.sub_0_r, firstn_all. reflexivity.
Qed.

Lemma run_Lit (m : string) :
  forall k p t cs,
  run (Lit m) k (MState p (list_ascii_of_string m ++ t) cs)
  = k (MState (lastOr p (list_ascii_of_string m)) t cs).
Proof.
  induction m as [|c m' IH]; intros k p t cs; [reflexivity|].
  destruct m' as [|d u].
  - cbn. rewrite Ascii.eqb_refl. reflexivity.
  - change (Lit (String c (String d u))) with (Seq (Chr c) (Lit (String d u))).
    cbn [run Chr list_ascii_of_string app rest caps].
    rewrite Ascii.eqb_refl.
    change (d :: list_ascii_of_string u ++ t)
      with (list_ascii_of_string (String d u) ++ t).
    rewrite IH. reflexivity.
Qed.

Lemma lineAfter_start (m : string) (body : list ascii) :
  forallb notLT body = true ->
  matchAt (lineAfter m) None (list_ascii_of_string m ++ body)
  = Some (MState (lastOr (lastOr None (list_ascii_of_string m)) body) [] [(1, body)]).
Proof.
  intros Hl. unfold matchAt, lineAfter.
  change (Cat [Bol; Lit m; Group 1 (Cat [Star true Dot; Eol])])
    with (Seq Bol (Seq (Lit m) (Seq (Group 1 (Cat [Star true Dot; Eol])) Eps))).
  cbn [run atBol prev]. rewrite run_Lit.
  change (run (Seq (Group 1 (Cat [Star true Dot; Eol])) Eps) (fun s => Some s))
    with (run (Group 1 (Cat [Star true Dot; Eol])) (fun s : mstate => Some s)).
  apply rest_of_line. exact Hl.
Qed.

(** A single line that starts with the marker is replaced whole by the
    template, with the rest of the line for [$1]. *)
Lemma replace_marked_line (m : string) (tpl : list titem) (body : string) :
  m <> EmptyString ->
  isSingleLine m = true ->
  isSingleLine body = true ->
  replace (lineAfter m) tpl (m ++ body)
  = string_of_list_ascii (expand tpl [(1, list_ascii_of_string body)]).
Proof.
  unfold replace, isSingleLine. intros Hm Hlm Hlb.
  rewrite list_of_append.
  destruct (list_ascii_of_string m) as [|c t] eqn:E.
  - destruct m; [congruence | discriminate].
  - cbn [app replaceFrom].
    change (c :: t ++ list_ascii_of_string body)
      with ((c :: t) ++ list_ascii_of_string body).
    rewrite <- E, (@lineAfter_start m _ Hlb). cbn [caps rest length Nat.sub].
    rewrite E. cbn [app length].
    rewrite Nat.sub_0_r. cbv beta iota.
    rewrite skip_all, lineAfter_end, app_nil_r; [reflexivity|].
    apply lastOr_off.
    + rewrite forallb_app. cbn in Hlm. apply andb_true_iff in Hlm as [_ Ht].
      fold notLT in Ht. rewrite Ht. exact Hlb.
    + exists c. split; [reflexivity|]. cbn in Hlm. apply andb_true_iff in Hlm as [Hc _].
      apply negb_true_iff in Hc. exact Hc.
Qed.

Lemma isSingleLine_append (s t : string) :
  isSingleLine (s ++ t) = isSingleLine s && isSingleLine t.
Proof. unfold isSingleLine. rewrite list_of_append, forallb_app. reflexivity. Qed.

Lemma isSingleLine_hashes (k : nat) : isSingleLine (hashes k) = true.
Proof. induction k as [|k IH]; [reflexivity | exact IH]. Qed.

Lemma expand_wrapGroup (tag cls : string) (body : string) :
  string_of_list_ascii (expand (wrapGroup tag cls 1) [(1, list_ascii_of_string body)])
  = (openTag tag cls ++ body ++ closeTag tag)%string.
Proof.
  unfold wrapGroup. cbn [expand capture Nat.eqb].
  rewrite app_nil_r, !string_of_app, !string_of_list_ascii_of_string. reflexivity.
Qed.

Lemma headings_h1 (body : string) :
  isSingleLine body = true ->
  headings ("# " ++ body)
  = (openTag "h1" h1Class ++ body ++ closeTag "h1")%string.
Proof.
  intros Hb. unfold headings, re_h3, re_h2, re_h1, tpl_h1.
  rewrite (@replace_unmatched_line "### "); [| rewrite isSingleLine_append, Hb; reflexivity | reflexivity].
  rewrite (@replace_unmatched_line "## "); [| rewrite isSingleLine_append, Hb; reflexivity | reflexivity].
  rewrite replace_marked_line; [| discriminate | reflexivity | exact Hb].
  apply expand_wrapGroup.
Qed.

Lemma headings_h2 (body : string) :
  isSingleLine body = true ->
  headings ("## " ++ body)
  = (openTag "h2" h2Class ++ body ++ closeTag "h2")%string.
Proof.
  intros Hb. unfold headings, re_h3, re_h2, re_h1, tpl_h2.
  rewrite (@replace_unmatched_line "### "); [| rewrite isSingleLine_append, Hb; reflexivity | reflexivity].
  rewrite replace_marked_line; [| discriminate | reflexivity | exact Hb].
  rewrite expand_wrapGroup.
  rewrite (@replace_unmatched_line "# "); [reflexivity | | reflexivity].
  rewrite !isSingleLine_append, Hb. reflexivity.
Qed.

Lemma headings_h3 (body : string) :
  isSingleLine body = true ->
  headings ("### " ++ body)
  = (openTag "h3" h3Class ++ body ++ closeTag "h3")%string.
Proof.
  intros Hb. unfold headings, re_h3, re_h2, re_h1, tpl_h3.
  rewrite replace_marked_line; [| discriminate | reflexivity | exact Hb].
  rewrite expand_wrapGroup.
  rewrite (@replace_unmatched_line "## "); [| rewrite !isSingleLine_append, Hb; reflexivity | reflexivity].
  rewrite (@replace_unmatched_line "# "); [reflexivity | | reflexivity].
  rewrite !isSingleLine_append, Hb. reflexivity.
Qed.

Lemma replace_keeps_hashes (r : regex) (tpl : list titem) :
  skipsHash r ->
  forall k s, exists s', replace r tpl (hashes k ++ s) = (hashes k ++ s')%string.
Proof.
  intros Hr k s. unfold replace. rewrite list_of_append, list_of_hashes.
  destruct (@replaceFrom_hash r tpl Hr k None (list_ascii_of_string s)) as (p' & E).
  rewrite E, string_of_app, <- list_of_hashes, string_of_list_ascii_of_string.
  eexists. reflexivity.
Qed.

Lemma hashes_unchanged_by_headings (k : nat) (rest : string) :
  1 <= k ->
  isSingleLine rest = true ->
  startsWithSpaceOrHash rest = false ->
  headings (hashes k ++ rest) = (hashes k ++ rest)%string.
Proof.
  intros Hk Hl Hr.
  destruct (@hashes_not_heading k rest Hk Hr) as (H3 & H2 & H1 & _).
  assert (Hline : isSingleLine (hashes k ++ rest) = true)
    by (rewrite isSingleLine_append, isSingleLine_hashes, Hl; reflexivity).
  unfold headings, re_h3, re_h2, re_h1 in *.
  rewrite (@replace_unmatched_line "### " tpl_h3 _ Hline H3).
  rewrite (@replace_unmatched_line "## " tpl_h2 _ Hline H2).
  rewrite (@replace_unmatched_line "# " tpl_h1 _ Hline H1).
  reflexivity.
Qed.

Lemma hashes_survive (k : nat) (rest : string) :
  1 <= k ->
  isSingleLine rest = true ->
  startsWithSpaceOrHash rest = false ->
  exists tail,
    parseMarkdown (hashes k ++ rest)
    = (openTag "p" paragraphClass ++ hashes k ++ tail ++ closeTag "p")%string.
Proof.
  intros Hk Hl Hr. unfold parseMarkdown.
  replace (Js.truthy (hashes k ++ rest)) with true
    by (destruct k; [lia | reflexivity]).
  cbn [negb]. rewrite (@hashes_unchanged_by_headings k rest Hk Hl Hr).
  unfold inlines, lists.
  destruct (@replace_keeps_hashes _ tpl_quote skipsHash_quote k rest) as (s1 & ->).
  destruct (@replace_keeps_hashes _ tpl_bold skipsHash_bold k s1) as (s2 & ->).
  destruct (@replace_keeps_hashes _ tpl_em skipsHash_em k s2) as (s3 & ->).
  destruct (@replace_keeps_hashes _ tpl_code skipsHash_code k s3) as (s4 & ->).
  destruct (@replace_keeps_hashes _ tpl_para skipsHash_para k s4) as (s5 & ->).
  destruct (@replace_keeps_hashes _ tpl_br skipsHash_br k s5) as (s6 & ->).
  destruct (@replace_keeps_hashes _ tpl_li skipsHash_li k s6) as (s7 & ->).
  destruct (@replace_keeps_hashes _ tpl_ul skipsHash_ul k s7) as (s8 & ->).
  destruct (@replace_keeps_hashes _ tpl_merge skipsHash_merge k s8) as (s9 & ->).
  exists s9. rewrite (append_assoc (hashes k)). reflexivity.
Qed.

(** *** The heading substitutions, line by line *)

Lemma stripPrefix_app (m l : list ascii) :
  forall body, stripPrefix m l = Some body -> l = m ++ body.
Proof.
  revert l. induction m as [|c m IH]; intros l body H; cbn in H.
  - injection H as ->. reflexivity.
  - destruct l as [|x l]; [discriminate|].
    destruct (Ascii.eqb c x) eqn:E; [|discriminate].
    apply Ascii.eqb_eq in E as ->. cbn. f_equal. exact (IH _ _ H).
Qed.

Lemma stripPrefix_tail (m l tail : list ascii) :
  forallb notLT m = true -> startsLine tail = true ->
  stripPrefix m l = None -> stripPrefix m (l ++ tail) = None.
Proof.
  intros Hm Ht. revert l. induction m as [|c m IH]; intros l H; cbn in H; [discriminate|].
  cbn in Hm. apply andb_true_iff in Hm as [Hc Hm].
  destruct l as [|x l]; cbn.
  - destruct tail as [|y tail]; [reflexivity|]. cbn in Ht.
    destruct (Ascii.eqb c y) eqn:E; [|reflexivity].
    apply Ascii.eqb_eq in E as ->. unfold notLT in Hc. rewrite Ht in Hc. discriminate.
  - destruct (Ascii.eqb c x); [exact (IH Hm _ H) | reflexivity].
Qed.

Lemma run_Lit_fail (m : string) :
  forall k p l cs,
  stripPrefix (list_ascii_of_string m) l = None ->
  run (Lit m) k (MState p l cs) = None.
Proof.
  induction m as [|c m' IH]; intros k p l cs H; [discriminate|].
  cbn in H. destruct m' as [|d u].
  - cbn. destruct l as [|x l]; [reflexivity|].
    destruct (Ascii.eqb c x); [discriminate | reflexivity].
  - change (Lit (String c (String d u))) with (Seq (Chr c) (Lit (String d u))).
    cbn [run Chr rest caps]. destruct l as [|x l]; [reflexivity|].
    destruct (Ascii.eqb c x); [|reflexivity].
    apply IH. exact H.
Qed.

(** The greedy dot-star reads to the end of the line. *)
Lemma star_dot_to_eol (body tail : list ascii) :
  forall fuel k p cs x,
  forallb notLT body = true ->
  startsLine tail = true ->
  length (body ++ tail) < fuel ->
  k (MState (lastOr p body) tail cs) = Some x ->
  star (run Dot) true fuel k (MState p (body ++ tail) cs) = Some x.
Proof.
  induction body as [|c t IH]; intros fuel k p cs x Hl Ht Hf Hk.
  - destruct fuel as [|f]; [cbn in Hf; lia|].
    cbn [app star run Dot rest caps]. destruct tail as [|y tail]; [exact Hk|].
    cbn in Ht. rewrite Ht. cbn. exact Hk.
  - destruct fuel as [|f]; [cbn in Hf; lia|].
    cbn in Hl. apply andb_true_iff in Hl as [Hc Hl]. unfold notLT in Hc.
    assert (E : star (run Dot) true f k (MState (Some c) (t ++ tail) cs) = Some x)
      by (apply IH; [exact Hl | exact Ht | cbn in Hf; lia | exact Hk]).
    cbn [app star run Dot rest caps]. rewrite Hc.
    cbn [rest]. replace (length (t ++ tail) <? length (c :: t ++ tail)) with true
      by (symmetry; apply Nat.ltb_lt; cbn; lia).
    match goal with
    | |- match ?s with Some _ => _ | None => _ end = _ =>
        replace s with (Some x) by (symmetry; exact E)
    end.
    reflexivity.
Qed.

Lemma firstn_app_exact (A : Type) (l m : list A) :
  firstn (length (l ++ m) - length m) (l ++ m) = l.
Proof.
  rewrite length_app, Nat.add_sub. rewrite firstn_app, Nat.sub_diag, firstn_all.
  cbn. apply app_nil_r.
Qed.

Lemma lineAfter_matches (m : string) (body tail : list ascii) (p : option ascii) :
  atLineStart p = true ->
  forallb notLT body = true ->
  startsLine tail = true ->
  matchAt (lineAfter m) p (list_ascii_of_string m ++ body ++ tail)
  = Some (MState (lastOr (lastOr p (list_ascii_of_string m)) body) tail [(1, body)]).
Proof.
  intros Hp Hl Ht. unfold matchAt, lineAfter.
  change (Cat [Bol; Lit m; Group 1 (Cat [Star true Dot; Eol])])
    with (Seq Bol (Seq (Lit m) (Seq (Group 1 (Cat [Star true Dot; Eol])) Eps))).
  cbn [run]. unfold atBol. cbn [prev]. fold (atLineStart p). rewrite Hp.
  rewrite run_Lit.
  cbn [run Cat fold_right rest].
  apply star_dot_to_eol; [exact Hl | exact Ht | lia |].
  unfold atEol. cbn [rest]. fold (startsLine tail). rewrite Ht.
  unfold closeGroup, consumed. cbn [rest prev caps].
  rewrite firstn_app_exact. reflexivity.
Qed.

Lemma lineAfter_fails (m : string) (l : list ascii) (p : option ascii) :
  stripPrefix (list_ascii_of_string m) l = None ->
  matchAt (lineAfter m) p l = None.
Proof.
  intros H. unfold matchAt, lineAfter.
  change (Cat [Bol; Lit m; Group 1 (Cat [Star true Dot; Eol])])
    with (Seq Bol (Seq (Lit m) (Seq (Group 1 (Cat [Star true Dot; Eol])) Eps))).
  cbn [run]. destruct (atBol _); [|reflexivity].
  apply run_Lit_fail. exact H.
Qed.

Lemma skip_over (r : regex) (tpl : list titem) (l tail : list ascii) :
  forall p, replaceFrom r tpl p (l ++ tail) (length l) = replaceFrom r tpl (lastOr p l) tail 0.
Proof.
  induction l as [|c t IH]; intros p.
  - cbn. destruct tail; reflexivity.
  - cbn [length app replaceFrom]. rewrite IH. reflexivity.
Qed.

Lemma lineAfter_tail (m : string) (tpl : list titem) (p : option ascii) (tail : list ascii) :
  offLineStart p ->
  replaceFrom (lineAfter m) tpl p tail 0 = afterLine (lineAfter m) tpl tail.
Proof.
  intros (c & -> & Hc). destruct tail as [|y more]; cbn [replaceFrom afterLine].
  - rewrite (@lineAfter_mid m c [] Hc). reflexivity.
  - rewrite (@lineAfter_mid m c (y :: more) Hc). reflexivity.
Qed.

Lemma lineAfter_copy (m : string) (tpl : list titem) (tail : list ascii) :
  forall (l : list ascii) (p : option ascii),
  offLineStart p ->
  forallb notLT l = true ->
  replaceFrom (lineAfter m) tpl p (l ++ tail) 0 = l ++ afterLine (lineAfter m) tpl tail.
Proof.
  induction l as [|x t IH]; intros p Hp Hl.
  - apply lineAfter_tail. exact Hp.
  - destruct Hp as (c & -> & Hc).
    cbn [app replaceFrom]. rewrite (@lineAfter_mid m c (x :: t ++ tail) Hc).
    cbn in Hl. apply andb_true_iff in Hl as [Hx Ht].
    rewrite IH; [reflexivity | | exact Ht].
    exists x. split; [reflexivity|]. apply negb_true_iff in Hx. exact Hx.
Qed.

Section OneMarker.

Variables (m : string) (tpl : list titem).
Hypothesis m_not_empty : m <> EmptyString.
Hypothesis m_single_line : isSingleLine m = true.

Lemma marker_not_in_empty : stripPrefix (list_ascii_of_string m) [] = None.
Proof. destruct m; [congruence | reflexivity]. Qed.

Lemma replaceFrom_line (line tail : list ascii) (p : option ascii) :
  atLineStart p = true ->
  forallb notLT line = true ->
  startsLine tail = true ->
  replaceFrom (lineAfter m) tpl p (line ++ tail) 0
  = lineRule m tpl line ++ afterLine (lineAfter m) tpl tail.
Proof.
  intros Hp Hl Ht. unfold lineRule.
  destruct (stripPrefix (list_ascii_of_string m) line) as [body|] eqn:E.
  - apply stripPrefix_app in E. subst line.
    rewrite forallb_app in Hl. apply andb_true_iff in Hl as [Hlm Hlb].
    destruct (list_ascii_of_string m) as [|c0 t0] eqn:Em.
    { destruct m; [congruence | discriminate]. }
    rewrite <- app_assoc. cbn [app replaceFrom].
    change (c0 :: t0 ++ body ++ tail) with ((c0 :: t0) ++ body ++ tail).
    rewrite <- Em, (@lineAfter_matches m body tail p Hp Hlb Ht). cbn [caps rest].
    rewrite Em. f_equal.
    replace (length ((c0 :: t0) ++ body ++ tail) - length tail)
      with (S (length (t0 ++ body)))
      by (change ((c0 :: t0) ++ body ++ tail) with (c0 :: t0 ++ body ++ tail);
          cbn [length]; rewrite !length_app; lia).
    rewrite app_assoc, skip_over.
    apply lineAfter_tail. apply lastOr_off.
    + cbn in Hlm. apply andb_true_iff in Hlm as [_ Hlm].
      rewrite forallb_app, Hlm, Hlb. reflexivity.
    + exists c0. split; [reflexivity|]. cbn in Hlm. apply andb_true_iff in Hlm as [Hc _].
      apply negb_true_iff in Hc. exact Hc.
  - assert (Hfail : matchAt (lineAfter m) p (line ++ tail) = None).
    { apply lineAfter_fails, stripPrefix_tail; [exact m_single_line | exact Ht | exact E]. }
    destruct line as [|x l].
    + cbn [app]. cbn [app] in Hfail. destruct tail as [|y more]; cbn [replaceFrom afterLine];
        rewrite Hfail; reflexivity.
    + cbn [app replaceFrom]. cbn [app] in Hfail. rewrite Hfail.
      cbn in Hl. apply andb_true_iff in Hl as [Hx Hl].
      rewrite lineAfter_copy; [reflexivity | | exact Hl].
      exists x. split; [reflexivity|]. apply negb_true_iff in Hx. exact Hx.
Qed.

End OneMarker.

Lemma byLines_line (rule : list ascii -> list ascii) (tail : list ascii) :
  startsLine tail = true ->
  forall (line acc : list ascii),
  forallb notLT line = true ->
  byLines rule acc (line ++ tail)
  = rule (rev acc ++ line) ++
    match tail with
    | [] => []
    | c :: more => c :: byLines rule [] more
    end.
Proof.
  intros Ht. induction line as [|x l IH]; intros acc Hl.
  - rewrite app_nil_r. destruct tail as [|y more]; cbn [app byLines].
    + rewrite app_nil_r. reflexivity.
    + cbn in Ht. rewrite Ht. reflexivity.
  - cbn in Hl. apply andb_true_iff in Hl as [Hx Hl].
    cbn [app byLines]. apply negb_true_iff in Hx. rewrite Hx.
    rewrite (IH (x :: acc) Hl). cbn [rev]. rewrite <- app_assoc. reflexivity.
Qed.

Lemma split_line (input : list ascii) :
  exists line tail,
    input = line ++ tail /\ forallb notLT line = true /\ startsLine tail = true /\
    length tail <= length input.
Proof.
  induction input as [|c t (line & tail & E & Hl & Ht & Hn)].
  - exists [], []. repeat split; auto.
  - destruct (Js.isLineTerminator c) eqn:Hc.
    + exists [], (c :: t). repeat split; auto.
    + exists (c :: line), tail. rewrite E. cbn. unfold notLT at 1. rewrite Hc, Hl.
      repeat split; auto. rewrite length_app. lia.
Qed.

(** The substitution of [lineAfter m] rewrites every line on its own. *)
Lemma replaceFrom_byLines (m : string) (tpl : list titem) :
  m <> EmptyString ->
  isSingleLine m = true ->
  forall (n : nat) (input : list ascii) (p : option ascii),
  length input <= n ->
  atLineStart p = true ->
  replaceFrom (lineAfter m) tpl p input 0 = byLines (lineRule m tpl) [] input.
Proof.
  intros Hm Hs. induction n as [|n IH]; intros input p Hn Hp;
    destruct (split_line input) as (line & tail & -> & Hl & Ht & Hlen).
  - destruct line; [|cbn in Hn; lia]. destruct tail; [|cbn in Hn; lia].
    rewrite (@replaceFrom_line m tpl Hm Hs [] [] p Hp Hl Ht).
    rewrite (@byLines_line _ [] Ht [] [] Hl). reflexivity.
  - rewrite (@replaceFrom_line m tpl Hm Hs line tail p Hp Hl Ht).
    rewrite (@byLines_line _ tail Ht line [] Hl). cbn [rev app]. f_equal.
    destruct tail as [|c more]; [reflexivity|]. cbn [afterLine]. f_equal.
    apply IH; [|exact Ht].
    rewrite length_app in Hn. cbn in Hn. lia.
Qed.

Lemma stripPrefix_notLT (m l body : list ascii) :
  stripPrefix m l = Some body -> forallb notLT l = true -> forallb notLT body = true.
Proof.
  intros H Hl. apply stripPrefix_app in H. subst l.
  rewrite forallb_app in Hl. apply andb_true_iff in Hl as [_ Hb]. exact Hb.
Qed.

Lemma lineRule_notLT (m tag cls : string) (line : list ascii) :
  isSingleLine (openTag tag cls) = true ->
  isSingleLine (closeTag tag) = true ->
  forallb notLT line = true ->
  forallb notLT (lineRule m (wrapGroup tag cls 1) line) = true.
Proof.
  intros Ho Hc Hl. unfold lineRule.
  destruct (stripPrefix (list_ascii_of_string m) line) as [body|] eqn:E; [|exact Hl].
  unfold wrapGroup. cbn [expand capture Nat.eqb].
  change (forallb notLT (list_ascii_of_string (openTag tag cls)) = true) in Ho.
  change (forallb notLT (list_ascii_of_string (closeTag tag)) = true) in Hc.
  rewrite !forallb_app, Ho, Hc, (stripPrefix_notLT _ _ E Hl). reflexivity.
Qed.

Lemma byLines_compose (rule1 rule2 : list ascii -> list ascii) :
  (forall l, forallb notLT l = true -> forallb notLT (rule1 l) = true) ->
  forall (n : nat) (input : list ascii),
  length input <= n ->
  byLines rule2 [] (byLines rule1 [] input) = byLines (fun l => rule2 (rule1 l)) [] input.
Proof.
  intros Hr. induction n as [|n IH]; intros input Hn;
    destruct (split_line input) as (line & tail & -> & Hl & Ht & Hlen);
    rewrite (@byLines_line rule1 tail Ht line [] Hl),
            (@byLines_line (fun l => rule2 (rule1 l)) tail Ht line [] Hl); cbn [rev app].
  - destruct line; [|cbn in Hn; lia]. destruct tail; [|cbn in Hn; lia].
    rewrite (@byLines_line rule2 [] eq_refl _ [] (Hr _ Hl)). reflexivity.
  - destruct tail as [|c more].
    + rewrite (@byLines_line rule2 [] eq_refl _ [] (Hr _ Hl)). reflexivity.
    + rewrite (@byLines_line rule2 (c :: byLines rule1 [] more) Ht _ [] (Hr _ Hl)).
      cbn [rev app]. rewrite IH; [reflexivity|].
      rewrite length_app in Hn. cbn in Hn. lia.
Qed.

Lemma replace_byLines (m : string) (tpl : list titem) (s : string) :
  m <> EmptyString ->
  isSingleLine m = true ->
  list_ascii_of_string (replace (lineAfter m) tpl s)
  = byLines (lineRule m tpl) [] (list_ascii_of_string s).
Proof.
  intros Hm Hs. unfold replace. rewrite list_ascii_of_string_of_list_ascii.
  apply (@replaceFrom_byLines m tpl Hm Hs (length (list_ascii_of_string s))); auto.
Qed.

(** The three heading substitutions together rewrite every line on its
    own. *)
Lemma headings_byLines (text : string) :
  list_ascii_of_string (headings text) = byLines headingLine [] (list_ascii_of_string text).
Proof.
  unfold headings, re_h1, re_h2, re_h3.
  rewrite !replace_byLines by (discriminate || reflexivity).
  unfold headingLine.
  rewrite (@byLines_compose (lineRule "### " tpl_h3) (lineRule "## " tpl_h2))
    with (n := length (list_ascii_of_string text));
    [| intros l Hl; apply lineRule_notLT; [reflexivity | reflexivity | exact Hl] | lia].
  rewrite (@byLines_compose (fun l => lineRule "## " tpl_h2 (lineRule "### " tpl_h3 l))
                            (lineRule "# " tpl_h1))
    with (n := length (list_ascii_of_string text));
    [reflexivity | | lia].
  intros l Hl. apply lineRule_notLT; [reflexivity | reflexivity |].
  apply lineRule_notLT; [reflexivity | reflexivity | exact Hl].
Qed.

Lemma byLines_after_lines (rule : list ascii -> list ascii) (rest : list ascii) :
  rule [] = [] ->
  forall (pre acc : list ascii),
  pre <> [] ->
  endsLine pre = true ->
  byLines rule acc (pre ++ rest) = byLines rule acc pre ++ byLines rule [] rest.
Proof.
  intros Hr. induction pre as [|x pre IH]; intros acc Hne He; [congruence|].
  destruct pre as [|y pre'].
  - unfold endsLine in He. cbn in He. cbn [app byLines rev]. rewrite He, Hr.
    rewrite <- app_assoc. reflexivity.
  - assert (He' : endsLine (y :: pre') = true).
    { unfold endsLine in *. cbn [rev] in *.
      destruct (rev pre' ++ [y]) eqn:E; [destruct (rev pre'); discriminate|].
      exact He. }
    change ((x :: y :: pre') ++ rest) with (x :: (y :: pre') ++ rest).
    cbn [byLines]. destruct (Js.isLineTerminator x).
    + rewrite (IH [] ltac:(discriminate) He'), <- app_assoc. reflexivity.
    + apply IH; [discriminate | exact He'].
Qed.

Lemma byLines_span (rule : list ascii -> list ascii) (pre line post : list ascii) :
  rule [] = [] ->
  endsLine pre = true ->
  forallb notLT line = true ->
  startsLine post = true ->
  byLines rule [] (pre ++ line ++ post)
  = byLines rule [] pre ++ rule line ++ byLines rule [] post.
Proof.
  intros Hr He Hl Hs.
  assert (Hrest : byLines rule [] (line ++ post) = rule line ++ byLines rule [] post).
  { rewrite (@byLines_line rule post Hs line [] Hl). cbn [rev app]. f_equal.
    destruct post as [|c more]; [cbn [byLines rev]; rewrite Hr; reflexivity|].
    cbn in Hs. cbn [byLines rev]. rewrite Hs, Hr. reflexivity. }
  destruct pre as [|x pre'].
  - cbn [app byLines rev]. rewrite Hr. exact Hrest.
  - rewrite byLines_after_lines; [| exact Hr | discriminate | exact He].
    rewrite Hrest. reflexivity.
Qed.

Lemma headings_line_by_line (pre line post : string) :
  endsLine (list_ascii_of_string pre) = true ->
  isSingleLine line = true ->
  startsLine (list_ascii_of_string post) = true ->
  headings (pre ++ line ++ post)
  = (headings pre ++ headings line ++ headings post)%string.
Proof.
  intros He Hl Hs.
  rewrite <- (string_of_list_ascii_of_string (headings (pre ++ line ++ post))).
  rewrite <- (string_of_list_ascii_of_string (headings pre)).
  rewrite <- (string_of_list_ascii_of_string (headings line)).
  rewrite <- (string_of_list_ascii_of_string (headings post)).
  rewrite !headings_byLines, !list_of_append, <- !string_of_app.
  rewrite byLines_span; [| reflexivity | exact He | exact Hl | exact Hs].
  pose proof (@byLines_line headingLine [] eq_refl (list_ascii_of_string line) [] Hl) as E.
  rewrite !app_nil_r in E. cbn [rev app] in E. rewrite E. reflexivity.
Qed.

(** *** The substitutions after the headings keep every [#] *)

Lemma countHashes_app (l m : list ascii) :
  countHashes (l ++ m) = countHashes l + countHashes m.
Proof. unfold countHashes. rewrite filter_app, length_app. reflexivity. Qed.

Lemma reads_refl (r : regex) (s : mstate) :
  (forall i, aroundGroup i r = false) ->
  reads r s s.
Proof.
  intros Ha. exists []. repeat split; auto.
  intros i H. rewrite Ha in H. discriminate.
Qed.

Lemma consumed_app (s s' : mstate) (c : list ascii) :
  rest s = c ++ rest s' -> consumed s s' = c.
Proof.
  intros E. unfold consumed. rewrite E, length_app, Nat.add_sub.
  rewrite firstn_app, Nat.sub_diag, firstn_all. cbn. apply app_nil_r.
Qed.

Lemma reads_step (g : bool) (r : regex) (s s1 s' : mstate) :
  reads r s s1 -> reads (Star g r) s1 s' -> reads (Star g r) s s'.
Proof.
  intros (c1 & E1 & H1 & G1 & _) (c2 & E2 & H2 & G2 & _).
  exists (c1 ++ c2). split; [rewrite E1, E2, app_assoc; reflexivity|].
  split; [|split].
  - cbn. intros H. rewrite countHashes_app, (H1 H), (H2 H). reflexivity.
  - cbn. intros i H. rewrite (G2 i H). exact (G1 i H).
  - intros i H. discriminate.
Qed.

Lemma star_reads (g : bool) (r : regex) :
  (forall k s x, run r k s = Some x -> exists s', reads r s s' /\ k s' = Some x) ->
  forall fuel k s x,
  star (run r) g fuel k s = Some x ->
  exists s', reads (Star g r) s s' /\ k s' = Some x.
Proof.
  intros IHr. induction fuel as [|f IH]; intros k s x H; cbn [star] in H.
  - exists s. split; [apply reads_refl; reflexivity | exact H].
  - assert (Hmore : forall y,
               run r (fun s' => if length (rest s') <? length (rest s)
                                then star (run r) g f k s' else None) s = Some y ->
               exists s', reads (Star g r) s s' /\ k s' = Some y).
    { intros y Hy. apply IHr in Hy as (s1 & R1 & Hy).
      destruct (length (rest s1) <? length (rest s)); [|discriminate].
      apply IH in Hy as (s' & R' & Hk). exists s'. split; [|exact Hk].
      exact (reads_step R1 R'). }
    assert (Hnow : forall y, k s = Some y -> exists s', reads (Star g r) s s' /\ k s' = Some y).
    { intros y Hy. exists s. split; [apply reads_refl; reflexivity | exact Hy]. }
    destruct g.
    + destruct (run r _ s) as [y|] eqn:E.
      * injection H as <-. exact (Hmore y eq_refl).
      * exact (Hnow x H).
    + destruct (k s) as [y|] eqn:E.
      * injection H as <-. exact (Hnow y eq_refl).
      * exact (Hmore x H).
Qed.

Lemma run_reads (r : regex) :
  forall k s x, run r k s = Some x -> exists s', reads r s s' /\ k s' = Some x.
Proof.
  induction r as [|p| | |r1 IH1 r2 IH2|r1 IH1 r2 IH2|g r1 IH1|j r1 IH1];
    intros k s x H; cbn [run] in H.
  - exists s. split; [apply reads_refl; reflexivity | exact H].
  - destruct (rest s) as [|c t] eqn:E; [discriminate|].
    destruct (p c) eqn:Hp; [|discriminate].
    eexists. split; [|exact H]. exists [c]. cbn [rest caps].
    split; [exact E|]. split; [|split].
    + cbn. intros Hf. apply negb_true_iff in Hf.
      unfold countHashes. cbn. unfold isHash.
      destruct (Ascii.eqb c "#") eqn:Ec; [|reflexivity].
      apply Ascii.eqb_eq in Ec. subst c. congruence.
    + reflexivity.
    + intros i Hi. discriminate.
  - destruct (atBol s); [|discriminate].
    exists s. split; [apply reads_refl; reflexivity | exact H].
  - destruct (atEol s); [|discriminate].
    exists s. split; [apply reads_refl; reflexivity | exact H].
  - apply IH1 in H as (s1 & (c1 & E1 & H1 & G1 & A1) & H).
    apply IH2 in H as (s2 & (c2 & E2 & H2 & G2 & A2) & H).
    exists s2. split; [|exact H].
    exists (c1 ++ c2). split; [rewrite E1, E2, app_assoc; reflexivity|].
    split; [|split].
    + cbn. intros Hf. apply andb_true_iff in Hf as [Hf1 Hf2].
      rewrite countHashes_app, (H1 Hf1), (H2 Hf2). reflexivity.
    + cbn. intros i Hi. apply orb_false_iff in Hi as [Hi1 Hi2].
      rewrite (G2 i Hi2). exact (G1 i Hi1).
    + cbn. intros i Hi. rewrite countHashes_app.
      apply orb_true_iff in Hi as [Hi | Hi].
      * apply andb_true_iff in Hi as [Hf1 Ha2].
        rewrite (H1 Hf1), (A2 i Ha2). reflexivity.
      * apply andb_true_iff in Hi as [Hi Hn]. apply andb_true_iff in Hi as [Ha1 Hf2].
        apply negb_true_iff in Hn.
        rewrite (G2 i Hn), (A1 i Ha1), (H2 Hf2). lia.
  - assert (Hside : forall (r' : regex) (s' : mstate),
               (r' = r1 \/ r' = r2) -> reads r' s s' -> reads (Alt r1 r2) s s').
    { intros r' s' Hr (c & E & Hc & Gc & _). exists c. split; [exact E|].
      split; [|split].
      - cbn. intros Hf. apply andb_true_iff in Hf as [Hf1 Hf2].
        apply Hc. destruct Hr; subst r'; assumption.
      - cbn. intros i Hi. apply orb_false_iff in Hi as [Hi1 Hi2].
        apply Gc. destruct Hr; subst r'; assumption.
      - intros i Hi. discriminate. }
    destruct (run r1 k s) as [y|] eqn:E.
    + injection H as <-. apply IH1 in E as (s' & R & Hk).
      exists s'. split; [exact (Hside r1 s' (or_introl eq_refl) R) | exact Hk].
    + apply IH2 in H as (s' & R & Hk).
      exists s'. split; [exact (Hside r2 s' (or_intror eq_refl) R) | exact Hk].
  - exact (star_reads g IH1 _ _ _ H).
  - apply IH1 in H as (s1 & (c & E & Hc & Gc & _) & H).
    exists (closeGroup j s s1). split; [|exact H].
    exists c. cbn [closeGroup rest caps]. split; [exact E|]. split; [|split].
    + exact Hc.
    + cbn. intros i Hi. apply orb_false_iff in Hi as [Hij Hi].
      rewrite Hij. exact (Gc i Hi).
    + cbn. intros i Hi. rewrite Hi. rewrite (@consumed_app s s1 c E). reflexivity.
Qed.

Lemma expand_plain (tpl : list titem) (cs : list (nat * list ascii)) :
  forallb plainItem tpl = true -> countHashes (expand tpl cs) = 0.
Proof.
  induction tpl as [|[s|i] t IH]; cbn [forallb expand]; intros H;
    [reflexivity | | discriminate].
  apply andb_true_iff in H as [Hs Ht]. cbn [plainItem] in Hs. apply Nat.eqb_eq in Hs.
  rewrite countHashes_app, Hs, (IH Ht). reflexivity.
Qed.

Lemma expand_around (i : nat) (tpl : list titem) (cs : list (nat * list ascii)) :
  aroundRef i tpl = true -> countHashes (expand tpl cs) = countHashes (capture i cs).
Proof.
  induction tpl as [|[s|j] t IH]; cbn [aroundRef expand]; intros H; [discriminate | |].
  - apply andb_true_iff in H as [Hs Ht]. cbn [plainItem] in Hs. apply Nat.eqb_eq in Hs.
    rewrite countHashes_app, Hs, (IH Ht). reflexivity.
  - apply andb_true_iff in H as [Hij Ht]. apply Nat.eqb_eq in Hij. subst j.
    rewrite countHashes_app, (@expand_plain t cs Ht). lia.
Qed.

Lemma keepsCount_plain (r : regex) (tpl : list titem) :
  hashFree r = true -> forallb plainItem tpl = true -> keepsCount r tpl.
Proof.
  intros Hr Ht p input m H. unfold matchAt in H.
  apply run_reads in H as (s' & (c & E & Hc & _) & H). injection H as <-.
  exists c. split; [exact E|]. rewrite (@expand_plain tpl _ Ht), (Hc Hr). reflexivity.
Qed.

Lemma keepsCount_around (i : nat) (r : regex) (tpl : list titem) :
  aroundGroup i r = true -> aroundRef i tpl = true -> keepsCount r tpl.
Proof.
  intros Hr Ht p input m H. unfold matchAt in H.
  apply run_reads in H as (s' & (c & E & _ & _ & Ha) & H). injection H as <-.
  exists c. split; [exact E|]. rewrite (@expand_around i tpl _ Ht). exact (Ha i Hr).
Qed.

Lemma replaceFrom_count (r : regex) (tpl : list titem) :
  keepsCount r tpl ->
  forall input p skip,
  countHashes (replaceFrom r tpl p input skip) = countHashes (skipn skip input).
Proof.
  intros Hk. induction input as [|c t IH]; intros p skip.
  - destruct skip as [|n]; cbn [replaceFrom skipn]; [|reflexivity].
    destruct (matchAt r p []) as [m|] eqn:E; [|reflexivity].
    apply Hk in E as (cc & E & Hc). rewrite Hc.
    destruct cc; [reflexivity | discriminate].
  - destruct skip as [|n]; cbn [replaceFrom skipn]; [|apply IH].
    destruct (matchAt r p (c :: t)) as [m|] eqn:E.
    + apply Hk in E as (cc & E & Hc). rewrite countHashes_app, Hc.
      rewrite E at 1. rewrite length_app, Nat.add_sub.
      destruct cc as [|x cc']; cbn [length].
      * change (c :: replaceFrom r tpl (Some c) t 0)
          with ([c] ++ replaceFrom r tpl (Some c) t 0).
        rewrite countHashes_app, IH. cbn [skipn].
        change (c :: t) with ([c] ++ t). rewrite countHashes_app. reflexivity.
      * rewrite IH. cbn in E. injection E as -> ->.
        rewrite skipn_app, Nat.sub_diag, skipn_all. cbn [skipn app].
        change (x :: cc' ++ rest m) with ((x :: cc') ++ rest m).
        rewrite countHashes_app. reflexivity.
    + change (c :: replaceFrom r tpl (Some c) t 0)
        with ([c] ++ replaceFrom r tpl (Some c) t 0).
      rewrite countHashes_app, IH. cbn [skipn].
      change (c :: t) with ([c] ++ t). rewrite countHashes_app. reflexivity.
Qed.

Lemma replace_count (r : regex) (tpl : list titem) (s : string) :
  keepsCount r tpl ->
  countHashes (list_ascii_of_string (replace r tpl s)) = countHashes (list_ascii_of_string s).
Proof.
  intros Hk. unfold replace. rewrite list_ascii_of_string_of_list_ascii.
  apply (@replaceFrom_count r tpl Hk).
Qed.

(** After the headings, no substitution adds or removes a [#]. *)
Lemma parseMarkdown_count (text : string) :
  text <> EmptyString ->
  countHashes (list_ascii_of_string (parseMarkdown text))
  = countHashes (list_ascii_of_string (headings text)).
Proof.
  intros Hne. unfold parseMarkdown.
  replace (Js.truthy text) with true by (destruct text; [congruence | reflexivity]).
  cbn [negb]. rewrite !list_of_append, !countHashes_app.
  unfold lists, inlines.
  rewrite (@replace_count re_merge tpl_merge) by (apply keepsCount_plain; reflexivity).
  rewrite (@replace_count re_ul tpl_ul) by (apply (@keepsCount_around 1); reflexivity).
  rewrite (@replace_count re_li tpl_li) by (apply (@keepsCount_around 2); reflexivity).
  rewrite (@replace_count re_br tpl_br) by (apply keepsCount_plain; reflexivity).
  rewrite (@replace_count re_para tpl_para) by (apply keepsCount_plain; reflexivity).
  rewrite (@replace_count re_code tpl_code) by (apply (@keepsCount_around 1); reflexivity).
  rewrite (@replace_count re_em tpl_em) by (apply (@keepsCount_around 1); reflexivity).
  rewrite (@replace_count re_bold tpl_bold) by (apply (@keepsCount_around 1); reflexivity).
  rewrite (@replace_count re_quote tpl_quote) by (apply (@keepsCount_around 1); reflexivity).
  change (countHashes (list_ascii_of_string (openTag "p" paragraphClass))) with 0.
  change (countHashes (list_ascii_of_string (closeTag "p"))) with 0.
  lia.
Qed.

(** *** The statements *)

(** C6, on the code.  For the text made of the line [- a], a line feed and
    the line [- b], [parseMarkdown] hands back one list container around one
    list item, whose content is [a<br>- b]: the line feed has become [<br>]
    before the list pattern is applied, so that the pattern, which stops at
    the end of a line, takes the rest of the text for its first item. *)
Theorem two_item_list_renders_as_one_item :
  parseMarkdown ("- a" ++ Js.nl ++ "- b")
  = (openTag "p" paragraphClass ++ "<ul><li>a<br>- b</li></ul>" ++ closeTag "p")%string /\
  countOccurrences "<ul>" (parseMarkdown ("- a" ++ Js.nl ++ "- b")) = 1 /\
  countOccurrences "<li>" (parseMarkdown ("- a" ++ Js.nl ++ "- b")) = 1.
Proof.
  repeat split; vm_compute; reflexivity.
Qed.

(** C10.  The three heading substitutions rewrite every line of a text on
    its own: a line between two line terminators (or the ends of the text)
    becomes what it would become as a text of its own, and the lines before
    and after it likewise.  A line that starts with one, two or three [#]
    and a space becomes the heading element of that level around the rest of
    the line.  A line that starts with a run of [#] (of any length) followed
    neither by a space nor by one more [#] is left as it is, and when it is
    the whole text the run of [#] stands in the result of [parseMarkdown]
    right after the opening paragraph tag.  For every text, the
    substitutions that follow the headings neither remove nor add a [#]:
    the result of [parseMarkdown] has as many as the result of the heading
    substitutions. *)
Theorem heading_needs_a_space :
  (forall pre line post : string,
     endsLine (list_ascii_of_string pre) = true ->
     isSingleLine line = true ->
     startsLine (list_ascii_of_string post) = true ->
     headings (pre ++ line ++ post)
     = (headings pre ++ headings line ++ headings post)%string) /\
  (forall body : string,
     isSingleLine body = true ->
     headings ("# " ++ body) = (openTag "h1" h1Class ++ body ++ closeTag "h1")%string /\
     headings ("## " ++ body) = (openTag "h2" h2Class ++ body ++ closeTag "h2")%string /\
     headings ("### " ++ body) = (openTag "h3" h3Class ++ body ++ closeTag "h3")%string) /\
  (forall (k : nat) (rest : string),
     1 <= k ->
     isSingleLine rest = true ->
     startsWithSpaceOrHash rest = false ->
     headings (hashes k ++ rest) = (hashes k ++ rest)%string /\
     exists tail,
       parseMarkdown (hashes k ++ rest)
       = (openTag "p" paragraphClass ++ hashes k ++ tail ++ closeTag "p")%string) /\
  (forall text : string,
     Js.truthy text = true ->
     countHashes (list_ascii_of_string (parseMarkdown text))
     = countHashes (list_ascii_of_string (headings text))).
Proof.
  split; [|split; [|split]].
  - intros pre line post He Hl Hs. exact (@headings_line_by_line pre line post He Hl Hs).
  - intros body Hb.
    split; [exact (@headings_h1 body Hb)|].
    split; [exact (@headings_h2 body Hb) | exact (@headings_h3 body Hb)].
  - intros k rest Hk Hl Hr.
    split; [exact (@hashes_unchanged_by_headings k rest Hk Hl Hr)|].
    exact (@hashes_survive k rest Hk Hl Hr).
  - intros text Ht. apply parseMarkdown_count. intros ->. discriminate.
Qed.

Lemma heading_needs_a_space_witness :
  headings ("# Title" ++ Js.nl ++ "#Title" ++ Js.nl ++ "text")
  = (headings ("# Title" ++ Js.nl) ++ headings "#Title" ++ headings (Js.nl ++ "text"))%string /\
  headings "# Title" = (openTag "h1" h1Class ++ "Title" ++ closeTag "h1")%string /\
  headings "#Title" = "#Title" /\
  countHashes (list_ascii_of_string (parseMarkdown ("- a" ++ Js.nl ++ "#Title")))
  = countHashes (list_ascii_of_string (headings ("- a" ++ Js.nl ++ "#Title"))).
Proof.
  split; [|split; [|split]].
  - refine (proj1 heading_needs_a_space ("# Title" ++ Js.nl)%string "#Title"
                  (Js.nl ++ "text")%string _ _ _);
      reflexivity.
  - refine (proj1 (proj1 (proj2 heading_needs_a_space) "Title" _)). reflexivity.
  - refine (proj1 (proj1 (proj2 (proj2 heading_needs_a_space)) 1 "Title" _ _ _));
      [cbn; lia | reflexivity | reflexivity].
  - refine (proj2 (proj2 (proj2 heading_needs_a_space)) _ _). reflexivity.
Defined.

End Renderer.

(* ================================================================== *)
(** * Further properties *)

(** ** The orchestrator and the Content Provider *)

(** *** The outline request *)

Lemma outlinePhase_component (w : Run) (topic : string) (a : AppComponent) :
  let r := outlinePhase w topic a in
  componentError (final r) = None /\
  generationProgress (final r) = mkProgress 0 1 "Generating table of contents..." /\
  serviceErrorWrites (events r) =
    (if GeminiService.genAI (geminiService a)
     then None :: match tocReply w with
                  | Returned _ => []
                  | Threw => [Some "Failed to generate the table of contents. Please check the console for details."]
                  end
     else []) /\
  (GeminiService.genAI (geminiService a) = false -> geminiService (final r) = geminiService a) /\
  progressAndCalls (events r) =
    [SetGenerationProgress (mkProgress 0 1 "Generating table of contents...");
     CallTableOfContents topic; ReturnTableOfContents (result r)].
Proof.
  destruct a as [[[|] e] st pr eb tp ce pend];
    unfold_ops; step_cases; repeat split; try reflexivity; try discriminate.
Qed.

(** X1.  When the topic passes validation and the outline request hands
    back no usable outline (no client, a remote call that throws, [null], a
    missing or an empty chapter list), the run ends with [error] in
    [ebookState] and the progress reset to 0 of 0 with the message of line
    81.  The validation message was cleared, [ebook] is not written and holds
    what it held, and the only call into the Content Provider is the outline
    request: no chapter is requested. *)
Theorem unusable_outline_ends_in_error (w : Run) (a : AppComponent) :
  Js.truthy (Js.trim (ebookTopic a)) = true ->
  usableChapters (outlineResult w a) = None ->
  let r := generateEbook w a in
  ebookState (final r) = error /\
  generationProgress (final r) =
    mkProgress 0 0 "Could not generate a valid table of contents." /\
  componentError (final r) = None /\
  ebook (final r) = ebook a /\
  ebookWrites (events r) = [] /\
  providerCalls (events r) =
    [CallTableOfContents (Js.trim (ebookTopic a));
     ReturnTableOfContents (outlineResult w a)] /\
  methodStateWrites (events r) = [generating; error] /\
  progressWrites (events r) =
    [mkProgress 0 1 "Generating table of contents...";
     mkProgress 0 0 "Could not generate a valid table of contents."].
Proof.
  intros Ht Hu. cbn zeta.
  rewrite (generateEbook_phases w a Ht), bind_eq.
  destruct (outlinePhase_frame w (Js.trim (ebookTopic a)) a)
    as (B0 & T0 & G0 & E0 & C0 & M0 & P0 & V0 & R0).
  destruct (outlinePhase_component w (Js.trim (ebookTopic a)) a) as (CE & _).
  set (r0 := outlinePhase w (Js.trim (ebookTopic a)) a) in *.
  fold (outlineResult w a) in R0. rewrite R0 in *. rewrite Hu.
  unfold outlineFailure, ebookState_set, generationProgress_set, bind, modify, log.
  cbn [result final events fst snd app with_ebookState with_generationProgress
       ebook ebookState generationProgress componentError].
  unfold providerCalls, progressWrites, methodStateWrites, ebookWrites in *.
  rewrite filter_app, !flat_map_app, V0, P0, M0, E0.
  repeat split; try reflexivity; assumption.
Qed.

Lemma unusable_outline_ends_in_error_witness :
  let w := mkRun Threw firstChapterFails (fun _ => true) in
  ebookState (final (generateEbook w exampleComponent)) = error /\
  providerCalls (events (generateEbook w exampleComponent))
  = [CallTableOfContents "bread baking"; ReturnTableOfContents None].
Proof.
  cbn zeta.
  destruct (@unusable_outline_ends_in_error
              (mkRun Threw firstChapterFails (fun _ => true)) exampleComponent)
    as (S1 & _ & _ & _ & _ & V1 & _); [reflexivity | reflexivity |].
  split; [exact S1 | exact V1].
Defined.

(** X2.  Without an API key (absent or empty) the service is built
    without a client and with the configuration message in its error signal;
    the first run of the component's effect then sets [ebookState] to
    [error].  A run started on a topic that passes validation makes the
    outline request, which hands back [null] without writing the error
    signal, and ends in [error] with the progress reset: the configuration
    message is still in the error signal and [ebook] is still [null]. *)
Theorem missing_key_blocks_generation (apiKey : option string) (topic : string) (w : Run) :
  Js.truthy_opt apiKey = false ->
  Js.truthy (Js.trim topic) = true ->
  let a := with_ebookTopic topic (newAppComponent apiKey) in
  let r := generateEbook w a in
  serviceError a = Some "API key for Google Gemini is not configured." /\
  ebookState (final (flushEffects a)) = error /\
  ebookState (final r) = error /\
  serviceError (final r) = Some "API key for Google Gemini is not configured." /\
  serviceErrorWrites (events r) = [] /\
  providerCalls (events r) =
    [CallTableOfContents (Js.trim topic); ReturnTableOfContents None] /\
  ebook (final r) = None /\
  generationProgress (final r) =
    mkProgress 0 0 "Could not generate a valid table of contents.".
Proof.
  intros Hk Ht. cbn zeta.
  assert (Hnew : newAppComponent apiKey =
                 mkApp (GeminiService.mk false (Some "API key for Google Gemini is not configured."))
                       idle (mkProgress 0 0 EmptyString) None EmptyString None true).
  { unfold newAppComponent, GeminiService.new. rewrite Hk. reflexivity. }
  rewrite Hnew. cbn [with_ebookTopic geminiService ebookState generationProgress ebook
                     ebookTopic componentError effectPending].
  split; [reflexivity|]. split; [reflexivity|].
  rewrite generateEbook_phases by exact Ht. rewrite bind_eq.
  cbn [ebookTopic].
  unfold_ops. step_cases; repeat split; reflexivity.
Qed.

Lemma missing_key_blocks_generation_witness :
  ebookState (final (generateEbook lazyRun (with_ebookTopic "bread baking" (newAppComponent None))))
  = error.
Proof.
  refine (proj1 (proj2 (proj2 (@missing_key_blocks_generation None "bread baking" lazyRun _ _))));
    reflexivity.
Defined.


(** *** Progress and requests *)

Lemma generateChapter_steps (w : Run) (topic : string) (tot i : nat)
      (c : ChapterSpec.t) (a : AppComponent) :
  GeminiService.genAI (geminiService a) = true ->
  total (generationProgress a) = tot ->
  progressAndCalls (events (generateChapter w topic tot i c a)) =
  chapterSteps w topic tot i [c].
Proof.
  destruct a as [[g e] st [cu to ms] eb tp ce pend]; cbn; intros -> ->.
  unfold_ops; cbn.
  destruct (chapterReply w i) eqn:Er; cbn;
    destruct (flushAt w (i + (i + 0) + 2)); cbn;
    destruct pend; cbn; destruct e as [m|]; cbn;
    destruct (flushAt w (i + (i + 0) + 3)); cbn; reflexivity.
Qed.

Lemma progressAndCalls_app (l m : list Event) :
  progressAndCalls (l ++ m) = progressAndCalls l ++ progressAndCalls m.
Proof. apply filter_app. Qed.

Lemma generateChapters_steps (w : Run) (topic : string) (tot : nat) (chs : list ChapterSpec.t) :
  forall (i : nat) (acc : list Chapter.t) (a : AppComponent),
  GeminiService.genAI (geminiService a) = true ->
  total (generationProgress a) = tot ->
  progressAndCalls (events (generateChapters w topic tot i chs acc a)) =
  chapterSteps w topic tot i chs.
Proof.
  induction chs as [|c t IH]; intros i acc a Hg Ht; [reflexivity|].
  cbn [generateChapters]. rewrite bind_eq. cbn [events snd].
  destruct (generateChapter_run w topic tot i c a Hg)
    as (_ & G1 & _ & _ & _ & P1 & _).
  rewrite progressAndCalls_app.
  rewrite (@generateChapter_steps w topic tot i c a Hg Ht).
  rewrite IH; [reflexivity | exact G1 | rewrite P1; exact Ht].
Qed.

(** X4.  In a run whose outline request hands back an outline with n
    chapters (n at least 1), the progress and the provider calls interleave
    as follows: progress 0 of 1, the outline request and its result, progress
    0 of n, and then for the i-th chapter, in order, progress i+1 of n with
    the message "Generating chapter i+1/n: title", the chapter request, and
    its result.  So the progress of a chapter is written before its request
    is made. *)
Theorem progress_is_written_before_each_request (w : Run) (a : AppComponent)
        (toc : TocStructure.t) (chs : list ChapterSpec.t) :
  Js.truthy (Js.trim (ebookTopic a)) = true ->
  GeminiService.genAI (geminiService a) = true ->
  tocReply w = Returned (Some toc) ->
  TocStructure.chapters toc = Some chs ->
  1 <= length chs ->
  let topic := Js.trim (ebookTopic a) in
  progressAndCalls (events (generateEbook w a)) =
  SetGenerationProgress (mkProgress 0 1 "Generating table of contents...")
  :: CallTableOfContents topic
  :: ReturnTableOfContents (Some toc)
  :: SetGenerationProgress
       (mkProgress 0 (length chs) "Table of contents generated. Generating chapters...")
  :: chapterSteps w topic (length chs) 0 chs.
Proof.
  intros Ht Hg Hr Hc Hn. cbn zeta.
  rewrite (generateEbook_phases w a Ht), bind_eq. cbn [events snd].
  set (topic := Js.trim (ebookTopic a)).
  destruct (outlinePhase_frame w topic a) as (_ & _ & G0 & _).
  destruct (outlinePhase_success w topic a Hg Hr) as (R0 & _).
  destruct (outlinePhase_component w topic a) as (_ & _ & _ & _ & S0).
  set (r0 := outlinePhase w topic a) in *.
  rewrite R0 in *. rewrite (@usable_outline toc chs Hc Hn).
  rewrite progressAndCalls_app, S0.
  cbn [app]. do 3 f_equal.
  unfold chapterPhase. rewrite bind_eq. cbn [events snd]. rewrite progressAndCalls_app.
  rewrite bind_eq. cbn [events snd]. rewrite progressAndCalls_app.
  assert (G1 : GeminiService.genAI
                 (geminiService (final (generationProgress_set
                                          (outlineReadyProgress (length chs)) (final r0)))) = true)
    by (destruct (final r0) as [[g e] st pr eb tp ce pend]; cbn in *; congruence).
  rewrite (@generateChapters_steps w topic (length chs) chs 0 [] _ G1)
    by (destruct (final r0) as [[g e] st pr eb tp ce pend]; reflexivity).
  destruct (final r0) as [[g e] st pr eb tp ce pend]; cbn.
  rewrite app_nil_r. reflexivity.
Qed.

Lemma progress_is_written_before_each_request_witness :
  progressAndCalls (events (generateEbook lazyRun exampleComponent)) =
  [SetGenerationProgress (mkProgress 0 1 "Generating table of contents...");
   CallTableOfContents "bread baking";
   ReturnTableOfContents (Some exampleOutline);
   SetGenerationProgress
     (mkProgress 0 2 "Table of contents generated. Generating chapters...");
   SetGenerationProgress (mkProgress 1 2 "Generating chapter 1/2: Intro");
   CallChapterContent "bread baking" "Intro" ["history"];
   ReturnChapterContent "Error generating content for this chapter.";
   SetGenerationProgress (mkProgress 2 2 "Generating chapter 2/2: Dough");
   CallChapterContent "bread baking" "Dough" ["hydration"; "kneading"];
   ReturnChapterContent "## Section"].
Proof.
  refine (eq_trans (@progress_is_written_before_each_request lazyRun exampleComponent
                      exampleOutline exampleChapters _ _ _ _ _) _);
    [reflexivity | reflexivity | reflexivity | reflexivity | cbn; lia | reflexivity].
Defined.

Lemma progress_within (l : list GenerationProgress) (s n tot : nat) :
  map current l = seq s n ->
  Forall (fun p => total p = tot) l ->
  s + n <= S tot ->
  Forall (fun p => current p <= total p) l.
Proof.
  intros Hc Ht Hn. apply Forall_forall. intros p Hp.
  rewrite Forall_forall in Ht. rewrite (Ht p Hp).
  assert (Hin : In (current p) (seq s n)) by (rewrite <- Hc; apply in_map; exact Hp).
  apply in_seq in Hin. lia.
Qed.

(** X5.  In every run, whatever the provider does and wherever the
    effects run, every value written to [generationProgress] has [current]
    at most [total]; at the end [generationProgress] holds such a value or,
    for a topic that fails validation, what it held at the start. *)
Theorem progress_never_exceeds_total (w : Run) (a : AppComponent) :
  let r := generateEbook w a in
  Forall (fun p => current p <= total p) (progressWrites (events r)) /\
  (generationProgress (final r) = generationProgress a \/
   current (generationProgress (final r)) <= total (generationProgress (final r))).
Proof.
  cbn zeta. destruct (Js.truthy (Js.trim (ebookTopic a))) eqn:Ht.
  - rewrite (generateEbook_phases w a Ht), bind_eq.
    destruct (outlinePhase_frame w (Js.trim (ebookTopic a)) a)
      as (B0 & T0 & G0 & E0 & C0 & M0 & P0 & V0 & R0).
    set (topic := Js.trim (ebookTopic a)) in *.
    set (r0 := outlinePhase w topic a) in *.
    destruct (usableChapters (result r0)) as [chs|] eqn:Hu.
    + assert (Hg : GeminiService.genAI (geminiService (final r0)) = true).
      { rewrite G0. destruct (GeminiService.genAI (geminiService a)); [reflexivity|].
        rewrite R0 in Hu. discriminate. }
      destruct (@chapterPhase_run w topic (result r0) chs (final r0) Hg
                  (usableChapters_nonempty _ Hu))
        as (S1 & B1 & T1 & C1 & PC1 & PT1 & pre & Ev & V1 & W1 & WT1 & M1 & E1 & F1 & N1).
      set (r1 := chapterPhase w topic (result r0) chs (final r0)) in *.
      cbn [result final events fst snd].
      split.
      * unfold progressWrites in *. rewrite Ev, !flat_map_app, P0. cbn [flat_map app].
        rewrite app_nil_r. constructor; [cbn; lia|].
        apply (@progress_within _ 0 (S (length chs)) (length chs)); [exact W1 | exact WT1 | lia].
      * right. rewrite PC1, PT1. lia.
    + unfold outlineFailure, ebookState_set, generationProgress_set, bind, modify, log;
        cbn [result final events fst snd app with_ebookState with_generationProgress
             generationProgress].
      split.
      * unfold progressWrites in *. rewrite flat_map_app, P0. cbn.
        repeat constructor.
      * right. cbn. lia.
  - rewrite (generateEbook_blank w a Ht). cbn. split; [constructor | left; reflexivity].
Qed.

(** X6.  Every run ends with [completed] or with [error] in [ebookState],
    never with [generating].  It ends with [completed] exactly when it wrote
    [ebook]: then it wrote it once, the ebook has at least one chapter, and
    [current] and [total] are both its number of chapters.  Otherwise
    [ebook] holds what it held at the start. *)
Theorem run_ends_completed_or_error (w : Run) (a : AppComponent) :
  let r := generateEbook w a in
  (ebookState (final r) = completed /\
   exists book,
     ebookWrites (events r) = [book] /\ ebook (final r) = Some book /\
     Ebook.chapters book <> [] /\
     current (generationProgress (final r)) = length (Ebook.chapters book) /\
     total (generationProgress (final r)) = length (Ebook.chapters book))
  \/
  (ebookState (final r) = error /\
   ebookWrites (events r) = [] /\ ebook (final r) = ebook a).
Proof.
  cbn zeta. destruct (Js.truthy (Js.trim (ebookTopic a))) eqn:Ht.
  - rewrite (generateEbook_phases w a Ht), bind_eq.
    destruct (outlinePhase_frame w (Js.trim (ebookTopic a)) a)
      as (B0 & T0 & G0 & E0 & C0 & M0 & P0 & V0 & R0).
    set (topic := Js.trim (ebookTopic a)) in *.
    set (r0 := outlinePhase w topic a) in *.
    destruct (usableChapters (result r0)) as [chs|] eqn:Hu.
    + left.
      assert (Hg : GeminiService.genAI (geminiService (final r0)) = true).
      { rewrite G0. destruct (GeminiService.genAI (geminiService a)); [reflexivity|].
        rewrite R0 in Hu. discriminate. }
      pose proof (usableChapters_nonempty _ Hu) as Hne.
      destruct (@chapterPhase_run w topic (result r0) chs (final r0) Hg Hne)
        as (S1 & B1 & T1 & C1 & PC1 & PT1 & pre & Ev & V1 & W1 & WT1 & M1 & E1 & F1 & N1).
      set (r1 := chapterPhase w topic (result r0) chs (final r0)) in *.
      cbn [result final events fst snd].
      split; [exact S1|].
      exists (Ebook.mk (tocTitle (result r0)) (assembled w 0 chs)).
      split.
      { unfold ebookWrites in *. rewrite Ev, !flat_map_app, E0, E1. reflexivity. }
      split; [exact B1|]. cbn [Ebook.chapters]. rewrite assembled_length.
      split; [|split; assumption].
      intros H. apply (f_equal (@length _)) in H. rewrite assembled_length in H.
      destruct chs; [congruence | discriminate].
    + right.
      unfold outlineFailure, ebookState_set, generationProgress_set, bind, modify, log;
        cbn [result final events fst snd app with_ebookState with_generationProgress
             ebook ebookState].
      split; [reflexivity|]. split; [|exact B0].
      unfold ebookWrites in *. rewrite flat_map_app, E0. reflexivity.
  - right. rewrite (generateEbook_blank w a Ht). cbn. repeat split; reflexivity.
Qed.

(** *** Export and effect *)

(** X7.  An export, started in whatever state, leaves the service, the
    ebook, the progress and the topic as they were, and calls the Content
    Provider never.  When the PDF pipeline reaches its callback, the method
    writes [exporting] and then [completed], [componentError] is [null] and
    one file is saved, named from the ebook's title; when the pipeline
    throws, it writes [exporting] and then [error], [componentError] holds
    the export message and no file is saved. *)
Theorem export_touches_only_state_and_message (a : AppComponent) (x : Export) :
  let r := exportToPdf x a in
  geminiService (final r) = geminiService a /\
  ebook (final r) = ebook a /\
  generationProgress (final r) = generationProgress a /\
  ebookTopic (final r) = ebookTopic a /\
  providerCalls (events r) = [] /\
  ebookWrites (events r) = [] /\
  progressWrites (events r) = [] /\
  match outcome x with
  | ExportSaved =>
      ebookState (final r) = completed /\
      componentError (final r) = None /\
      methodStateWrites (events r) = [exporting; completed] /\
      filter (fun e => match e with SavePdf _ => true | _ => false end) (events r)
      = [SavePdf (safeTitle (ebook a) ++ ".pdf")%string]
  | ExportThrew =>
      ebookState (final r) = error /\
      componentError (final r) = Some "An unexpected error occurred during PDF export." /\
      methodStateWrites (events r) = [exporting; error] /\
      filter (fun e => match e with SavePdf _ => true | _ => false end) (events r) = []
  end.
Proof.
  destruct a as [[g e] st pr eb tp ce pend], x as [o t f].
  unfold_ops. step_cases; repeat split; reflexivity.
Qed.

(** X8.  A run of the scheduled effects changes no signal but
    [ebookState], and that only to [error]: it does so exactly when the
    effect is scheduled and the provider's error signal holds a non-empty
    message.  Afterwards the effect is not scheduled, and running the
    effects again does nothing. *)
Theorem effect_only_writes_error (a : AppComponent) :
  let r := flushEffects a in
  geminiService (final r) = geminiService a /\
  generationProgress (final r) = generationProgress a /\
  ebook (final r) = ebook a /\
  ebookTopic (final r) = ebookTopic a /\
  componentError (final r) = componentError a /\
  effectPending (final r) = false /\
  ebookState (final r) =
    (if effectPending a && Js.truthy_opt (serviceError a) then error else ebookState a) /\
  events r =
    (if effectPending a && Js.truthy_opt (serviceError a)
     then [EffectSetEbookState error] else []) /\
  flushEffects (final r) = (tt, final r, []).
Proof.
  destruct a as [[g e] st pr eb tp ce pend].
  unfold_ops. step_cases; repeat split; reflexivity.
Qed.

(** *** The file name of the export *)

Section SafeTitle.
Import RegExp.

Lemma replaceFrom_class (p : ascii -> bool) (u : string) (l : list ascii) :
  forall pr,
  replaceFrom (Cls p) [TLit u] pr l 0 =
  flat_map (fun c => if p c then list_ascii_of_string u else [c]) l.
Proof.
  induction l as [|c t IH]; intros pr; [reflexivity|].
  cbn [replaceFrom flat_map]. unfold matchAt. cbn [run rest caps].
  destruct (p c).
  - cbn [expand caps rest].
    replace (length (c :: t) - length t) with 1 by (cbn [length]; lia).
    rewrite IH, app_nil_r. reflexivity.
  - rewrite IH. reflexivity.
Qed.

Lemma toLowerCase_list (l : list ascii) :
  toLowerCase (string_of_list_ascii l) = string_of_list_ascii (map toLowerCaseUnit l).
Proof. induction l as [|c t IH]; cbn; [reflexivity | rewrite IH; reflexivity]. Qed.

Lemma sanitize_list (l : list ascii) :
  toLowerCase (string_of_list_ascii
                 (replaceFrom (Cls (fun c => negb (isAlnum c))) [TLit "_"] None l 0))
  = string_of_list_ascii (map sanitizeUnit l).
Proof.
  rewrite replaceFrom_class, toLowerCase_list. f_equal.
  induction l as [|c t IH]; [reflexivity|].
  cbn [flat_map map]. rewrite map_app, IH. unfold sanitizeUnit at 2.
  destruct (isAlnum c); reflexivity.
Qed.

Lemma sanitizeUnit_fileName (c : ascii) : isFileNameUnit (sanitizeUnit c) = true.
Proof. destruct c as [[] [] [] [] [] [] [] []]; reflexivity. Qed.

Lemma sanitizeUnit_fixed (c : ascii) :
  isFileNameUnit c = true -> sanitizeUnit c = c.
Proof. destruct c as [[] [] [] [] [] [] [] []]; cbn; intros H; try reflexivity; discriminate. Qed.

Lemma safeTitle_map (b : Ebook.t) :
  safeTitle (Some b) =
  match list_ascii_of_string (Ebook.title b) with
  | [] => "ebook"
  | l => string_of_list_ascii (map sanitizeUnit l)
  end.
Proof.
  unfold safeTitle, replace. rewrite sanitize_list.
  destruct (list_ascii_of_string (Ebook.title b)); reflexivity.
Qed.

End SafeTitle.

Lemma length_string_of_list (l : list ascii) :
  String.length (string_of_list_ascii l) = length l.
Proof. induction l as [|c t IH]; cbn; [reflexivity | rewrite IH; reflexivity]. Qed.

Lemma map_sanitize_fileName (l : list ascii) :
  forallb isFileNameUnit (map sanitizeUnit l) = true.
Proof.
  induction l as [|c t IH]; [reflexivity|].
  cbn [map forallb]. rewrite sanitizeUnit_fileName, IH. reflexivity.
Qed.

Lemma map_sanitize_fixed (l : list ascii) :
  forallb isFileNameUnit l = true -> map sanitizeUnit l = l.
Proof.
  induction l as [|c t IH]; [reflexivity|].
  cbn [map forallb]. intros H. apply andb_true_iff in H as [Hc Ht].
  rewrite (sanitizeUnit_fixed _ Hc), (IH Ht). reflexivity.
Qed.

Lemma safeTitle_shape (e : option Ebook.t) :
  safeTitle e <> EmptyString /\
  forallb isFileNameUnit (list_ascii_of_string (safeTitle e)) = true.
Proof.
  destruct e as [b|]; [|split; [discriminate | reflexivity]].
  rewrite safeTitle_map.
  destruct (list_ascii_of_string (Ebook.title b)) as [|c t];
    [split; [discriminate | reflexivity]|].
  split; [cbn; discriminate|].
  rewrite list_ascii_of_string_of_list_ascii. apply map_sanitize_fileName.
Qed.

(** X9.  The name that the export gives the file (line 158): for a
    non-empty title, every letter or digit of the title in lower case and an
    underscore for every other code unit, so that it has the title's length;
    "ebook" when there is no ebook or its title is empty.  It is never empty,
    holds only digits, small letters and underscores, and sanitising it again
    gives it back. *)
Theorem safe_title_is_a_file_name (e : option Ebook.t) :
  safeTitle e =
    match e with
    | None => "ebook"
    | Some b =>
        match Ebook.title b with
        | EmptyString => "ebook"
        | title => string_of_list_ascii (map sanitizeUnit (list_ascii_of_string title))
        end
    end /\
  forallb isFileNameUnit (list_ascii_of_string (safeTitle e)) = true /\
  safeTitle e <> EmptyString /\
  String.length (safeTitle e) =
    match e with
    | None => 5
    | Some b => match Ebook.title b with
                | EmptyString => 5
                | title => String.length title
                end
    end /\
  forall chapters, safeTitle (Some (Ebook.mk (safeTitle e) chapters)) = safeTitle e.
Proof.
  destruct (safeTitle_shape e) as [Hne Hall].
  assert (Hmap : safeTitle e =
                 match e with
                 | None => "ebook"
                 | Some b =>
                     match Ebook.title b with
                     | EmptyString => "ebook"
                     | title =>
                         string_of_list_ascii (map sanitizeUnit (list_ascii_of_string title))
                     end
                 end).
  { destruct e as [b|]; [|reflexivity]. rewrite safeTitle_map.
    destruct (Ebook.title b); reflexivity. }
  split; [exact Hmap|]. split; [exact Hall|]. split; [exact Hne|].
  split.
  - rewrite Hmap. destruct e as [b|]; [|reflexivity].
    destruct (Ebook.title b) as [|c t]; [reflexivity|].
    rewrite <- (string_of_list_ascii_of_string (String c t)) at 2.
    rewrite !length_string_of_list. apply length_map.
  - intros chapters. rewrite safeTitle_map. cbn [Ebook.title].
    destruct (list_ascii_of_string (safeTitle e)) as [|c t] eqn:E.
    + exfalso. apply Hne. rewrite <- (string_of_list_ascii_of_string (safeTitle e)), E.
      reflexivity.
    + rewrite (map_sanitize_fixed _ Hall), <- E.
      apply string_of_list_ascii_of_string.
Qed.

(** *** What a run reads *)

Lemma outlinePhase_inputs (w : Run) (topic : string) (a b : AppComponent) :
  sameInputs a b ->
  events (outlinePhase w topic a) = events (outlinePhase w topic b) /\
  result (outlinePhase w topic a) = result (outlinePhase w topic b) /\
  sameInputs (final (outlinePhase w topic a)) (final (outlinePhase w topic b)) /\
  ebookState (final (outlinePhase w topic a)) = ebookState (final (outlinePhase w topic b)) /\
  generationProgress (final (outlinePhase w topic a))
  = generationProgress (final (outlinePhase w topic b)) /\
  componentError (final (outlinePhase w topic a))
  = componentError (final (outlinePhase w topic b)).
Proof.
  destruct a as [[g e] st pr eb tp ce pend], b as [[g' e'] st' pr' eb' tp' ce' pend'].
  unfold sameInputs. cbn. intros (Hs & Ht & Hp). injection Hs as -> ->. subst tp' pend'.
  unfold_ops. step_cases; repeat split; reflexivity.
Qed.

Lemma generateChapter_inputs (w : Run) (topic : string) (tot i : nat)
      (c : ChapterSpec.t) (a b : AppComponent) :
  sameSignals a b ->
  events (generateChapter w topic tot i c a) = events (generateChapter w topic tot i c b) /\
  result (generateChapter w topic tot i c a) = result (generateChapter w topic tot i c b) /\
  sameSignals (final (generateChapter w topic tot i c a))
              (final (generateChapter w topic tot i c b)).
Proof.
  destruct a as [[g e] st pr eb tp ce pend], b as [[g' e'] st' pr' eb' tp' ce' pend'].
  unfold sameSignals, sameInputs. cbn. intros ((Hs & Ht & Hp) & Hpr & Hst & Hce).
  injection Hs as -> ->. subst tp' pend' pr' st' ce'.
  unfold_ops. step_cases; repeat split; reflexivity.
Qed.

Lemma generateChapters_inputs (w : Run) (topic : string) (tot : nat) (chs : list ChapterSpec.t) :
  forall (i : nat) (acc : list Chapter.t) (a b : AppComponent),
  sameSignals a b ->
  events (generateChapters w topic tot i chs acc a)
  = events (generateChapters w topic tot i chs acc b) /\
  result (generateChapters w topic tot i chs acc a)
  = result (generateChapters w topic tot i chs acc b) /\
  sameSignals (final (generateChapters w topic tot i chs acc a))
              (final (generateChapters w topic tot i chs acc b)).
Proof.
  induction chs as [|c t IH]; intros i acc a b Hab.
  - cbn. repeat split; try reflexivity; apply Hab.
  - cbn [generateChapters]. rewrite !bind_eq. cbn [result final events fst snd].
    destruct (generateChapter_inputs w topic tot i c Hab) as (E1 & R1 & S1).
    rewrite R1.
    destruct (IH (S i) (acc ++ [result (generateChapter w topic tot i c b)]) _ _ S1)
      as (E2 & R2 & S2).
    rewrite E1, E2, R2. repeat split; try reflexivity; apply S2.
Qed.

(** X10.  A run reads nothing of what an earlier run left in
    [ebookState], [generationProgress], [ebook] and [componentError]: two
    components with the same service, topic and scheduled effect go through
    the same writes and provider calls and end with the same [ebookState],
    [componentError] and service. *)
Theorem run_ignores_previous_outcome (w : Run) (a b : AppComponent) :
  geminiService a = geminiService b ->
  ebookTopic a = ebookTopic b ->
  effectPending a = effectPending b ->
  events (generateEbook w a) = events (generateEbook w b) /\
  ebookState (final (generateEbook w a)) = ebookState (final (generateEbook w b)) /\
  componentError (final (generateEbook w a)) = componentError (final (generateEbook w b)) /\
  geminiService (final (generateEbook w a)) = geminiService (final (generateEbook w b)).
Proof.
  intros Hs Ht Hp.
  assert (Hab : sameInputs a b) by (repeat split; assumption).
  destruct (Js.truthy (Js.trim (ebookTopic a))) eqn:Hta.
  - pose proof Hta as Htb. rewrite Ht in Htb.
    rewrite (generateEbook_phases w a Hta), (generateEbook_phases w b Htb), !bind_eq.
    rewrite <- Ht.
    destruct (outlinePhase_inputs w (Js.trim (ebookTopic a)) Hab)
      as (E0 & R0 & S0 & St0 & P0 & C0).
    set (ra := outlinePhase w (Js.trim (ebookTopic a)) a) in *.
    set (rb := outlinePhase w (Js.trim (ebookTopic a)) b) in *.
    rewrite <- R0. cbn [result final events fst snd]. rewrite E0.
    destruct (usableChapters (result ra)) as [chs|].
    + unfold chapterPhase. rewrite !bind_eq. cbn [result final events fst snd].
      assert (S1 : sameSignals
                     (final (generationProgress_set (outlineReadyProgress (length chs)) (final ra)))
                     (final (generationProgress_set (outlineReadyProgress (length chs)) (final rb)))).
      { destruct (final ra) as [[g e] st pr eb tp ce pend],
                 (final rb) as [[g' e'] st' pr' eb' tp' ce' pend'].
        unfold sameInputs in S0. cbn in *. destruct S0 as (S0a & S0b & S0c).
        repeat split; assumption. }
      destruct (generateChapters_inputs w (Js.trim (ebookTopic a)) (length chs) chs 0 [] S1)
        as (E2 & R2 & ((G2 & _) & _ & _ & C2)).
      rewrite ?bind_eq. cbn [result final events fst snd].
      rewrite E2, R2.
      assert (E1 : events (generationProgress_set (outlineReadyProgress (length chs)) (final ra))
                   = events (generationProgress_set (outlineReadyProgress (length chs)) (final rb)))
        by reflexivity.
      rewrite E1.
      repeat split; try reflexivity.
      * unfold ebook_set, ebookState_set, bind, modify, log. cbn. exact C2.
      * unfold ebook_set, ebookState_set, bind, modify, log. cbn. exact G2.
    + unfold outlineFailure, ebookState_set, generationProgress_set, bind, modify, log.
      cbn. repeat split; try reflexivity; [exact C0 | apply S0].
  - pose proof Hta as Htb. rewrite Ht in Htb.
    rewrite (generateEbook_blank w a Hta), (generateEbook_blank w b Htb). cbn.
    repeat split; try reflexivity. exact Hs.
Qed.

Lemma run_ignores_previous_outcome_witness :
  let again := final (generateEbook lazyRun exampleComponent) in
  ebookState again = completed /\
  events (generateEbook eagerRun again) = events (generateEbook eagerRun exampleComponent).
Proof.
  cbn zeta. split; [reflexivity|].
  refine (proj1 (@run_ignores_previous_outcome eagerRun
                   (final (generateEbook lazyRun exampleComponent)) exampleComponent _ _ _));
    reflexivity.
Defined.

(** *** The topic that the provider sees *)

Lemma trimStart_head (l : list ascii) : startsWithSpace (Js.trimStart l) = false.
Proof.
  induction l as [|c t IH]; [reflexivity|].
  cbn [Js.trimStart]. destruct (Js.isWhiteSpace c) eqn:E; [exact IH | cbn; exact E].
Qed.

Lemma trimStart_suffix (l : list ascii) : exists ws, l = ws ++ Js.trimStart l.
Proof.
  induction l as [|c t [ws E]]; [exists []; reflexivity|].
  cbn [Js.trimStart]. destruct (Js.isWhiteSpace c).
  - exists (c :: ws). cbn. rewrite <- E. reflexivity.
  - exists []. reflexivity.
Qed.

Lemma startsWithSpace_rev_app (ws l : list ascii) :
  l <> [] -> startsWithSpace (rev (ws ++ l)) = startsWithSpace (rev l).
Proof.
  intros Hl. rewrite rev_app_distr.
  destruct (rev l) as [|c t] eqn:E; [|reflexivity].
  apply (f_equal (@rev ascii)) in E. rewrite rev_involutive in E. cbn in E. congruence.
Qed.

Lemma trim_isTrimmed (s : string) : isTrimmed (Js.trim s) = true.
Proof.
  unfold isTrimmed, Js.trim, Js.trimEnd. rewrite list_ascii_of_string_of_list_ascii.
  set (l1 := Js.trimStart (list_ascii_of_string s)).
  rewrite rev_involutive, trimStart_head, andb_true_r.
  destruct (trimStart_suffix (rev l1)) as [ws E].
  destruct (Js.trimStart (rev l1)) as [|c t] eqn:E2; [reflexivity|].
  assert (H : startsWithSpace (rev (rev l1)) = startsWithSpace (rev (c :: t))).
  { rewrite E. apply startsWithSpace_rev_app. discriminate. }
  rewrite rev_involutive in H. rewrite <- H. unfold l1. rewrite trimStart_head. reflexivity.
Qed.

Lemma callTopics_providerCalls (l : list Event) :
  callTopics (providerCalls l) = callTopics l.
Proof.
  induction l as [|e t IH]; [reflexivity|].
  unfold callTopics, providerCalls in *. destruct e; cbn; rewrite ?IH; reflexivity.
Qed.

Lemma callTopics_fetches (w : Run) (topic : string) (chs : list ChapterSpec.t) :
  forall i, callTopics (fetches w topic i chs) = repeat topic (length chs).
Proof.
  induction chs as [|c t IH]; intros i; [reflexivity|].
  cbn. unfold callTopics in IH. rewrite IH. reflexivity.
Qed.

(** X11.  In every run, each call into the Content Provider, for the
    outline and for every chapter, is made with the topic as trimmed at the
    start of the run: it is not empty and neither starts nor ends with white
    space. *)
Theorem provider_sees_the_trimmed_topic (w : Run) (a : AppComponent) :
  let r := generateEbook w a in
  Forall (fun topic => topic = Js.trim (ebookTopic a) /\
                       Js.truthy topic = true /\ isTrimmed topic = true)
         (callTopics (events r)).
Proof.
  cbn zeta. destruct (Js.truthy (Js.trim (ebookTopic a))) eqn:Ht.
  - assert (Hall : forall n, Forall (fun topic => topic = Js.trim (ebookTopic a) /\
                                       Js.truthy topic = true /\ isTrimmed topic = true)
                                    (repeat (Js.trim (ebookTopic a)) n)).
    { intros n. apply Forall_forall. intros x Hx. apply repeat_spec in Hx. subst x.
      split; [reflexivity|]. split; [exact Ht | apply trim_isTrimmed]. }
    rewrite (generateEbook_phases w a Ht), bind_eq.
    destruct (outlinePhase_frame w (Js.trim (ebookTopic a)) a)
      as (B0 & T0 & G0 & E0 & C0 & M0 & P0 & V0 & R0).
    set (topic := Js.trim (ebookTopic a)) in *.
    set (r0 := outlinePhase w topic a) in *.
    cbn [result final events fst snd].
    rewrite <- callTopics_providerCalls. unfold providerCalls. rewrite filter_app.
    fold (providerCalls (events r0)). rewrite V0.
    destruct (usableChapters (result r0)) as [chs|] eqn:Hu.
    + assert (Hg : GeminiService.genAI (geminiService (final r0)) = true).
      { rewrite G0. destruct (GeminiService.genAI (geminiService a)); [reflexivity|].
        rewrite R0 in Hu. discriminate. }
      destruct (@chapterPhase_run w topic (result r0) chs (final r0) Hg
                  (usableChapters_nonempty _ Hu))
        as (_ & _ & _ & _ & _ & _ & pre & Ev & V1 & _).
      rewrite Ev, filter_app. fold (providerCalls pre). rewrite V1.
      cbn [filter isProviderEvent app]. rewrite app_nil_r.
      unfold callTopics. cbn [flat_map app]. fold (callTopics (fetches w topic 0 chs)).
      rewrite callTopics_fetches.
      exact (Hall (S (length chs))).
    + unfold outlineFailure, ebookState_set, generationProgress_set, bind, modify, log.
      cbn. exact (Hall 1).
  - rewrite (generateEbook_blank w a Ht). cbn. constructor.
Qed.

(* ================================================================== *)
(** ** The matcher: its matches, whatever the order of the search *)

Section Matcher.
Import RegExp Markdown.

Lemma star_matches (g : bool) (r : regex) :
  (forall k s x, run r k s = Some x -> exists s', matches r s s' /\ k s' = Some x) ->
  forall fuel k s x,
  star (run r) g fuel k s = Some x ->
  exists s', matches (Star g r) s s' /\ k s' = Some x.
Proof.
  intros IHr. induction fuel as [|f IH]; intros k s x H; cbn [star] in H.
  - exists s. split; [constructor | exact H].
  - assert (Hmore : forall y,
               run r (fun s' => if length (rest s') <? length (rest s)
                                then star (run r) g f k s' else None) s = Some y ->
               exists s', matches (Star g r) s s' /\ k s' = Some y).
    { intros y Hy. apply IHr in Hy as (s1 & R1 & Hy).
      destruct (length (rest s1) <? length (rest s)); [|discriminate].
      apply IH in Hy as (s' & R' & Hk). exists s'. split; [|exact Hk].
      exact (matches_star_more R1 R'). }
    assert (Hnow : forall y, k s = Some y ->
                             exists s', matches (Star g r) s s' /\ k s' = Some y).
    { intros y Hy. exists s. split; [constructor | exact Hy]. }
    destruct g.
    + destruct (run r _ s) as [y|] eqn:E.
      * injection H as <-. exact (Hmore y eq_refl).
      * exact (Hnow x H).
    + destruct (k s) as [y|] eqn:E.
      * injection H as <-. exact (Hnow y eq_refl).
      * exact (Hmore x H).
Qed.

Lemma run_matches (r : regex) :
  forall k s x, run r k s = Some x -> exists s', matches r s s' /\ k s' = Some x.
Proof.
  induction r as [|p| | |r1 IH1 r2 IH2|r1 IH1 r2 IH2|g r1 IH1|j r1 IH1];
    intros k s x H; cbn [run] in H.
  - exists s. split; [constructor | exact H].
  - destruct (rest s) as [|c t] eqn:E; [discriminate|].
    destruct (p c) eqn:Hp; [|discriminate].
    eexists. split; [|exact H]. apply matches_cls; assumption.
  - destruct (atBol s) eqn:E; [|discriminate].
    exists s. split; [constructor; exact E | exact H].
  - destruct (atEol s) eqn:E; [|discriminate].
    exists s. split; [constructor; exact E | exact H].
  - apply IH1 in H as (s1 & M1 & H). apply IH2 in H as (s2 & M2 & H).
    exists s2. split; [exact (matches_seq M1 M2) | exact H].
  - destruct (run r1 k s) as [y|] eqn:E.
    + injection H as <-. apply IH1 in E as (s' & R & Hk).
      exists s'. split; [apply matches_alt_l; exact R | exact Hk].
    + apply IH2 in H as (s' & R & Hk).
      exists s'. split; [apply matches_alt_r; exact R | exact Hk].
  - exact (star_matches g IH1 _ _ _ H).
  - apply IH1 in H as (s1 & M1 & H).
    exists (closeGroup j s s1). split; [constructor; exact M1 | exact H].
Qed.

Lemma matchAt_matches (r : regex) (p : option ascii) (input : list ascii) (m : mstate) :
  matchAt r p input = Some m -> matches r (MState p input []) m.
Proof.
  unfold matchAt. intros H. apply run_matches in H as (s' & M & E).
  injection E as <-. exact M.
Qed.

Lemma matches_rest (r : regex) (s s' : mstate) :
  matches r s s' -> exists c, rest s = c ++ rest s'.
Proof.
  induction 1 as [s|p c t s E Hp|s E|s E|r1 r2 s s1 s2 _ [c1 E1] _ [c2 E2]
                  |r1 r2 s s' _ IH|r1 r2 s s' _ IH|g r s
                  |g r s s1 s2 _ [c1 E1] _ [c2 E2]|i r s s1 _ IH];
    try (exists []; reflexivity); try exact IH.
  - exists [c]. exact E.
  - exists (c1 ++ c2). rewrite E1, E2, app_assoc. reflexivity.
  - exists (c1 ++ c2). rewrite E1, E2, app_assoc. reflexivity.
Qed.

Lemma matches_first (r : regex) (s s' : mstate) :
  matches r s s' ->
  (nullable r = true /\ rest s' = rest s) \/
  (exists c t, rest s = c :: t /\ firstOf r c = true).
Proof.
  induction 1 as [s|p c t s E Hp|s E|s E|r1 r2 s s1 s2 _ IH1 _ IH2
                  |r1 r2 s s' _ IH|r1 r2 s s' _ IH|g r s
                  |g r s s1 s2 _ IH1 _ IH2|i r s s1 _ IH]; cbn [nullable firstOf].
  - left. split; reflexivity.
  - right. exists c, t. split; assumption.
  - left. split; reflexivity.
  - left. split; reflexivity.
  - destruct IH1 as [[N1 E1] | (c & t & E & F)].
    + destruct IH2 as [[N2 E2] | (c & t & E & F)].
      * left. rewrite N1, N2, E2, E1. split; reflexivity.
      * right. exists c, t. rewrite <- E1, N1, F, orb_true_r. split; [exact E | reflexivity].
    + right. exists c, t. rewrite F. split; [exact E | reflexivity].
  - destruct IH as [[N E] | (c & t & E & F)].
    + left. rewrite N. split; [reflexivity | exact E].
    + right. exists c, t. rewrite F. split; [exact E | reflexivity].
  - destruct IH as [[N E] | (c & t & E & F)].
    + left. rewrite N, orb_true_r. split; [reflexivity | exact E].
    + right. exists c, t. rewrite F, orb_true_r. split; [exact E | reflexivity].
  - left. split; reflexivity.
  - destruct IH1 as [[N1 E1] | (c & t & E & F)].
    + destruct IH2 as [[N2 E2] | (c & t & E & F)].
      * left. rewrite E2, E1. split; reflexivity.
      * right. exists c, t. rewrite <- E1. split; [exact E | exact F].
    + right. exists c, t. split; [exact E | exact F].
  - exact IH.
Qed.

(** A pattern that must read something, at a code unit none of its matches
    starts with. *)
Lemma matchAt_first (r : regex) (p : option ascii) (input : list ascii) :
  nullable r = false ->
  match input with
  | [] => True
  | c :: _ => firstOf r c = false
  end ->
  matchAt r p input = None.
Proof.
  intros Hn Hc. destruct (matchAt r p input) as [m|] eqn:E; [|reflexivity].
  apply matchAt_matches, matches_first in E as [[N _] | (c & t & E & F)].
  - congruence.
  - cbn in E. subst input. congruence.
Qed.

Lemma replaceFrom_region (r : regex) (tpl : list titem) (x z : list ascii) :
  nullable r = false ->
  forallb (fun c => negb (firstOf r c)) x = true ->
  forall p, replaceFrom r tpl p (x ++ z) 0 = x ++ replaceFrom r tpl (lastOr p x) z 0.
Proof.
  intros Hn. induction x as [|c t IH]; intros Hx p; [reflexivity|].
  cbn [forallb] in Hx. apply andb_true_iff in Hx as [Hc Ht].
  apply negb_true_iff in Hc.
  change ((c :: t) ++ z) with (c :: t ++ z). cbn [replaceFrom].
  rewrite (@matchAt_first r p (c :: t ++ z) Hn Hc).
  rewrite (IH Ht). reflexivity.
Qed.

Lemma replaceFrom_end (r : regex) (tpl : list titem) (p : option ascii) :
  nullable r = false -> replaceFrom r tpl p [] 0 = [].
Proof.
  intros Hn. cbn [replaceFrom]. rewrite (@matchAt_first r p [] Hn I). reflexivity.
Qed.

Lemma replace_no_first (r : regex) (tpl : list titem) (s : string) :
  nullable r = false ->
  forallb (fun c => negb (firstOf r c)) (list_ascii_of_string s) = true ->
  replace r tpl s = s.
Proof.
  intros Hn Hs. unfold replace.
  rewrite <- (app_nil_r (list_ascii_of_string s)).
  rewrite (@replaceFrom_region r tpl _ [] Hn Hs), (@replaceFrom_end r tpl _ Hn), app_nil_r.
  apply string_of_list_ascii_of_string.
Qed.

Lemma matches_within (P : ascii -> bool) (r : regex) (s s' : mstate) :
  matches r s s' ->
  forallb P (rest s) = true -> capsWithin P (caps s) = true ->
  forallb P (rest s') = true /\ capsWithin P (caps s') = true.
Proof.
  induction 1 as [s|p c t s E Hp|s E|s E|r1 r2 s s1 s2 _ IH1 _ IH2
                  |r1 r2 s s' _ IH|r1 r2 s s' _ IH|g r s
                  |g r s s1 s2 _ IH1 _ IH2|i r s s1 M IH]; intros Hr Hc;
    try (split; assumption); try (apply IH; assumption).
  - cbn [rest caps]. rewrite E in Hr. cbn [forallb] in Hr.
    apply andb_true_iff in Hr as [_ Ht]. split; assumption.
  - destruct (IH1 Hr Hc) as [Hr1 Hc1]. exact (IH2 Hr1 Hc1).
  - destruct (IH1 Hr Hc) as [Hr1 Hc1]. exact (IH2 Hr1 Hc1).
  - destruct (IH Hr Hc) as [Hr1 Hc1]. cbn [closeGroup rest caps].
    split; [exact Hr1|]. unfold capsWithin. cbn [forallb snd].
    fold (capsWithin P (caps s1)). rewrite Hc1, andb_true_r.
    destruct (matches_rest M) as [c E]. rewrite (@consumed_app s s1 c E).
    rewrite E, forallb_app in Hr. apply andb_true_iff in Hr as [Hc0 _]. exact Hc0.
Qed.

Lemma capture_within (P : ascii -> bool) (i : nat) (cs : list (nat * list ascii)) :
  capsWithin P cs = true -> forallb P (capture i cs) = true.
Proof.
  induction cs as [|[j v] t IH]; [reflexivity|].
  unfold capsWithin. cbn [forallb snd capture]. intros H.
  apply andb_true_iff in H as [Hv Ht].
  destruct (i =? j); [exact Hv | exact (IH Ht)].
Qed.

Lemma expand_within (P : ascii -> bool) (tpl : list titem) (cs : list (nat * list ascii)) :
  forallb (itemWithin P) tpl = true -> capsWithin P cs = true ->
  forallb P (expand tpl cs) = true.
Proof.
  induction tpl as [|[u|i] t IH]; cbn [forallb expand itemWithin]; intros Ht Hc;
    [reflexivity | |].
  - apply andb_true_iff in Ht as [Hu Ht]. rewrite forallb_app, Hu. exact (IH Ht Hc).
  - rewrite forallb_app, (capture_within P i cs Hc). exact (IH Ht Hc).
Qed.

Lemma replaceFrom_within (P : ascii -> bool) (r : regex) (tpl : list titem) :
  forallb (itemWithin P) tpl = true ->
  forall input p skip,
  forallb P input = true ->
  forallb P (replaceFrom r tpl p input skip) = true.
Proof.
  intros Ht. induction input as [|c t IH]; intros p skip Hi.
  - destruct skip; [|reflexivity]. cbn [replaceFrom].
    destruct (matchAt r p []) as [m|] eqn:E; [|reflexivity].
    apply matchAt_matches in E.
    destruct (matches_within P E eq_refl eq_refl) as [_ Hc].
    exact (expand_within P tpl (caps m) Ht Hc).
  - pose proof Hi as Hi'. cbn [forallb] in Hi'. apply andb_true_iff in Hi' as [Hc Htl].
    destruct skip as [|n]; cbn [replaceFrom]; [|exact (IH _ _ Htl)].
    destruct (matchAt r p (c :: t)) as [m|] eqn:E.
    + apply matchAt_matches in E.
      destruct (matches_within P E Hi eq_refl) as [_ Hcs].
      rewrite forallb_app, (expand_within P tpl (caps m) Ht Hcs).
      destruct (length (c :: t) - length (rest m)); [|exact (IH _ _ Htl)].
      cbn [forallb]. rewrite Hc. exact (IH _ _ Htl).
    + cbn [forallb]. rewrite Hc. exact (IH _ _ Htl).
Qed.

Lemma replace_within (P : ascii -> bool) (r : regex) (tpl : list titem) (s : string) :
  forallb (itemWithin P) tpl = true ->
  forallb P (list_ascii_of_string s) = true ->
  forallb P (list_ascii_of_string (replace r tpl s)) = true.
Proof.
  intros Ht Hs. unfold replace. rewrite list_ascii_of_string_of_list_ascii.
  exact (replaceFrom_within P r tpl Ht _ None 0 Hs).
Qed.

End Matcher.

(* ================================================================== *)
(** ** Line terminators in the result *)

Section LineTerminators.
Import RegExp Markdown.

Lemma br_leaves_no_line_feed (s : string) :
  forallb notLF (list_ascii_of_string (replace re_br tpl_br s)) = true.
Proof.
  unfold replace, re_br, tpl_br, Chr.
  rewrite list_ascii_of_string_of_list_ascii, replaceFrom_class.
  induction (list_ascii_of_string s) as [|c t IH]; [reflexivity|].
  cbn [flat_map]. rewrite forallb_app, IH, andb_true_r.
  destruct (Ascii.eqb Js.LF c) eqn:E; [reflexivity|].
  cbn. unfold notLF. rewrite Ascii.eqb_sym, E. reflexivity.
Qed.

Lemma lists_within (P : ascii -> bool) (html : string) :
  forallb (itemWithin P) (tpl_li ++ tpl_ul ++ tpl_merge) = true ->
  forallb P (list_ascii_of_string html) = true ->
  forallb P (list_ascii_of_string (lists html)) = true.
Proof.
  intros Ht H. unfold lists.
  rewrite !forallb_app in Ht.
  apply andb_true_iff in Ht as [T1 Ht]. apply andb_true_iff in Ht as [T2 T3].
  apply replace_within; [exact T3|].
  apply replace_within; [exact T2|].
  apply replace_within; [exact T1 | exact H].
Qed.

Lemma wrapped_within (P : ascii -> bool) (text : string) :
  forallb P (list_ascii_of_string (openTag "p" paragraphClass ++ closeTag "p")) = true ->
  forallb P (list_ascii_of_string (lists (inlines (headings text)))) = true ->
  forallb P (list_ascii_of_string (parseMarkdown text)) = true.
Proof.
  intros Hw Hh. unfold parseMarkdown.
  destruct (negb (Js.truthy text)); [reflexivity|].
  cbv zeta. rewrite !list_of_append, !forallb_app in *.
  apply andb_true_iff in Hw as [Ho Hc]. rewrite Ho, Hh, Hc. reflexivity.
Qed.

Lemma no_terminator (l : list ascii) :
  forallb notLF l = true -> forallb notCR l = true -> forallb notLT l = true.
Proof.
  intros HLF HCR. rewrite forallb_forall in *. intros c Hc.
  specialize (HLF c Hc). specialize (HCR c Hc).
  unfold notLF, notCR, notLT, Js.isLineTerminator in *.
  apply negb_true_iff in HLF, HCR. rewrite HLF, HCR. reflexivity.
Qed.

Lemma before_lists_single_line (text : string) :
  forallb notCR (list_ascii_of_string text) = true ->
  isSingleLine (inlines (headings text)) = true.
Proof.
  intros Hcr. apply no_terminator.
  - unfold inlines. apply br_leaves_no_line_feed.
  - unfold inlines, headings.
    repeat (apply replace_within; [reflexivity|]). exact Hcr.
Qed.

(** X12.  The HTML that [parseMarkdown] hands back never holds a line
    feed, whatever the text; and it holds a carriage return only if the text
    does: no substitution brings one in. *)
Theorem rendering_leaves_no_line_feed (text : string) :
  forallb notLF (list_ascii_of_string (parseMarkdown text)) = true /\
  (forallb notCR (list_ascii_of_string text) = true ->
   forallb notCR (list_ascii_of_string (parseMarkdown text)) = true).
Proof.
  assert (HLF : forallb notLF (list_ascii_of_string (parseMarkdown text)) = true).
  { apply wrapped_within; [reflexivity|].
    apply lists_within; [reflexivity|].
    unfold inlines. apply br_leaves_no_line_feed. }
  split; [exact HLF|]. intros Hcr.
  assert (HCR : forallb notCR (list_ascii_of_string (parseMarkdown text)) = true).
  { apply wrapped_within; [reflexivity|].
    apply lists_within; [reflexivity|].
    unfold inlines, headings.
    repeat (apply replace_within; [reflexivity|]). exact Hcr. }
  exact HCR.
Qed.

Lemma rendering_leaves_no_line_feed_witness :
  forallb notLF
    (list_ascii_of_string
       (parseMarkdown ("# Title" ++ Js.nl ++ Js.nl ++ "- a" ++ Js.nl ++ "text")%string))
  = true /\
  forallb notCR
    (list_ascii_of_string
       (parseMarkdown ("# Title" ++ Js.nl ++ Js.nl ++ "- a" ++ Js.nl ++ "text")%string))
  = true.
Proof.
  split.
  - exact (proj1 (rendering_leaves_no_line_feed _)).
  - refine (proj2 (rendering_leaves_no_line_feed _) _). reflexivity.
Defined.

End LineTerminators.

(* ================================================================== *)
(** ** Line breaks, and text without markup *)

Section Prose.
Import RegExp Markdown.

Lemma matchAt_para (p : option ascii) (l : list ascii) :
  matchAt re_para p l =
  match l with
  | c :: c2 :: t2 =>
      if Ascii.eqb Js.LF c && Ascii.eqb Js.LF c2
      then Some (MState (Some c2) t2 []) else None
  | _ => None
  end.
Proof.
  unfold matchAt, re_para, Chr. cbn [Cat fold_right run rest caps].
  destruct l as [|c [|c2 t2]]; [reflexivity | |].
  - destruct (Ascii.eqb Js.LF c); reflexivity.
  - destruct (Ascii.eqb Js.LF c); [|reflexivity]. cbn [rest caps andb].
    destruct (Ascii.eqb Js.LF c2); reflexivity.
Qed.

Lemma para_then_br (n : nat) :
  forall (l : list ascii) (p : option ascii),
  length l <= n ->
  flat_map brUnit (replaceFrom re_para tpl_para p l 0) = breaks l.
Proof.
  induction n as [|n IH]; intros l p Hn.
  - destruct l; [reflexivity | cbn in Hn; lia].
  - destruct l as [|c t]; [reflexivity|].
    cbn [length] in Hn.
    cbn [replaceFrom breaks]. rewrite matchAt_para.
    rewrite (Ascii.eqb_sym c Js.LF).
    destruct t as [|c2 t2].
    + cbn [flat_map]. rewrite (IH [] (Some c)) by (cbn; lia).
      unfold brUnit, lineBreak. destruct (Ascii.eqb Js.LF c); reflexivity.
    + rewrite (Ascii.eqb_sym c2 Js.LF).
      destruct (Ascii.eqb Js.LF c) eqn:Ec; cbn [andb].
      * destruct (Ascii.eqb Js.LF c2) eqn:Ec2.
        -- cbn [rest caps].
           replace (length (c :: c2 :: t2) - length t2) with 2 by (cbn [length]; lia).
           cbn [replaceFrom]. rewrite flat_map_app.
           rewrite (IH t2 (Some c2)) by (cbn [length] in Hn; lia).
           reflexivity.
        -- cbn [flat_map]. unfold brUnit at 1. rewrite Ec.
           rewrite (IH (c2 :: t2) (Some c)) by lia. reflexivity.
      * cbn [flat_map]. unfold brUnit at 1. rewrite Ec.
        rewrite (IH (c2 :: t2) (Some c)) by lia. reflexivity.
Qed.

Lemma breaks_refines (s : string) :
  replace re_br tpl_br (replace re_para tpl_para s)
  = string_of_list_ascii (breaks (list_ascii_of_string s)).
Proof.
  unfold replace at 1. unfold re_br, tpl_br, Chr. rewrite replaceFrom_class.
  unfold replace. rewrite list_ascii_of_string_of_list_ascii.
  f_equal. exact (@para_then_br _ _ None (le_n _)).
Qed.

(** *** The list patterns match only where their literal parts stand *)

Lemma hasListMarker_app (pre : list ascii) (d : ascii) (t : list ascii) :
  dashOrStar d = true -> hasListMarker (pre ++ d :: " "%char :: t) = true.
Proof.
  intros Hd. induction pre as [|c pre IH]; cbn [app hasListMarker nextIsSpace].
  - rewrite Hd. reflexivity.
  - rewrite IH. apply orb_true_r.
Qed.

Lemma li_needs_marker (p : option ascii) (input : list ascii) (m : mstate) :
  matchAt re_li p input = Some m -> hasListMarker input = true.
Proof.
  intros H. apply matchAt_matches in H. unfold re_li in H. cbn [Cat fold_right] in H.
  inversion H as [| | | |r1 r2 s0 s1 s5 MA H1| | | | |]; subst; clear H.
  inversion H1 as [| | | |r1 r2 s0 s2 s5' MB H2| | | | |]; subst; clear H1.
  inversion H2 as [| | | |r1 r2 s0 s3 s5' MC H3| | | | |]; subst; clear H2.
  inversion H3 as [| | | |r1 r2 s0 s4 s5' MD _| | | | |]; subst; clear H3.
  destruct (matches_rest MA) as [cA EA]. destruct (matches_rest MB) as [cB EB].
  inversion MC as [|q d t s0 Ed Hd| | | | | | | |]; subst; clear MC.
  unfold Lit, Chr in MD.
  inversion MD as [|q sp t' s0 Es Hs| | | | | | | |]; subst; clear MD.
  cbn [rest] in *. apply Ascii.eqb_eq in Hs. subst sp.
  rewrite EA, EB, Ed, Es, app_assoc. apply hasListMarker_app. exact Hd.
Qed.

Lemma hasListMarker_tail (c : ascii) (t : list ascii) :
  hasListMarker (c :: t) = false -> hasListMarker t = false.
Proof. cbn [hasListMarker]. intros H. apply orb_false_iff in H as [_ H]. exact H. Qed.

Lemma li_unchanged (l : list ascii) :
  hasListMarker l = false ->
  forall p, replaceFrom re_li tpl_li p l 0 = l.
Proof.
  induction l as [|c t IH]; intros Hl p.
  - cbn [replaceFrom].
    destruct (matchAt re_li p []) as [m|] eqn:E; [|reflexivity].
    apply li_needs_marker in E. discriminate.
  - cbn [replaceFrom].
    destruct (matchAt re_li p (c :: t)) as [m|] eqn:E.
    + apply li_needs_marker in E. congruence.
    + rewrite (IH (hasListMarker_tail _ _ Hl)). reflexivity.
Qed.

Lemma ul_starts : startsWithLiteral re_ul "<li>".
Proof.
  intros p l H. unfold matchAt, re_ul. cbn [Cat fold_right run].
  apply run_Lit_fail. exact H.
Qed.

Lemma merge_starts : startsWithLiteral re_merge "</ul>".
Proof.
  intros p l H. unfold matchAt, re_merge. cbn [Cat fold_right run].
  apply run_Lit_fail. exact H.
Qed.

Lemma literal_absent (r : regex) (tpl : list titem) (m : string) :
  startsWithLiteral r m ->
  forall l p, occurs (list_ascii_of_string m) l = false -> replaceFrom r tpl p l 0 = l.
Proof.
  intros Hr. induction l as [|c t IH]; intros p Ho.
  - cbn [replaceFrom]. cbn [occurs] in Ho.
    destruct (stripPrefix (list_ascii_of_string m) []) eqn:E; [discriminate|].
    rewrite (Hr p [] E). reflexivity.
  - cbn [replaceFrom]. cbn [occurs] in Ho.
    destruct (stripPrefix (list_ascii_of_string m) (c :: t)) eqn:E; [discriminate|].
    rewrite (Hr p (c :: t) E), (IH _ Ho). reflexivity.
Qed.

Lemma lists_unchanged (html : string) :
  hasListMarker (list_ascii_of_string html) = false ->
  occurs (list_ascii_of_string "<li>") (list_ascii_of_string html) = false ->
  occurs (list_ascii_of_string "</ul>") (list_ascii_of_string html) = false ->
  lists html = html.
Proof.
  intros Hm Hl Hu. unfold lists.
  assert (E1 : replace re_li tpl_li html = html).
  { unfold replace. rewrite (li_unchanged _ Hm). apply string_of_list_ascii_of_string. }
  rewrite E1.
  assert (E2 : replace re_ul tpl_ul html = html).
  { unfold replace. rewrite (literal_absent tpl_ul ul_starts _ None Hl).
    apply string_of_list_ascii_of_string. }
  rewrite E2.
  unfold replace. rewrite (literal_absent tpl_merge merge_starts _ None Hu).
  apply string_of_list_ascii_of_string.
Qed.

(** *** Prose: text without markup *)

Lemma prose_first (c : ascii) :
  isProseUnit c = true ->
  firstOf re_h3 c = false /\ firstOf re_h2 c = false /\ firstOf re_h1 c = false /\
  firstOf re_quote c = false /\ firstOf re_bold c = false /\ firstOf re_em c = false /\
  firstOf re_code c = false /\
  Ascii.eqb "<" c = false.
Proof.
  destruct c as [[] [] [] [] [] [] [] []]; vm_compute; intros H;
    first [discriminate | repeat split; reflexivity].
Qed.

Lemma prose_skips (r : regex) (l : list ascii) :
  (forall c, isProseUnit c = true -> firstOf r c = false) ->
  forallb isProseUnit l = true ->
  forallb (fun c => negb (firstOf r c)) l = true.
Proof.
  intros Hr Hl. rewrite forallb_forall in *. intros c Hc.
  rewrite (Hr c (Hl c Hc)). reflexivity.
Qed.

Lemma prose_before_breaks (s : string) :
  forallb isProseUnit (list_ascii_of_string s) = true ->
  inlines (headings s) = string_of_list_ascii (breaks (list_ascii_of_string s)).
Proof.
  intros Hs. unfold inlines, headings.
  rewrite (@replace_no_first re_h3 tpl_h3 s eq_refl)
    by (apply prose_skips; [intros c Hc; apply (prose_first c Hc) | exact Hs]).
  rewrite (@replace_no_first re_h2 tpl_h2 s eq_refl)
    by (apply prose_skips; [intros c Hc; apply (prose_first c Hc) | exact Hs]).
  rewrite (@replace_no_first re_h1 tpl_h1 s eq_refl)
    by (apply prose_skips; [intros c Hc; apply (prose_first c Hc) | exact Hs]).
  rewrite (@replace_no_first re_quote tpl_quote s eq_refl)
    by (apply prose_skips; [intros c Hc; apply (prose_first c Hc) | exact Hs]).
  rewrite (@replace_no_first re_bold tpl_bold s eq_refl)
    by (apply prose_skips; [intros c Hc; apply (prose_first c Hc) | exact Hs]).
  rewrite (@replace_no_first re_em tpl_em s eq_refl)
    by (apply prose_skips; [intros c Hc; apply (prose_first c Hc) | exact Hs]).
  rewrite (@replace_no_first re_code tpl_code s eq_refl)
    by (apply prose_skips; [intros c Hc; apply (prose_first c Hc) | exact Hs]).
  apply breaks_refines.
Qed.

Lemma nextIsSpace_breaks (l : list ascii) : nextIsSpace (breaks l) = nextIsSpace l.
Proof.
  destruct l as [|c t]; [reflexivity|]. cbn [breaks nextIsSpace].
  destruct (Ascii.eqb c Js.LF) eqn:E; [|reflexivity].
  apply Ascii.eqb_eq in E. subst c.
  destruct t as [|c2 t2]; [reflexivity|].
  destruct (Ascii.eqb c2 Js.LF); reflexivity.
Qed.

Lemma breaks_safe (n : nat) :
  forall l,
  length l <= n ->
  forallb isProseUnit l = true ->
  hasListMarker l = false ->
  hasListMarker (breaks l) = false /\
  occurs (list_ascii_of_string "<li>") (breaks l) = false /\
  occurs (list_ascii_of_string "</ul>") (breaks l) = false.
Proof.
  induction n as [|n IH]; intros l Hn Hp Hm.
  - destruct l; [repeat split; reflexivity | cbn in Hn; lia].
  - destruct l as [|c t]; [repeat split; reflexivity|].
    cbn [length] in Hn. cbn [forallb] in Hp. apply andb_true_iff in Hp as [Hc Ht].
    pose proof (hasListMarker_tail _ _ Hm) as Hmt.
    cbn [breaks]. destruct (Ascii.eqb c Js.LF) eqn:Ec.
    + destruct t as [|c2 t2]; [repeat split; reflexivity|].
      destruct (Ascii.eqb c2 Js.LF).
      * cbn [forallb] in Ht. apply andb_true_iff in Ht as [_ Ht2].
        destruct (IH t2) as (A & B & C);
          [cbn [length] in Hn; lia | exact Ht2 | exact (hasListMarker_tail _ _ Hmt) |].
        repeat split; [exact A | exact B | exact C].
      * destruct (IH (c2 :: t2)) as (A & B & C); [lia | exact Ht | exact Hmt |].
        repeat split; [exact A | exact B | exact C].
    + destruct (IH t) as (A & B & C); [lia | exact Ht | exact Hmt |].
      destruct (prose_first c Hc) as (_ & _ & _ & _ & _ & _ & _ & Hlt).
      split; [|split].
      * cbn [hasListMarker]. rewrite A, nextIsSpace_breaks.
        cbn [hasListMarker] in Hm. apply orb_false_iff in Hm as [Hm _].
        rewrite Hm. reflexivity.
      * cbn [occurs list_ascii_of_string stripPrefix]. rewrite Hlt. exact B.
      * cbn [occurs list_ascii_of_string stripPrefix]. rewrite Hlt. exact C.
Qed.

Lemma breaks_without_line_feed (l : list ascii) :
  forallb notLF l = true -> breaks l = l.
Proof.
  induction l as [|c t IH]; [reflexivity|].
  cbn [forallb breaks]. unfold notLF at 1. intros H.
  apply andb_true_iff in H as [Hc Ht]. apply negb_true_iff in Hc.
  rewrite Hc, (IH Ht). reflexivity.
Qed.

(** X13.  A non-empty text without [#], [>], [*], backtick and [<], in
    which no dash is followed by a space, renders as paragraphs: between the
    opening and the closing paragraph tag, the text with every pair of line
    feeds replaced by the paragraph boundary and every line feed that is left
    by [<br>].  Without a line feed it is the text itself between the two
    tags. *)
Theorem prose_renders_as_paragraphs (text : string) :
  Js.truthy text = true ->
  isProse text = true ->
  parseMarkdown text =
    (openTag "p" paragraphClass
     ++ string_of_list_ascii (breaks (list_ascii_of_string text))
     ++ closeTag "p")%string /\
  (forallb notLF (list_ascii_of_string text) = true ->
   parseMarkdown text = (openTag "p" paragraphClass ++ text ++ closeTag "p")%string).
Proof.
  intros Hne Hp. unfold isProse in Hp. apply andb_true_iff in Hp as [Hu Hm].
  apply negb_true_iff in Hm.
  assert (E : parseMarkdown text =
              (openTag "p" paragraphClass
               ++ string_of_list_ascii (breaks (list_ascii_of_string text))
               ++ closeTag "p")%string).
  { unfold parseMarkdown. rewrite Hne. cbn [negb]. cbv zeta.
    rewrite (prose_before_breaks _ Hu).
    destruct (@breaks_safe _ _ (le_n _) Hu Hm) as (A & B & C).
    rewrite lists_unchanged;
      [reflexivity | | |]; rewrite list_ascii_of_string_of_list_ascii; assumption. }
  split; [exact E|].
  intros Hlf. rewrite E, (breaks_without_line_feed _ Hlf), string_of_list_ascii_of_string.
  reflexivity.
Qed.

Lemma prose_renders_as_paragraphs_witness :
  parseMarkdown ("A well-known fact." ++ Js.nl ++ Js.nl ++ "Next" ++ Js.nl ++ "line")%string
  = (openTag "p" paragraphClass ++ "A well-known fact."
     ++ closeTag "p" ++ openTag "p" paragraphClass ++ "Next<br>line" ++ closeTag "p")%string.
Proof.
  refine (eq_trans
            (proj1 (@prose_renders_as_paragraphs
                      ("A well-known fact." ++ Js.nl ++ Js.nl ++ "Next" ++ Js.nl ++ "line")%string
                      _ _)) _);
    reflexivity.
Defined.

End Prose.

(* ================================================================== *)
(** ** The list item substitution on one line *)

Section ListItems.
Import RegExp Markdown.

Lemma star_class (P : ascii -> bool) (ws : list ascii) :
  forall fuel (k : cont) p r' cs,
  forallb P ws = true ->
  length (ws ++ r') < fuel ->
  match r' with c :: _ => P c = false | [] => True end ->
  (forall s', match rest s' with c :: _ => P c = true | [] => False end -> k s' = None) ->
  star (run (Cls P)) true fuel k (MState p (ws ++ r') cs) = k (MState (lastOr p ws) r' cs).
Proof.
  induction ws as [|c t IH]; intros fuel k p r' cs Hws Hf Hr Hk.
  - destruct fuel as [|f]; [cbn in Hf; lia|].
    cbn [app star run rest caps lastOr fold_left].
    destruct r' as [|c t]; [destruct (k _); reflexivity|].
    rewrite Hr. destruct (k _); reflexivity.
  - destruct fuel as [|f]; [cbn in Hf; lia|].
    cbn [forallb] in Hws. apply andb_true_iff in Hws as [Hc Ht].
    change ((c :: t) ++ r') with (c :: t ++ r') in *.
    cbn [star run rest caps]. rewrite Hc. cbn [rest].
    replace (length (t ++ r') <? length (c :: t ++ r')) with true
      by (symmetry; apply Nat.ltb_lt; cbn [length]; lia).
    assert (E : star (run (Cls P)) true f k (MState (Some c) (t ++ r') cs)
                = k (MState (lastOr (Some c) t) r' cs))
      by (apply IH; [exact Ht | cbn [length] in Hf; lia | exact Hr | exact Hk]).
    match goal with
    | |- match ?s with Some _ => _ | None => _ end = _ =>
        replace s with (k (MState (lastOr (Some c) t) r' cs)) by (symmetry; exact E)
    end.
    cbn [lastOr fold_left].
    rewrite (Hk (MState p (c :: t ++ r') cs)) by exact Hc.
    destruct (k _); reflexivity.
Qed.

Lemma trimStart_split (l : list ascii) :
  exists ws, l = ws ++ Js.trimStart l /\ forallb Js.isWhiteSpace ws = true /\
             match Js.trimStart l with
             | c :: _ => Js.isWhiteSpace c = false
             | [] => True
             end.
Proof.
  induction l as [|c t (ws & E & Hw & Hh)]; [exists []; repeat split|].
  cbn [Js.trimStart]. destruct (Js.isWhiteSpace c) eqn:Hc.
  - exists (c :: ws). cbn [app forallb]. rewrite Hc, Hw, <- E. repeat split. exact Hh.
  - exists []. repeat split. exact Hc.
Qed.

Lemma marker_not_space (c : ascii) : Js.isWhiteSpace c = true -> dashOrStar c = false.
Proof. destruct c as [[] [] [] [] [] [] [] []]; vm_compute; intros H; congruence. Qed.

Lemma notLT_cases (c : ascii) :
  notLT c = true -> Ascii.eqb Js.CR c = false /\ Ascii.eqb Js.LF c = false.
Proof.
  unfold notLT, Js.isLineTerminator. intros H. apply negb_true_iff, orb_false_iff in H as [H1 H2].
  rewrite (Ascii.eqb_sym Js.CR c), (Ascii.eqb_sym Js.LF c). split; assumption.
Qed.

Lemma li_matchAt (l : list ascii) (p : option ascii) :
  forallb notLT l = true ->
  match itemAt l with
  | Some body => exists pv, matchAt re_li p l = Some (MState pv [] [(2, body)])
  | None => matchAt re_li p l = None
  end.
Proof.
  intros Hl. unfold matchAt, re_li. cbn [Cat fold_right].
  set (K4 := run (Seq (Group 2 (Star true Dot)) Eps) (fun s => Some s)).
  set (K3 := run (Seq (Lit " ") (Seq (Group 2 (Star true Dot)) Eps)) (fun s => Some s)).
  set (K2 := run (Seq (Cls dashOrStar) (Seq (Lit " ") (Seq (Group 2 (Star true Dot)) Eps)))
                 (fun s => Some s)).
  assert (E1 : run (Seq (Opt (Group 1 (Alt (Seq (Chr Js.CR) (Seq (Chr Js.LF) Eps)) (Chr Js.LF))))
                        (Seq (Star true Space)
                             (Seq (Cls dashOrStar)
                                  (Seq (Lit " ") (Seq (Group 2 (Star true Dot)) Eps)))))
                   (fun s => Some s) (MState p l [])
               = star (run (Cls Js.isWhiteSpace)) true (S (length l)) K2 (MState p l [])).
  { unfold Opt, Chr. cbn [run rest caps]. destruct l as [|c t]; [reflexivity|].
    cbn [forallb] in Hl. apply andb_true_iff in Hl as [Hc _].
    destruct (notLT_cases c Hc) as [-> ->]. reflexivity. }
  rewrite E1. clear E1.
  destruct (trimStart_split l) as (ws & E & Hw & Hh).
  unfold itemAt. set (r' := Js.trimStart l) in *.
  assert (Hr : forallb notLT r' = true).
  { rewrite E, forallb_app in Hl. apply andb_true_iff in Hl as [_ H]. exact H. }
  replace (MState p l []) with (MState p (ws ++ r') []) by (rewrite <- E; reflexivity).
  rewrite star_class; [|exact Hw | rewrite <- E; lia | exact Hh |].
  2:{ intros s' Hs. unfold K2. cbn [run]. destruct (rest s') as [|c t]; [contradiction|].
      rewrite (marker_not_space c Hs). reflexivity. }
  unfold K2. cbn [run rest caps].
  destruct r' as [|d [|sp body]]; [reflexivity | destruct (dashOrStar d); reflexivity |].
  destruct (dashOrStar d); [|reflexivity]. cbn [andb rest caps Lit Chr run].
  rewrite (Ascii.eqb_sym sp " ").
  destruct (Ascii.eqb " " sp); [|reflexivity].
  cbn [rest caps]. eexists.
  apply star_dot_line.
  - cbn [forallb] in Hr. apply andb_true_iff in Hr as [_ Hr].
    apply andb_true_iff in Hr as [_ Hr]. exact Hr.
  - lia.
  - cbn [run]. unfold closeGroup, consumed. cbn [rest caps prev length].
    rewrite Nat.sub_0_r, firstn_all. reflexivity.
Qed.

Lemma li_first_item (l : list ascii) :
  forallb notLT l = true ->
  forall p, replaceFrom re_li tpl_li p l 0 = firstItem l.
Proof.
  induction l as [|c t IH]; intros Hl p.
  - cbn [replaceFrom firstItem].
    pose proof (@li_matchAt [] p eq_refl) as H.
    change (matchAt re_li p [] = None) in H. rewrite H. reflexivity.
  - pose proof (@li_matchAt (c :: t) p Hl) as H.
    cbn [replaceFrom firstItem].
    destruct (itemAt (c :: t)) as [body|].
    + destruct H as [pv ->]. cbn [caps rest expand tpl_li capture Nat.eqb length].
      rewrite Nat.sub_0_r, skip_all. cbn [replaceFrom].
      pose proof (@li_matchAt [] (lastOr (Some c) t) eq_refl) as H0.
      change (matchAt re_li (lastOr (Some c) t) [] = None) in H0.
      rewrite H0, !app_nil_r. reflexivity.
    + rewrite H. cbn [forallb] in Hl. apply andb_true_iff in Hl as [_ Ht].
      rewrite (IH Ht). reflexivity.
Qed.

Lemma itemAt_shape (l body : list ascii) :
  itemAt l = Some body ->
  exists ws d, l = ws ++ d :: " "%char :: body /\
               forallb Js.isWhiteSpace ws = true /\ dashOrStar d = true.
Proof.
  unfold itemAt. intros H. destruct (trimStart_split l) as (ws & E & Hw & _).
  destruct (Js.trimStart l) as [|d [|sp t]]; try discriminate.
  destruct (dashOrStar d) eqn:Hd; [|discriminate].
  destruct (Ascii.eqb sp " ") eqn:Hsp; [|discriminate].
  apply Ascii.eqb_eq in Hsp. subst sp. injection H as <-.
  exists ws, d. repeat split; assumption.
Qed.

Lemma firstItem_shape (l : list ascii) :
  firstItem l = l \/
  exists pre ws d body,
    l = pre ++ ws ++ d :: " "%char :: body /\
    forallb Js.isWhiteSpace ws = true /\ dashOrStar d = true /\
    firstItem l = pre ++ list_ascii_of_string "<li>" ++ body ++ list_ascii_of_string "</li>".
Proof.
  induction l as [|c t IH]; [left; reflexivity|].
  cbn [firstItem]. destruct (itemAt (c :: t)) as [body|] eqn:E.
  - right. destruct (itemAt_shape _ E) as (ws & d & El & Hw & Hd).
    exists [], ws, d, body. repeat split; assumption.
  - destruct IH as [-> | (pre & ws & d & body & El & Hw & Hd & ->)]; [left; reflexivity|].
    right. exists (c :: pre), ws, d, body. rewrite El. repeat split; assumption.
Qed.

(** X14.  For every text that holds none of the line terminators that
    line 116 leaves in place (carriage return, and U+2028 and U+2029, which
    are no code units of the embedding, so that the hypothesis below names
    the carriage return only), the list item substitution of line 119 works
    on a text without line terminators and makes one item at most: either it
    changes nothing, or the text from the first position where white space,
    a dash or a star, and a space follow one another is replaced by one
    [<li>] element that holds everything after that space, to the end of the
    text.  A text that holds one of these three can get more items: the dot
    of the pattern stops there. *)
Theorem list_items_collapse (text : string) :
  forallb notCR (list_ascii_of_string text) = true ->
  let html := inlines (headings text) in
  replace re_li tpl_li html = string_of_list_ascii (firstItem (list_ascii_of_string html)) /\
  (replace re_li tpl_li html = html \/
   exists pre ws d body,
     list_ascii_of_string html = pre ++ ws ++ d :: " "%char :: body /\
     forallb Js.isWhiteSpace ws = true /\ dashOrStar d = true /\
     replace re_li tpl_li html
     = string_of_list_ascii
         (pre ++ list_ascii_of_string "<li>" ++ body ++ list_ascii_of_string "</li>")).
Proof.
  intros Hcr html.
  assert (E : replace re_li tpl_li html
              = string_of_list_ascii (firstItem (list_ascii_of_string html))).
  { unfold replace. rewrite li_first_item; [reflexivity|].
    exact (before_lists_single_line text Hcr). }
  split; [exact E|]. rewrite E.
  destruct (firstItem_shape (list_ascii_of_string html))
    as [-> | (pre & ws & d & body & El & Hw & Hd & ->)].
  - left. apply string_of_list_ascii_of_string.
  - right. exists pre, ws, d, body. repeat split; assumption.
Qed.

Lemma list_items_collapse_witness :
  replace re_li tpl_li (inlines (headings ("- a" ++ Js.nl ++ "- b")%string))
  = "<li>a<br>- b</li>".
Proof.
  refine (eq_trans (proj1 (@list_items_collapse ("- a" ++ Js.nl ++ "- b")%string _)) _);
    reflexivity.
Defined.

(** Across a carriage return the pattern finds a second item: the dot stops
    at it, and the white space that the next match starts with takes it. *)
Lemma list_items_across_carriage_return :
  replace re_li tpl_li (inlines (headings ("- a" ++ String Js.CR "- b")%string))
  = "<li>a</li><li>b</li>".
Proof. vm_compute. reflexivity. Qed.

End ListItems.

(* ================================================================== *)
(** ** Elements on a line of their own *)

Section Elements.
Import RegExp Markdown.

Lemma inert_first (c : ascii) :
  inertUnit c = true ->
  firstOf re_bold c = false /\ firstOf re_em c = false /\ firstOf re_code c = false /\
  firstOf re_para c = false /\ firstOf re_br c = false.
Proof.
  destruct c as [[] [] [] [] [] [] [] []]; vm_compute; intros H;
    first [discriminate | repeat split; reflexivity].
Qed.

Lemma inert_skips (r : regex) (l : list ascii) :
  (forall c, inertUnit c = true -> firstOf r c = false) ->
  forallb inertUnit l = true ->
  forallb (fun c => negb (firstOf r c)) l = true.
Proof.
  intros Hr Hl. rewrite forallb_forall in *. intros c Hc.
  rewrite (Hr c (Hl c Hc)). reflexivity.
Qed.

Lemma inert_unchanged (html : string) :
  isInert (list_ascii_of_string html) = true ->
  replace re_bold tpl_bold html = html /\
  replace re_em tpl_em html = html /\
  replace re_code tpl_code html = html /\
  replace re_para tpl_para html = html /\
  replace re_br tpl_br html = html /\
  lists html = html.
Proof.
  unfold isInert. intros H.
  apply andb_true_iff in H as [H Hu]. apply andb_true_iff in H as [H Hl].
  apply andb_true_iff in H as [Hi Hm].
  apply negb_true_iff in Hu, Hl, Hm.
  repeat split;
    try (apply replace_no_first;
         [reflexivity | apply inert_skips; [intros c Hc; apply (inert_first c Hc) | exact Hi]]).
  apply lists_unchanged; assumption.
Qed.

Lemma phrase_units (c : ascii) :
  isProseUnit c = true -> notLT c = true -> inertUnit c = true.
Proof.
  destruct c as [[] [] [] [] [] [] [] []]; vm_compute; intros H1 H2; congruence.
Qed.

Lemma hasListMarker_before (x B : list ascii) :
  hasListMarker x = false -> nextIsSpace B = false ->
  hasListMarker (x ++ B) = hasListMarker B.
Proof.
  intros Hx HB. induction x as [|c t IH]; [reflexivity|].
  cbn [app hasListMarker] in *. apply orb_false_iff in Hx as [Hc Ht].
  rewrite (IH Ht).
  assert (E : dashOrStar c && nextIsSpace (t ++ B) = false).
  { destruct t as [|c2 t2]; [cbn [app]; rewrite HB; apply andb_false_r | exact Hc]. }
  rewrite E. reflexivity.
Qed.

Lemma occurs_before (m : list ascii) (x B : list ascii) :
  (forall c, In c x -> forall t, stripPrefix m (c :: t) = None) ->
  occurs m (x ++ B) = occurs m B.
Proof.
  intros Hx. induction x as [|c t IH]; [reflexivity|].
  cbn [app occurs]. rewrite (Hx c (or_introl eq_refl)).
  apply IH. intros c' Hc'. apply Hx. right. exact Hc'.
Qed.

Lemma prose_no_tag (m : string) (x : list ascii) :
  forallb isProseUnit x = true ->
  forall c, In c x -> forall t, stripPrefix ("<"%char :: list_ascii_of_string m) (c :: t) = None.
Proof.
  intros Hx c Hc t. rewrite forallb_forall in Hx.
  destruct (prose_first c (Hx c Hc)) as (_ & _ & _ & _ & _ & _ & _ & Hlt).
  cbn [stripPrefix]. rewrite Hlt. reflexivity.
Qed.

Lemma wrapped_inert (A B x : string) :
  tagPair A B -> isPhrase x = true ->
  isInert (list_ascii_of_string (A ++ x ++ B)) = true.
Proof.
  intros (HAm & HAl & HAu & HAi & HB & HBs) Hx.
  unfold isPhrase, isProse, isSingleLine in Hx.
  apply andb_true_iff in Hx as [Hx Hs]. apply andb_true_iff in Hx as [Hp Hm].
  apply negb_true_iff in Hm. fold notLT in Hs.
  unfold isInert in HB.
  apply andb_true_iff in HB as [HB HBu]. apply andb_true_iff in HB as [HB HBl].
  apply andb_true_iff in HB as [HBi HBm].
  apply negb_true_iff in HBu, HBl, HBm.
  unfold isInert. rewrite !list_of_append, !forallb_app, HAi, HBi.
  rewrite HAm, HAl, HAu.
  rewrite (@hasListMarker_before _ _ Hm HBs), HBm.
  rewrite (@occurs_before (list_ascii_of_string "<li>") _ (list_ascii_of_string B)
             (@prose_no_tag "li>" _ Hp)), HBl.
  rewrite (@occurs_before (list_ascii_of_string "</ul>") _ (list_ascii_of_string B)
             (@prose_no_tag "/ul>" _ Hp)), HBu.
  assert (Hi : forallb inertUnit (list_ascii_of_string x) = true).
  { rewrite forallb_forall in *. intros c Hc. apply phrase_units; auto. }
  rewrite Hi. reflexivity.
Qed.

Lemma tagPair_h1 : tagPair (openTag "h1" h1Class) (closeTag "h1").
Proof. repeat split; intros; reflexivity. Qed.
Lemma tagPair_h2 : tagPair (openTag "h2" h2Class) (closeTag "h2").
Proof. repeat split; intros; reflexivity. Qed.
Lemma tagPair_h3 : tagPair (openTag "h3" h3Class) (closeTag "h3").
Proof. repeat split; intros; reflexivity. Qed.

Lemma tagPair_quote :
  tagPair (openTag "blockquote" "border-l-4 border-indigo-500 pl-4 italic text-gray-400 my-4")
          (closeTag "blockquote").
Proof. repeat split; intros; reflexivity. Qed.
Lemma tagPair_bold : tagPair (openTag "strong" "text-indigo-300") (closeTag "strong").
Proof. repeat split; intros; reflexivity. Qed.
Lemma tagPair_em : tagPair "<em>" "</em>".
Proof. repeat split; intros; reflexivity. Qed.
Lemma tagPair_code :
  tagPair (openTag "code" "bg-gray-700 text-red-300 rounded px-2 py-1 text-sm")
          (closeTag "code").
Proof. repeat split; intros; reflexivity. Qed.

Lemma phrase_single_line (x : string) : isPhrase x = true -> isSingleLine x = true.
Proof. unfold isPhrase. intros H. apply andb_true_iff in H as [_ H]. exact H. Qed.

Lemma phrase_prose (x : string) :
  isPhrase x = true -> forallb isProseUnit (list_ascii_of_string x) = true.
Proof.
  unfold isPhrase, isProse. intros H. apply andb_true_iff in H as [H _].
  apply andb_true_iff in H as [H _]. exact H.
Qed.

(** An element on a line of its own goes through the substitutions that
    follow the headings unchanged. *)
Lemma element_after_headings (A B x : string) :
  tagPair A B -> isPhrase x = true ->
  isSingleLine A = true -> isSingleLine B = true ->
  matchAt re_quote None (list_ascii_of_string (A ++ x ++ B)) = None ->
  lists (inlines (A ++ x ++ B)) = (A ++ x ++ B)%string.
Proof.
  intros Ht Hx HA HB Hq.
  destruct (inert_unchanged (A ++ x ++ B) (@wrapped_inert A B x Ht Hx))
    as (Eb & Ee & Ec & Ep & Er & El).
  unfold inlines, re_quote.
  rewrite (@replace_unmatched_line "> ");
    [| rewrite !isSingleLine_append, HA, HB, (phrase_single_line _ Hx); reflexivity
     | exact Hq].
  rewrite Eb, Ee, Ec, Ep, Er. exact El.
Qed.

(** [parseMarkdown] on a text that is not empty. *)
Lemma parseMarkdown_steps (text : string) :
  Js.truthy text = true ->
  parseMarkdown text
  = (openTag "p" paragraphClass ++ lists (inlines (headings text)) ++ closeTag "p")%string.
Proof. unfold parseMarkdown. intros ->. reflexivity. Qed.

(** X15.  A heading on a line of its own: for a phrase [x] (prose on one
    line), "# x", "## x" and "### x" render as the [h1], [h2] and [h3]
    element around [x], inside the paragraph that wraps every result. *)
Theorem heading_line_renders (x : string) :
  isPhrase x = true ->
  parseMarkdown ("# " ++ x)
  = (openTag "p" paragraphClass ++ (openTag "h1" h1Class ++ x ++ closeTag "h1")
     ++ closeTag "p")%string /\
  parseMarkdown ("## " ++ x)
  = (openTag "p" paragraphClass ++ (openTag "h2" h2Class ++ x ++ closeTag "h2")
     ++ closeTag "p")%string /\
  parseMarkdown ("### " ++ x)
  = (openTag "p" paragraphClass ++ (openTag "h3" h3Class ++ x ++ closeTag "h3")
     ++ closeTag "p")%string.
Proof.
  intros Hx. pose proof (phrase_single_line _ Hx) as Hs.
  rewrite !parseMarkdown_steps by reflexivity.
  rewrite (headings_h1 _ Hs), (headings_h2 _ Hs), (headings_h3 _ Hs).
  rewrite (@element_after_headings _ _ x tagPair_h1 Hx eq_refl eq_refl eq_refl).
  rewrite (@element_after_headings _ _ x tagPair_h2 Hx eq_refl eq_refl eq_refl).
  rewrite (@element_after_headings _ _ x tagPair_h3 Hx eq_refl eq_refl eq_refl).
  repeat split; reflexivity.
Qed.

Lemma heading_line_renders_witness :
  parseMarkdown "## Getting started"
  = (openTag "p" paragraphClass
     ++ (openTag "h2" h2Class ++ "Getting started" ++ closeTag "h2")
     ++ closeTag "p")%string.
Proof.
  refine (proj1 (proj2 (@heading_line_renders "Getting started" _))). reflexivity.
Defined.

(** *** Substitutions that leave a marked phrase alone *)

Lemma single_line_first (c : ascii) :
  notLT c = true -> firstOf re_para c = false /\ firstOf re_br c = false.
Proof.
  destruct c as [[] [] [] [] [] [] [] []]; vm_compute; intros H;
    first [discriminate | split; reflexivity].
Qed.

Lemma line_skips (r : regex) (l : list ascii) :
  (forall c, notLT c = true -> firstOf r c = false) ->
  forallb notLT l = true ->
  forallb (fun c => negb (firstOf r c)) l = true.
Proof.
  intros Hr Hl. rewrite forallb_forall in *. intros c Hc.
  rewrite (Hr c (Hl c Hc)). reflexivity.
Qed.

(** Decides that no code unit of a text made of literal parts and of a
    phrase starts a match of the pattern. *)
Ltac no_first Hp Hs :=
  rewrite ?list_of_append, ?forallb_app;
  repeat (apply andb_true_iff; split);
  first [ reflexivity
        | apply prose_skips; [intros c Hc; apply (prose_first c Hc) | exact Hp]
        | apply line_skips; [intros c Hc; apply (single_line_first c Hc) | exact Hs] ].

Ltac skip_stage r tpl Hp Hs :=
  match goal with
  | |- context [replace r tpl ?s] =>
      rewrite (@replace_no_first r tpl s eq_refl) by no_first Hp Hs
  end.

(** *** Block quote *)

(** X16.  For a phrase [x], "> x" renders as the [blockquote] element
    around [x], inside the wrapping paragraph. *)
Theorem quote_line_renders (x : string) :
  isPhrase x = true ->
  parseMarkdown ("> " ++ x)
  = (openTag "p" paragraphClass
     ++ (openTag "blockquote" "border-l-4 border-indigo-500 pl-4 italic text-gray-400 my-4"
         ++ x ++ closeTag "blockquote")
     ++ closeTag "p")%string.
Proof.
  intros Hx. pose proof (phrase_single_line _ Hx) as Hs. pose proof (phrase_prose _ Hx) as Hp.
  pose proof Hs as Hl. unfold isSingleLine in Hl. fold notLT in Hl.
  rewrite parseMarkdown_steps by reflexivity.
  unfold headings.
  skip_stage re_h3 tpl_h3 Hp Hl. skip_stage re_h2 tpl_h2 Hp Hl. skip_stage re_h1 tpl_h1 Hp Hl.
  destruct (inert_unchanged _ (@wrapped_inert _ _ x tagPair_quote Hx))
    as (Eb & Ee & Ec & Ep & Er & El).
  unfold inlines, re_quote, tpl_quote.
  rewrite replace_marked_line; [| discriminate | reflexivity | exact Hs].
  rewrite expand_wrapGroup.
  rewrite Eb, Ee, Ec, Ep, Er, El. reflexivity.
Qed.

Lemma quote_line_renders_witness :
  parseMarkdown "> Stay curious."
  = (openTag "p" paragraphClass
     ++ (openTag "blockquote" "border-l-4 border-indigo-500 pl-4 italic text-gray-400 my-4"
         ++ "Stay curious." ++ closeTag "blockquote")
     ++ closeTag "p")%string.
Proof.
  refine (@quote_line_renders "Stay curious." _). reflexivity.
Defined.

(** *** Emphasis *)

(** The lazy star stops at the first position that the continuation
    accepts. *)
Lemma star_lazy (x : list ascii) :
  forall fuel (k : cont) p z cs v,
  forallb notLT x = true ->
  length (x ++ z) < fuel ->
  (forall c t p', In c x -> k (MState p' (c :: t) cs) = None) ->
  k (MState (lastOr p x) z cs) = Some v ->
  star (run Dot) false fuel k (MState p (x ++ z) cs) = Some v.
Proof.
  induction x as [|c t IH]; intros fuel k p z cs v Hx Hf Hk Hv.
  - destruct fuel as [|f]; [cbn in Hf; lia|].
    cbn [app star lastOr fold_left] in *. rewrite Hv. reflexivity.
  - destruct fuel as [|f]; [cbn in Hf; lia|].
    cbn [forallb] in Hx. apply andb_true_iff in Hx as [Hc Ht]. unfold notLT in Hc.
    change ((c :: t) ++ z) with (c :: t ++ z) in *.
    cbn [star]. rewrite (Hk c (t ++ z) p (or_introl eq_refl)).
    cbn [run Dot rest caps]. rewrite Hc. cbn [rest].
    replace (length (t ++ z) <? length (c :: t ++ z)) with true
      by (symmetry; apply Nat.ltb_lt; cbn [length]; lia).
    apply IH; [exact Ht | cbn [length] in Hf; lia | | exact Hv].
    intros c' t' p' Hc'. apply Hk. right. exact Hc'.
Qed.

(** A match that takes the whole of a text is the only one. *)
Lemma replace_whole (r : regex) (tpl : list titem) (s : string) (m : mstate) :
  s <> EmptyString ->
  matchAt r None (list_ascii_of_string s) = Some m ->
  rest m = [] ->
  (forall p, matchAt r p [] = None) ->
  replace r tpl s = string_of_list_ascii (expand tpl (caps m)).
Proof.
  intros Hs Hm Hr He. unfold replace.
  destruct (list_ascii_of_string s) as [|c t] eqn:E.
  - destruct s; [congruence | discriminate].
  - cbn [replaceFrom]. rewrite Hm, Hr. cbn [length]. rewrite Nat.sub_0_r.
    rewrite skip_all. cbn [replaceFrom]. rewrite He, app_nil_r. reflexivity.
Qed.

Lemma no_star (x : list ascii) (c : ascii) :
  forallb isProseUnit x = true -> In c x -> Ascii.eqb "*" c = false.
Proof.
  intros Hx Hc. rewrite forallb_forall in Hx. specialize (Hx c Hc).
  destruct c as [[] [] [] [] [] [] [] []]; vm_compute in *; congruence.
Qed.

Lemma delimited_match (d : string) (x : list ascii) (p : option ascii) :
  d = "**" \/ d = "*" ->
  forallb isProseUnit x = true ->
  forallb notLT x = true ->
  exists pv,
    matchAt (Cat [Lit d; Group 1 (Star false Dot); Lit d]) p
            (list_ascii_of_string d ++ x ++ list_ascii_of_string d)
    = Some (MState pv [] [(1, x)]).
Proof.
  intros Hd Hp Hl. unfold matchAt. cbn [Cat fold_right run].
  rewrite run_Lit. cbn [run rest].
  eexists. apply star_lazy; [exact Hl | lia | |].
  - intros c t p' Hc. cbn [rest caps closeGroup].
    apply run_Lit_fail.
    destruct Hd as [-> | ->]; cbn [list_ascii_of_string stripPrefix rest prev caps];
      rewrite (no_star x c Hp Hc); reflexivity.
  - cbn [rest caps prev]. unfold closeGroup. cbn [rest caps prev].
    match goal with
    | |- run (Lit d) ?k (MState ?pv (list_ascii_of_string d) ?cs) = _ =>
        pose proof (run_Lit d k pv [] cs) as R
    end.
    rewrite app_nil_r in R. rewrite R. unfold consumed. cbn [rest].
    rewrite firstn_app_exact. reflexivity.
Qed.

Lemma countStars_app (l m : list ascii) :
  countStars (l ++ m) = countStars l + countStars m.
Proof. unfold countStars. rewrite filter_app, length_app. reflexivity. Qed.

Lemma countStars_cons (c : ascii) (t : list ascii) :
  countStars (c :: t) = (if Ascii.eqb "*" c then 1 else 0) + countStars t.
Proof. unfold countStars. cbn [filter]. destruct (Ascii.eqb "*" c); reflexivity. Qed.

Lemma countStars_prose (x : list ascii) :
  forallb isProseUnit x = true -> countStars x = 0.
Proof.
  intros Hx. induction x as [|c t IH]; [reflexivity|].
  rewrite countStars_cons, (no_star (c :: t) c Hx (or_introl eq_refl)).
  cbn [forallb] in Hx. apply andb_true_iff in Hx as [_ Ht]. exact (IH Ht).
Qed.

Lemma em_needs_two (p : option ascii) (l : list ascii) (m : mstate) :
  matchAt re_em p l = Some m -> 2 <= countStars l.
Proof.
  intros H. apply matchAt_matches in H. unfold re_em in H. cbn [Cat fold_right Lit] in H.
  inversion H as [| | | |r1 r2 s0 s1 s4 M1 H1| | | | |]; subst; clear H.
  inversion H1 as [| | | |r1 r2 s0 s2 s4' M2 H2| | | | |]; subst; clear H1.
  inversion H2 as [| | | |r1 r2 s0 s3 s4' M3 _| | | | |]; subst; clear H2.
  unfold Chr in *.
  inversion M1 as [|q c t s0 E1 Hc1| | | | | | | |]; subst; clear M1.
  inversion M2 as [| | | | | | | | |i r s0 s1' Mg]; subst; clear M2.
  destruct (matches_rest Mg) as [cg Eg].
  inversion M3 as [|q c' t' s0 E3 Hc3| | | | | | | |]; subst; clear M3.
  cbn [rest closeGroup] in *. subst l. rewrite Eg, E3.
  rewrite countStars_cons, countStars_app, countStars_cons, Hc1, Hc3. lia.
Qed.

Lemma bold_needs_four (p : option ascii) (l : list ascii) (m : mstate) :
  matchAt re_bold p l = Some m -> 4 <= countStars l.
Proof.
  intros H. apply matchAt_matches in H. unfold re_bold in H. cbn [Cat fold_right Lit] in H.
  inversion H as [| | | |r1 r2 s0 s1 s4 M1 H1| | | | |]; subst; clear H.
  inversion H1 as [| | | |r1 r2 s0 s2 s4' M2 H2| | | | |]; subst; clear H1.
  inversion H2 as [| | | |r1 r2 s0 s3 s4' M3 _| | | | |]; subst; clear H2.
  unfold Chr in *.
  inversion M1 as [| | | |r1 r2 s0 sa s1' Ma Mb| | | | |]; subst; clear M1.
  inversion Ma as [|q c t s0 E1 Hc1| | | | | | | |]; subst; clear Ma.
  inversion Mb as [|q c2 t2 s0 E2 Hc2| | | | | | | |]; subst; clear Mb.
  inversion M2 as [| | | | | | | | |i r s0 s1' Mg]; subst; clear M2.
  destruct (matches_rest Mg) as [cg Eg].
  inversion M3 as [| | | |r1 r2 s0 sc s3' Mc Md| | | | |]; subst; clear M3.
  inversion Mc as [|q c3 t3 s0 E3 Hc3| | | | | | | |]; subst; clear Mc.
  inversion Md as [|q c4 t4 s0 E4 Hc4| | | | | | | |]; subst; clear Md.
  cbn [rest closeGroup] in *. subst l. subst t. rewrite Eg, E3, E4.
  rewrite !countStars_cons, countStars_app, !countStars_cons, Hc1, Hc2, Hc3, Hc4. lia.
Qed.

Lemma few_stars (r : regex) (tpl : list titem) (n : nat) :
  (forall p l m, matchAt r p l = Some m -> n <= countStars l) ->
  forall l p, countStars l < n -> replaceFrom r tpl p l 0 = l.
Proof.
  intros Hr. induction l as [|c t IH]; intros p Hl.
  - cbn [replaceFrom]. destruct (matchAt r p []) as [m|] eqn:E; [|reflexivity].
    apply Hr in E. lia.
  - cbn [replaceFrom]. destruct (matchAt r p (c :: t)) as [m|] eqn:E.
    + apply Hr in E. lia.
    + rewrite IH; [reflexivity|]. rewrite countStars_cons in Hl. lia.
Qed.

Lemma few_stars_replace (r : regex) (tpl : list titem) (n : nat) (s : string) :
  (forall p l m, matchAt r p l = Some m -> n <= countStars l) ->
  countStars (list_ascii_of_string s) < n ->
  replace r tpl s = s.
Proof.
  intros Hr Hs. unfold replace. rewrite (@few_stars r tpl n Hr _ None Hs).
  apply string_of_list_ascii_of_string.
Qed.

Lemma delimited_replace (d : string) (tpl : list titem) (x : string) :
  d = "**" \/ d = "*" ->
  isPhrase x = true ->
  replace (Cat [Lit d; Group 1 (Star false Dot); Lit d]) tpl (d ++ x ++ d)
  = string_of_list_ascii (expand tpl [(1, list_ascii_of_string x)]).
Proof.
  intros Hd Hx.
  pose proof (phrase_single_line _ Hx) as Hs. unfold isSingleLine in Hs. fold notLT in Hs.
  destruct (@delimited_match d (list_ascii_of_string x) None Hd (phrase_prose _ Hx) Hs)
    as [pv Hm].
  rewrite <- !list_of_append in Hm.
  rewrite (@replace_whole _ tpl (d ++ x ++ d)
             (MState pv [] [(1, list_ascii_of_string x)]));
    [reflexivity | | exact Hm | reflexivity |].
  - destruct Hd as [-> | ->]; discriminate.
  - intros p. destruct Hd as [-> | ->]; reflexivity.
Qed.

Lemma expand_em (body : string) :
  string_of_list_ascii (expand tpl_em [(1, list_ascii_of_string body)])
  = ("<em>" ++ body ++ "</em>")%string.
Proof.
  unfold tpl_em. cbn [expand capture Nat.eqb].
  rewrite app_nil_r, !string_of_app, !string_of_list_ascii_of_string. reflexivity.
Qed.

(** X17.  For a phrase [x], [x] between two pairs of stars renders as the
    [strong] element around [x], and [x] between two stars as the [em]
    element around [x]: the bold substitution, which comes first, leaves
    nothing for the italic one, and leaves single stars alone. *)
Theorem emphasis_renders (x : string) :
  isPhrase x = true ->
  parseMarkdown ("**" ++ x ++ "**")
  = (openTag "p" paragraphClass
     ++ (openTag "strong" "text-indigo-300" ++ x ++ closeTag "strong")
     ++ closeTag "p")%string /\
  parseMarkdown ("*" ++ x ++ "*")
  = (openTag "p" paragraphClass ++ ("<em>" ++ x ++ "</em>") ++ closeTag "p")%string.
Proof.
  intros Hx. pose proof (phrase_single_line _ Hx) as Hs. pose proof (phrase_prose _ Hx) as Hp.
  pose proof Hs as Hl. unfold isSingleLine in Hl. fold notLT in Hl.
  split.
  - rewrite parseMarkdown_steps by reflexivity.
    unfold headings.
    skip_stage re_h3 tpl_h3 Hp Hl. skip_stage re_h2 tpl_h2 Hp Hl. skip_stage re_h1 tpl_h1 Hp Hl.
    unfold inlines. skip_stage re_quote tpl_quote Hp Hl.
    destruct (inert_unchanged _ (@wrapped_inert _ _ x tagPair_bold Hx))
      as (_ & Ee & Ec & Ep & Er & El).
    unfold re_bold, tpl_bold.
    rewrite (@delimited_replace "**" _ x (or_introl eq_refl) Hx), expand_wrapGroup.
    rewrite Ee, Ec, Ep, Er, El. reflexivity.
  - rewrite parseMarkdown_steps by reflexivity.
    unfold headings.
    skip_stage re_h3 tpl_h3 Hp Hl. skip_stage re_h2 tpl_h2 Hp Hl. skip_stage re_h1 tpl_h1 Hp Hl.
    unfold inlines. skip_stage re_quote tpl_quote Hp Hl.
    rewrite (@few_stars_replace re_bold tpl_bold 4 _ bold_needs_four)
      by (rewrite !list_of_append, !countStars_app, (countStars_prose _ Hp); cbn; lia).
    destruct (inert_unchanged _ (@wrapped_inert _ _ x tagPair_em Hx))
      as (_ & _ & Ec & Ep & Er & El).
    unfold re_em.
    rewrite (@delimited_replace "*" _ x (or_intror eq_refl) Hx), expand_em.
    rewrite Ec, Ep, Er, El. reflexivity.
Qed.

Lemma emphasis_renders_witness :
  parseMarkdown "**very important**"
  = (openTag "p" paragraphClass
     ++ (openTag "strong" "text-indigo-300" ++ "very important" ++ closeTag "strong")
     ++ closeTag "p")%string /\
  parseMarkdown "*very important*"
  = (openTag "p" paragraphClass ++ "<em>very important</em>" ++ closeTag "p")%string.
Proof.
  refine (@emphasis_renders "very important" _). reflexivity.
Defined.

(** *** Inline code *)

Lemma no_backtick (x : list ascii) (c : ascii) :
  forallb isProseUnit x = true -> In c x -> notBacktick c = true.
Proof.
  intros Hx Hc. rewrite forallb_forall in Hx. specialize (Hx c Hc).
  destruct c as [[] [] [] [] [] [] [] []]; vm_compute in *; congruence.
Qed.

Lemma code_match (c : ascii) (t : list ascii) (p : option ascii) :
  forallb isProseUnit (c :: t) = true ->
  exists pv,
    matchAt re_code p ("`"%char :: (c :: t) ++ ["`"%char])
    = Some (MState pv [] [(1, c :: t)]).
Proof.
  intros Hx. unfold matchAt, re_code, Plus. cbn [Cat fold_right Lit Chr run rest caps].
  rewrite Ascii.eqb_refl. cbn [app rest caps].
  rewrite (no_backtick (c :: t) c Hx (or_introl eq_refl)). cbn [rest caps length].
  eexists.
  etransitivity.
  - apply (@star_class notBacktick t).
    + apply forallb_forall. intros c' Hc'. apply (no_backtick (c :: t) c' Hx). right. exact Hc'.
    + lia.
    + reflexivity.
    + intros s' Hs. cbn [rest caps prev closeGroup].
      destruct (rest s') as [|c' t']; [contradiction|].
      unfold notBacktick in Hs. apply negb_true_iff in Hs.
      rewrite Ascii.eqb_sym, Hs. reflexivity.
  - cbn [rest caps prev closeGroup]. rewrite Ascii.eqb_refl.
    unfold consumed. cbn [rest].
    change (c :: t ++ ["`"%char]) with ((c :: t) ++ ["`"%char]).
    rewrite firstn_app_exact. reflexivity.
Qed.

(** X18.  For a non-empty phrase [x], [x] between two backticks renders
    as the [code] element around [x], inside the wrapping paragraph. *)
Theorem code_span_renders (x : string) :
  isPhrase x = true ->
  Js.truthy x = true ->
  parseMarkdown ("`" ++ x ++ "`")
  = (openTag "p" paragraphClass
     ++ (openTag "code" "bg-gray-700 text-red-300 rounded px-2 py-1 text-sm"
         ++ x ++ closeTag "code")
     ++ closeTag "p")%string.
Proof.
  intros Hx Hne. pose proof (phrase_single_line _ Hx) as Hs. pose proof (phrase_prose _ Hx) as Hp.
  pose proof Hs as Hl. unfold isSingleLine in Hl. fold notLT in Hl.
  rewrite parseMarkdown_steps by reflexivity.
  unfold headings.
  skip_stage re_h3 tpl_h3 Hp Hl. skip_stage re_h2 tpl_h2 Hp Hl. skip_stage re_h1 tpl_h1 Hp Hl.
  unfold inlines.
  skip_stage re_quote tpl_quote Hp Hl. skip_stage re_bold tpl_bold Hp Hl.
  skip_stage re_em tpl_em Hp Hl.
  destruct (inert_unchanged _ (@wrapped_inert _ _ x tagPair_code Hx))
    as (_ & _ & _ & Ep & Er & El).
  assert (Ec : replace re_code tpl_code ("`" ++ x ++ "`")
               = (openTag "code" "bg-gray-700 text-red-300 rounded px-2 py-1 text-sm"
                  ++ x ++ closeTag "code")%string).
  { destruct x as [|c t]; [discriminate|].
    destruct (@code_match c (list_ascii_of_string t) None Hp) as [pv Hm].
    rewrite (@replace_whole re_code tpl_code _
               (MState pv [] [(1, list_ascii_of_string (String c t))]));
      [apply expand_wrapGroup | discriminate | | reflexivity | intros p; reflexivity].
    rewrite !list_of_append. exact Hm. }
  rewrite Ec, Ep, Er, El. reflexivity.
Qed.

Lemma code_span_renders_witness :
  parseMarkdown "`npm install`"
  = (openTag "p" paragraphClass
     ++ (openTag "code" "bg-gray-700 text-red-300 rounded px-2 py-1 text-sm"
         ++ "npm install" ++ closeTag "code")
     ++ closeTag "p")%string.
Proof.
  refine (@code_span_renders "npm install" _ _); reflexivity.
Defined.

(** *** A list item *)

Lemma star_back_none (P : ascii -> bool) (z : list ascii) (k : cont)
      (cs : list (nat * list ascii)) :
  (forall z1 z2 p', z = z1 ++ z2 -> z1 <> [] -> k (MState p' z2 cs) = None) ->
  forall z2 z1 p' fuel,
  z = z1 ++ z2 -> z1 <> [] ->
  star (run (Cls P)) true fuel k (MState p' z2 cs) = None.
Proof.
  intros Hk. induction z2 as [|c t IH]; intros z1 p' fuel E Hz.
  - destruct fuel as [|f]; cbn [star run rest]; apply (Hk z1 [] p' E Hz).
  - destruct fuel as [|f]; [cbn [star]; apply (Hk z1 (c :: t) p' E Hz)|].
    cbn [star run rest caps].
    assert (E' : star (run (Cls P)) true f k (MState (Some c) t cs) = None).
    { apply (IH (z1 ++ [c])); [rewrite <- app_assoc; exact E|].
      intros H. apply app_eq_nil in H as [_ H]. discriminate. }
    rewrite (Hk z1 (c :: t) p' E Hz).
    destruct (P c); [|reflexivity].
    cbn [rest]. destruct (length t <? length (c :: t)); [|reflexivity].
    match goal with
    | |- match ?s with Some _ => _ | None => _ end = _ =>
        replace s with (@None mstate) by (symmetry; exact E')
    end.
    reflexivity.
Qed.

(** The greedy star in front of a literal: the literal is found at the
    last place where the rest of the pattern accepts. *)
Lemma star_back (P : ascii -> bool) (z : list ascii) (k : cont)
      (cs : list (nat * list ascii)) :
  (forall z1 z2 p', z = z1 ++ z2 -> z1 <> [] -> k (MState p' z2 cs) = None) ->
  forall y fuel p v,
  forallb P y = true ->
  length (y ++ z) < fuel ->
  k (MState (lastOr p y) z cs) = Some v ->
  star (run (Cls P)) true fuel k (MState p (y ++ z) cs) = Some v.
Proof.
  intros Hk. induction y as [|c t IH]; intros fuel p v Hy Hf Hv.
  - destruct fuel as [|f]; [cbn in Hf; lia|].
    cbn [app lastOr fold_left] in *. cbn [star run rest caps].
    destruct z as [|c t]; [rewrite Hv; reflexivity|].
    assert (E' : star (run (Cls P)) true f k (MState (Some c) t cs) = None)
      by (apply (@star_back_none P (c :: t) k cs Hk t [c]); [reflexivity | discriminate]).
    rewrite Hv. destruct (P c); [|reflexivity].
    cbn [rest]. destruct (length t <? length (c :: t)); [|reflexivity].
    match goal with
    | |- match ?s with Some _ => _ | None => _ end = _ =>
        replace s with (@None mstate) by (symmetry; exact E')
    end.
    reflexivity.
  - destruct fuel as [|f]; [cbn in Hf; lia|].
    cbn [forallb] in Hy. apply andb_true_iff in Hy as [Hc Ht].
    change ((c :: t) ++ z) with (c :: t ++ z) in *.
    cbn [star run rest caps]. rewrite Hc. cbn [rest].
    replace (length (t ++ z) <? length (c :: t ++ z)) with true
      by (symmetry; apply Nat.ltb_lt; cbn [length]; lia).
    assert (E' : star (run (Cls P)) true f k (MState (Some c) (t ++ z) cs) = Some v)
      by (apply IH; [exact Ht | cbn [length] in Hf; lia | exact Hv]).
    match goal with
    | |- match ?s with Some _ => _ | None => _ end = _ =>
        replace s with (Some v) by (symmetry; exact E')
    end.
    reflexivity.
Qed.

Lemma close_li_suffix (z1 z2 : list ascii) :
  list_ascii_of_string "</li>" = z1 ++ z2 -> z1 <> [] ->
  stripPrefix (list_ascii_of_string "</li>") z2 = None.
Proof.
  intros E Hz.
  destruct z1 as [|a1 [|a2 [|a3 [|a4 [|a5 [|a6 z1]]]]]]; try congruence;
    cbn in E; injection E; intros; subst; try reflexivity; try discriminate.
Qed.

Lemma ul_match (x : list ascii) (p : option ascii) :
  exists pv,
    matchAt re_ul p (list_ascii_of_string "<li>" ++ x ++ list_ascii_of_string "</li>")
    = Some (MState pv []
              [(1, list_ascii_of_string "<li>" ++ x ++ list_ascii_of_string "</li>")]).
Proof.
  unfold matchAt, re_ul. cbn [Cat fold_right].
  change (run (Group 1 (Seq (Lit "<li>") (Seq (Star true DotAll) (Seq (Lit "</li>") Eps))))
              (fun s => Some s)
              (MState p (list_ascii_of_string "<li>" ++ x ++ list_ascii_of_string "</li>") []))
    with (run (Lit "<li>")
              (run (Star true DotAll)
                   (run (Lit "</li>")
                        (fun s' =>
                           Some (closeGroup 1
                                   (MState p (list_ascii_of_string "<li>" ++ x
                                              ++ list_ascii_of_string "</li>") []) s'))))
              (MState p (list_ascii_of_string "<li>" ++ x ++ list_ascii_of_string "</li>") [])).
  rewrite run_Lit. cbn [run rest]. unfold DotAll.
  eexists. apply star_back.
  - intros z1 z2 p' E Hz. apply run_Lit_fail. exact (@close_li_suffix z1 z2 E Hz).
  - apply forallb_forall. reflexivity.
  - lia.
  - match goal with
    | |- run (Lit ?d) ?k (MState ?pv (list_ascii_of_string ?d) ?cs) = _ =>
        pose proof (run_Lit d k pv [] cs) as R
    end.
    rewrite app_nil_r in R. rewrite R. unfold closeGroup, consumed. cbn [rest caps prev length].
    rewrite Nat.sub_0_r, firstn_all. reflexivity.
Qed.

Lemma ul_wraps (x : string) :
  replace re_ul tpl_ul ("<li>" ++ x ++ "</li>") = ("<ul><li>" ++ x ++ "</li></ul>")%string.
Proof.
  destruct (ul_match (list_ascii_of_string x) None) as [pv Hm].
  rewrite <- !list_of_append in Hm.
  rewrite (@replace_whole re_ul tpl_ul ("<li>" ++ x ++ "</li>")
             (MState pv [] [(1, list_ascii_of_string ("<li>" ++ x ++ "</li>"))]));
    [| discriminate | exact Hm | reflexivity | intros p; reflexivity].
  cbn [caps tpl_ul expand capture Nat.eqb]. rewrite !list_of_append.
  rewrite app_nil_r, !string_of_app, !string_of_list_ascii_of_string.
  rewrite !append_assoc. reflexivity.
Qed.

Lemma replaceFrom_step (r : regex) (tpl : list titem) (m : string) (p : option ascii)
      (c : ascii) (t : list ascii) :
  startsWithLiteral r m ->
  stripPrefix (list_ascii_of_string m) (c :: t) = None ->
  replaceFrom r tpl p (c :: t) 0 = c :: replaceFrom r tpl (Some c) t 0.
Proof. intros Hr H. cbn [replaceFrom]. rewrite (Hr p (c :: t) H). reflexivity. Qed.

Lemma prose_first_merge (c : ascii) : isProseUnit c = true -> firstOf re_merge c = false.
Proof.
  destruct c as [[] [] [] [] [] [] [] []]; vm_compute; intros H;
    first [discriminate | reflexivity].
Qed.

Lemma merge_keeps_one_list (x : string) :
  forallb isProseUnit (list_ascii_of_string x) = true ->
  replace re_merge tpl_merge ("<ul><li>" ++ x ++ "</li></ul>")
  = ("<ul><li>" ++ x ++ "</li></ul>")%string.
Proof.
  intros Hp. unfold replace. rewrite !list_of_append.
  cbn [list_ascii_of_string app].
  do 8 (rewrite (@replaceFrom_step re_merge tpl_merge "</ul>" _ _ _ merge_starts)
          by reflexivity).
  rewrite (@replaceFrom_region re_merge tpl_merge _ _ eq_refl
             (prose_skips re_merge _ prose_first_merge Hp)).
  set (pv := lastOr _ _).
  do 5 (rewrite (@replaceFrom_step re_merge tpl_merge "</ul>" _ _ _ merge_starts)
          by reflexivity).
  cbn. rewrite !string_of_app. cbn.
  rewrite string_of_list_ascii_of_string. reflexivity.
Qed.

Lemma li_wraps (marker x : string) :
  marker = "- " \/ marker = "* " ->
  isSingleLine x = true ->
  replace re_li tpl_li (marker ++ x) = ("<li>" ++ x ++ "</li>")%string.
Proof.
  intros Hm Hs. unfold replace.
  rewrite li_first_item.
  - assert (F : firstItem (list_ascii_of_string (marker ++ x))
                 = list_ascii_of_string "<li>" ++ list_ascii_of_string x
                   ++ list_ascii_of_string "</li>")
      by (destruct Hm as [-> | ->]; reflexivity).
    rewrite F, !string_of_app, !string_of_list_ascii_of_string. reflexivity.
  - rewrite list_of_append, forallb_app. unfold isSingleLine in Hs. fold notLT in Hs.
    rewrite Hs. destruct Hm as [-> | ->]; reflexivity.
Qed.

(** X19.  For a phrase [x], "- x" and "* x" render as a list of one
    item: [x] inside [<li>] inside [<ul>], inside the wrapping paragraph. *)
Theorem list_item_renders (x : string) :
  isPhrase x = true ->
  parseMarkdown ("- " ++ x)
  = (openTag "p" paragraphClass ++ ("<ul><li>" ++ x ++ "</li></ul>") ++ closeTag "p")%string /\
  parseMarkdown ("* " ++ x)
  = (openTag "p" paragraphClass ++ ("<ul><li>" ++ x ++ "</li></ul>") ++ closeTag "p")%string.
Proof.
  intros Hx. pose proof (phrase_single_line _ Hx) as Hs. pose proof (phrase_prose _ Hx) as Hp.
  pose proof Hs as Hl. unfold isSingleLine in Hl. fold notLT in Hl.
  split.
  - rewrite parseMarkdown_steps by reflexivity.
    unfold headings.
    skip_stage re_h3 tpl_h3 Hp Hl. skip_stage re_h2 tpl_h2 Hp Hl. skip_stage re_h1 tpl_h1 Hp Hl.
    unfold inlines.
    skip_stage re_quote tpl_quote Hp Hl. skip_stage re_bold tpl_bold Hp Hl.
    skip_stage re_em tpl_em Hp Hl. skip_stage re_code tpl_code Hp Hl.
    skip_stage re_para tpl_para Hp Hl. skip_stage re_br tpl_br Hp Hl.
    unfold lists.
    rewrite (@li_wraps "- " x (or_introl eq_refl) Hs), ul_wraps, (merge_keeps_one_list _ Hp).
    reflexivity.
  - rewrite parseMarkdown_steps by reflexivity.
    unfold headings.
    skip_stage re_h3 tpl_h3 Hp Hl. skip_stage re_h2 tpl_h2 Hp Hl. skip_stage re_h1 tpl_h1 Hp Hl.
    unfold inlines.
    skip_stage re_quote tpl_quote Hp Hl.
    rewrite (@few_stars_replace re_bold tpl_bold 4 _ bold_needs_four)
      by (rewrite !list_of_append, !countStars_app, (countStars_prose _ Hp); cbn; lia).
    rewrite (@few_stars_replace re_em tpl_em 2 _ em_needs_two)
      by (rewrite !list_of_append, !countStars_app, (countStars_prose _ Hp); cbn; lia).
    skip_stage re_code tpl_code Hp Hl.
    skip_stage re_para tpl_para Hp Hl. skip_stage re_br tpl_br Hp Hl.
    unfold lists.
    rewrite (@li_wraps "* " x (or_intror eq_refl) Hs), ul_wraps, (merge_keeps_one_list _ Hp).
    reflexivity.
Qed.

Lemma list_item_renders_witness :
  parseMarkdown "- flour"
  = (openTag "p" paragraphClass ++ "<ul><li>flour</li></ul>" ++ closeTag "p")%string /\
  parseMarkdown "* flour"
  = (openTag "p" paragraphClass ++ "<ul><li>flour</li></ul>" ++ closeTag "p")%string.
Proof.
  refine (@list_item_renders "flour" _). reflexivity.
Defined.

End Elements.
